(** * Verification of [deepali.core.grid]: the oriented sampling grid

    A shallow embedding of [src/deepali/core/grid.py] (classes [Axes] and
    [Grid]) together with the properties stated about it.

    Numeric model.  The attributes of a [Grid] are [torch] tensors of
    floating point numbers.  A tensor entry is modelled by a [scalar]: an
    exact rational number, or one of the special values [+inf], [-inf] and
    [nan] that the arithmetic of the backend produces when a division by
    zero occurs.  Arithmetic on finite values is exact (rounding error is
    not modelled and zero carries no sign); arithmetic on the special
    values follows IEEE 754.  The source rounds every sum, product and
    quotient to single precision, so the theorems about computed numbers
    say what the code copies, tests or counts, and are conditional on the
    call returning where a run-time check of the code
    ([assert torch.allclose(...)]) compares computed numbers; lemmas that
    hold "with the exact numbers of the model" only are auxiliary.

    Python exceptions are modelled by the error monad [result]. *)

From Stdlib Require Import QArith Qcanon Qround Qabs ZArith List Bool Lia Lqa Field.
Import ListNotations.

Set Implicit Arguments.

(** ** Exceptions *)

Inductive exn : Type :=
| ValueError
| TypeError
| AssertionError
| NotImplementedError
| IndexError
| KeyError
| RuntimeError.

Inductive result (A : Type) : Type :=
| Ok (a : A)
| Raise (e : exn).

Arguments Ok {A} a.
Arguments Raise {A} e.

Definition bind {A B : Type} (r : result A) (k : A -> result B) : result B :=
  match r with
  | Ok a => k a
  | Raise e => Raise e
  end.

Notation "x <- r ;; k" := (bind r (fun x => k))
  (at level 61, r at next level, right associativity).

(** [if c: raise e], then continue with [k]. *)
Definition raise_if {A : Type} (c : bool) (e : exn) (k : result A) : result A :=
  if c then Raise e else k.

(** [assert c], then continue with [k]. *)
Definition assert {A : Type} (c : bool) (k : result A) : result A :=
  if c then k else Raise AssertionError.

(** ** Scalars: tensor entries *)

Inductive scalar : Type :=
| Fin (q : Qc)
| PInf
| NInf
| NaN.

Definition Qz (z : Z) : Qc := Q2Qc (inject_Z z).
Definition Qfrac (n : Z) (d : positive) : Qc := Q2Qc (n # d).
Definition Fz (z : Z) : scalar := Fin (Qz z).
Definition Ffrac (n : Z) (d : positive) : scalar := Fin (Qfrac n d).

Definition Qc_eqb (a b : Qc) : bool := Qeq_bool a b.
Definition Qc_leb (a b : Qc) : bool := Qle_bool a b.
Definition Qc_ltb (a b : Qc) : bool := negb (Qle_bool b a).

Definition is_finite (a : scalar) : bool :=
  match a with Fin _ => true | _ => false end.

(** Sign of a scalar; [None] for [nan]. *)
Definition ssign (a : scalar) : option comparison :=
  match a with
  | Fin q => Some (Qccompare q 0)
  | PInf => Some Gt
  | NInf => Some Lt
  | NaN => None
  end.

Definition sneg (a : scalar) : scalar :=
  match a with
  | Fin q => Fin (- q)
  | PInf => NInf
  | NInf => PInf
  | NaN => NaN
  end.

Definition sadd (a b : scalar) : scalar :=
  match a, b with
  | NaN, _ | _, NaN => NaN
  | Fin x, Fin y => Fin (x + y)
  | PInf, NInf | NInf, PInf => NaN
  | PInf, _ | _, PInf => PInf
  | NInf, _ | _, NInf => NInf
  end.

Definition ssub (a b : scalar) : scalar := sadd a (sneg b).

(** An infinity of sign [s] (taken as a comparison with zero). *)
Definition inf_of_sign (s : comparison) : scalar :=
  match s with
  | Gt => PInf
  | Lt => NInf
  | Eq => NaN
  end.

Definition sign_mul (s t : comparison) : comparison :=
  match s, t with
  | Eq, _ | _, Eq => Eq
  | Gt, Gt | Lt, Lt => Gt
  | _, _ => Lt
  end.

Definition smul (a b : scalar) : scalar :=
  match a, b with
  | Fin x, Fin y => Fin (x * y)
  | _, _ =>
      match ssign a, ssign b with
      | Some s, Some t => inf_of_sign (sign_mul s t)
      | _, _ => NaN
      end
  end.

Definition sdiv (a b : scalar) : scalar :=
  match a, b with
  | NaN, _ | _, NaN => NaN
  | Fin x, Fin y =>
      if Qc_eqb y 0 then inf_of_sign (Qccompare x 0) else Fin (x / y)
  | Fin _, _ => Fin 0
  | PInf, Fin y => if Qc_ltb y 0 then NInf else PInf
  | NInf, Fin y => if Qc_ltb y 0 then PInf else NInf
  | _, _ => NaN
  end.

Definition sabs (a : scalar) : scalar :=
  match a with
  | Fin q => Fin (if Qc_ltb q 0 then - q else q)
  | PInf | NInf => PInf
  | NaN => NaN
  end.

(** Comparison; [None] when an operand is [nan]. *)
Definition scompare (a b : scalar) : option comparison :=
  match a, b with
  | NaN, _ | _, NaN => None
  | Fin x, Fin y => Some (Qccompare x y)
  | PInf, PInf | NInf, NInf => Some Eq
  | PInf, _ | _, NInf => Some Gt
  | NInf, _ | _, PInf => Some Lt
  end.

Definition seqb (a b : scalar) : bool :=
  match scompare a b with Some Eq => true | _ => false end.
Definition sltb (a b : scalar) : bool :=
  match scompare a b with Some Lt => true | _ => false end.
Definition sleb (a b : scalar) : bool :=
  match scompare a b with Some Lt | Some Eq => true | _ => false end.
Definition sgtb (a b : scalar) : bool := sltb b a.
Definition sgeb (a b : scalar) : bool := sleb b a.

Definition sceil (a : scalar) : scalar :=
  match a with
  | Fin q => Fz (Qceiling q)
  | _ => a
  end.

Definition sfloor (a : scalar) : scalar :=
  match a with
  | Fin q => Fz (Qfloor q)
  | _ => a
  end.

(** [torch.round]: to the nearest integer, ties to the even one. *)
Definition Qround_half_even (q : Qc) : Z :=
  let f := Qfloor q in
  match Qccompare (q - Qz f) (Qfrac 1 2) with
  | Lt => f
  | Gt => (f + 1)%Z
  | Eq => if Z.even f then f else (f + 1)%Z
  end.

Definition sround (a : scalar) : scalar :=
  match a with
  | Fin q => Fz (Qround_half_even q)
  | _ => a
  end.

(** [torch.clamp(x, min=m)]: [nan] stays [nan]. *)
Definition sclamp_min (m a : scalar) : scalar :=
  match a with
  | NaN => NaN
  | _ => if sltb a m then m else a
  end.

(** Python's [int(x)] on a float: truncation towards zero; it raises on
    the special values ([OverflowError] and [ValueError], both reported
    here as [ValueError]). *)
Definition Qtrunc (q : Qc) : Z :=
  if Qc_ltb q 0 then Qceiling q else Qfloor q.

Definition to_int (a : scalar) : result Z :=
  match a with
  | Fin q => Ok (Qtrunc q)
  | _ => Raise ValueError
  end.

(** ** Tensors

    A 1-dimensional tensor is a list of scalars, a 2-dimensional one a
    list of rows.  Elementwise operations are applied to tensors of equal
    length: every [Grid] keeps [_size], [_spacing] and [_center] of
    length [ndim] and [_direction] of shape [ndim x ndim]. *)

Definition vec : Type := list scalar.
Definition mat : Type := list (list scalar).

Fixpoint map2 {A B C : Type} (f : A -> B -> C) (xs : list A) (ys : list B) : list C :=
  match xs, ys with
  | x :: xs', y :: ys' => f x y :: map2 f xs' ys'
  | _, _ => []
  end.

Definition vadd : vec -> vec -> vec := map2 sadd.
Definition vsub : vec -> vec -> vec := map2 ssub.
Definition vmul : vec -> vec -> vec := map2 smul.
Definition vdiv : vec -> vec -> vec := map2 sdiv.
Definition vneg : vec -> vec := map sneg.

(** [torch.where(cond, a, b)] *)
Fixpoint vwhere (c : list bool) (a b : vec) : vec :=
  match c, a, b with
  | c0 :: c', a0 :: a', b0 :: b' => (if c0 then a0 else b0) :: vwhere c' a' b'
  | _, _, _ => []
  end.

Definition any (c : list bool) : bool := existsb (fun b => b) c.
Definition all (c : list bool) : bool := forallb (fun b => b) c.

(** [a.flip(0)] *)
Definition flip {A : Type} (l : list A) : list A := rev l.

Fixpoint dot (a b : vec) : scalar :=
  match a, b with
  | x :: a', y :: b' => sadd (smul x y) (dot a' b')
  | _, _ => Fin 0
  end.

(** [torch.matmul(m, v)] for a matrix and a vector. *)
Definition matvec (m : mat) (v : vec) : vec := map (fun row => dot row v) m.

Definition ncols (m : mat) : nat := length (hd [] m).
Definition col (j : nat) (m : mat) : vec := map (fun row => nth j row (Fin 0)) m.

(** [m.t()] *)
Definition transpose (m : mat) : mat := map (fun j => col j m) (seq 0 (ncols m)).

(** [torch.mm(a, b)] *)
Definition mm (a b : mat) : mat :=
  map (fun row => map (fun j => dot row (col j b)) (seq 0 (ncols b))) a.

(** [torch.diag(v)] for a 1-dimensional [v]. *)
Definition diag (v : vec) : mat :=
  map (fun i => map (fun j => if Nat.eqb i j then nth i v (Fin 0) else Fin 0)
                    (seq 0 (length v)))
      (seq 0 (length v)).

(** [torch.eye(n)] *)
Definition eye (n : nat) : mat := diag (repeat (Fin 1) n).

(** [m.flatten()], row-major. *)
Definition flatten (m : mat) : vec := concat m.

(** [v.reshape(rows, cols)] of a 1-dimensional tensor with [rows * cols] entries. *)
Fixpoint reshape (rows cols : nat) (v : vec) : mat :=
  match rows with
  | O => []
  | S rows' => firstn cols v :: reshape rows' cols (skipn cols v)
  end.

(** Row [r] of [m] without its entry [j]. *)
Fixpoint remove_nth {A : Type} (j : nat) (r : list A) : list A :=
  match j, r with
  | _, [] => []
  | O, _ :: r' => r'
  | S j', x :: r' => x :: remove_nth j' r'
  end.

(** [m.det()]: the determinant as the exact quantity, by expansion along
    the first row of an [n x n] matrix. *)
Fixpoint det_rec (n : nat) (m : mat) : scalar :=
  match n, m with
  | S n', row :: rest =>
      fold_right sadd (Fin 0)
        (map (fun j =>
                let minor := det_rec n' (map (remove_nth j) rest) in
                let term := smul (nth j row (Fin 0)) minor in
                if Nat.even j then term else sneg term)
             (seq 0 (length row)))
  | _, _ => Fin 1
  end.

Definition det (m : mat) : scalar := det_rec (length m) m.

(** Shape of a 2-dimensional tensor as [(rows, columns)]. *)
Definition shape2 (m : mat) : nat * nat := (length m, ncols m).

(** Whether all rows of [m] have [c] entries. *)
Definition rows_have (c : nat) (m : mat) : bool :=
  forallb (fun row => Nat.eqb (length row) c) m.

(** [torch.isclose(a, b, rtol, atol)]: equal values (equal infinities
    included) are close, and otherwise the error must be finite and within
    [atol + |rtol * b|]; [nan] is close to nothing. *)
Definition isclose (rtol atol : scalar) (a b : scalar) : bool :=
  seqb a b
  || (is_finite (sabs (ssub a b))
      && sleb (sabs (ssub a b)) (sadd atol (sabs (smul rtol b)))).

Definition default_rtol : scalar := Ffrac 1 100000.
Definition default_atol : scalar := Ffrac 1 100000000.

(** [torch.allclose(a, b, rtol=1e-5, atol=1e-8)] for tensors of equal shape. *)
Definition allclose (a b : vec) : bool :=
  all (map2 (isclose default_rtol default_atol) a b).

Definition mallclose (a b : mat) : bool :=
  all (map2 allclose a b).

(** ** Function arguments

    An [Array] argument may be a number, a sequence or a tensor; the integer
    variants record an integer [dtype], which [resize] and its relatives
    insist on. *)

Inductive array : Type :=
| Scalar (x : scalar)
| Vector (v : list scalar)
| Matrix (m : list (list scalar))
| IntScalar (n : Z)
| IntVector (l : list Z).

(** [is_int_dtype(as_tensor(a).dtype)] *)
Definition is_int_dtype (a : array) : bool :=
  match a with
  | IntScalar _ | IntVector _ => true
  | _ => false
  end.

(** [as_tensor(a).float()] *)
Definition to_float (a : array) : array :=
  match a with
  | IntScalar n => Scalar (Fz n)
  | IntVector l => Vector (map Fz l)
  | _ => a
  end.

(** Modelled from the spec: [deepali.core.tensor.cat_scalars] is not part of
    the sources.  It joins its arguments into a 1-dimensional tensor of [num]
    entries: a single number is repeated along every axis ("spacing defaults
    to 1 per axis", "center defaults to 0"), a sequence must have [num]
    entries, anything else is an invalid argument. *)
Definition cat_scalars (arg : array) (num : nat) : result vec :=
  match to_float arg with
  | Scalar x => Ok (repeat x num)
  | Vector [x] => Ok (repeat x num)
  | Vector v => if Nat.eqb (length v) num then Ok v else Raise ValueError
  | _ => Raise ValueError
  end.

(** A Python object passed where a truth value is expected: a [bool], or a
    bound method object such as [self.align_corners] (written without the
    call parentheses). *)
Inductive pyobj : Type :=
| PyBool (b : bool)
| PyBoundMethod.

(** [bool(o)]: a method object defines neither [__bool__] nor [__len__] and
    is therefore always true. *)
Definition py_bool (o : pyobj) : bool :=
  match o with
  | PyBool b => b
  | PyBoundMethod => true
  end.

(** [ALIGN_CORNERS = True] *)
Definition ALIGN_CORNERS : bool := true.

(** ** [class Axes] *)

Inductive Axes : Type :=
| GRID
| CUBE
| CUBE_CORNERS
| WORLD.

Definition Axes_eqb (a b : Axes) : bool :=
  match a, b with
  | GRID, GRID | CUBE, CUBE | CUBE_CORNERS, CUBE_CORNERS | WORLD, WORLD => true
  | _, _ => false
  end.

(** [Axes.from_align_corners] *)
Definition from_align_corners (align_corners : bool) : Axes :=
  if align_corners then CUBE_CORNERS else CUBE.

(** ** [class Grid]: attributes *)

Record Grid : Type := mkGrid {
  _size : vec;
  _center : vec;
  _spacing : vec;
  _direction : mat;
  _align_corners : bool
}.

(** [Axes.from_grid] *)
Definition from_grid (grid : Grid) : Axes :=
  from_align_corners (_align_corners grid).

Definition ndim (self : Grid) : nat := length (_size self).

(** [Grid.align_corners()], the accessor called without argument. *)
Definition align_corners (self : Grid) : bool := _align_corners self.

(** [Grid._round_size] *)
Definition _round_size (size : vec) : vec :=
  map (fun n => if seqb n (Fin 0) then Fin 0 else sceil n) size.

Definition size_tensor (self : Grid) : vec := _round_size (_size self).

(** [Grid.size()]: the sizes as Python integers. *)
Fixpoint to_ints (v : vec) : result (list Z) :=
  match v with
  | [] => Ok []
  | x :: v' => n <- to_int x ;; l <- to_ints v' ;; Ok (n :: l)
  end.

Definition size (self : Grid) : result (list Z) := to_ints (size_tensor self).

(** [Grid.shape] *)
Definition shape (self : Grid) : result (list Z) :=
  to_ints (flip (size_tensor self)).

Definition spacing (self : Grid) : vec := _spacing self.
Definition center (self : Grid) : vec := _center self.
Definition direction (self : Grid) : mat := _direction self.

(** [Grid.extent()] *)
Definition extent (self : Grid) : vec := vmul (spacing self) (size_tensor self).

(** [Grid.cube_extent()] *)
Definition cube_extent (self : Grid) : vec :=
  let n := size_tensor self in
  let n := if _align_corners self then map (fun x => ssub x (Fin 1)) n else n in
  vmul (spacing self) n.

(** [Grid.affine()] *)
Definition affine (self : Grid) : mat :=
  mm (direction self) (diag (spacing self)).

(** [Grid.inverse_affine()] *)
Definition inverse_affine (self : Grid) : mat :=
  mm (diag (map (fun s => sdiv (Fin 1) s) (spacing self))) (transpose (direction self)).

(** The offset of the grid centre from the origin in index units, as both
    [origin()] and [origin_()] compute it:
    [torch.where(size.gt(0), size.sub(1), size).div(2)]. *)
Definition center_offset (size : vec) : vec :=
  map (fun x => sdiv x (Fin (Qz 2)))
      (vwhere (map (fun x => sgtb x (Fin 0)) size)
              (map (fun x => ssub x (Fin 1)) size)
              size).

(** [Grid.origin()] *)
Definition origin (self : Grid) : vec :=
  let size := size_tensor self in
  let offset := center_offset size in
  let offset := matvec (affine self) offset in
  vsub (_center self) offset.

(** [Grid.center_(arg)] *)
Definition center_ (self : Grid) (arg : array) : result Grid :=
  c <- cat_scalars arg (ndim self) ;;
  Ok (mkGrid (_size self) c (_spacing self) (_direction self) (_align_corners self)).

(** [Grid.origin_(arg)] *)
Definition origin_ (self : Grid) (arg : array) : result Grid :=
  origin' <- cat_scalars arg (ndim self) ;;
  let size := size_tensor self in
  let offset := center_offset size in
  let offset := matvec (affine self) offset in
  Ok (mkGrid (_size self) (vadd origin' offset) (_spacing self) (_direction self)
             (_align_corners self)).

(** [Grid.spacing_(arg)] *)
Definition spacing_ (self : Grid) (arg : array) : result Grid :=
  spacing' <- cat_scalars arg (ndim self) ;;
  raise_if (any (map (fun s => sleb s (Fin 0)) spacing')) ValueError
    (Ok (mkGrid (_size self) (_center self) spacing' (_direction self)
                (_align_corners self))).

(** The tolerance of the rotation test in [direction_]. *)
Definition det_tol : scalar := Ffrac 1 10000.

(** [Grid.direction_(arg)] *)
Definition direction_ (self : Grid) (arg : array) : result Grid :=
  let D := ndim self in
  direction' <-
    match to_float arg with
    | Vector v =>
        raise_if (negb (Nat.eqb (length v) (D * D))) ValueError
          (Ok (reshape D D v))
    | Matrix m =>
        raise_if (negb (rows_have (length m) m) || negb (Nat.eqb (length m) D))
          ValueError (Ok m)
    | _ => Raise ValueError
    end ;;
  raise_if (sgtb (sabs (ssub (sabs (det direction')) (Fin 1))) det_tol) ValueError
    (Ok (mkGrid (_size self) (_center self) (_spacing self) direction'
                (_align_corners self))).

(** [Grid.align_corners_(arg)] *)
Definition align_corners_ (self : Grid) (arg : pyobj) : Grid :=
  mkGrid (_size self) (_center self) (_spacing self) (_direction self) (py_bool arg).

(** The 1-dimensional, non-empty tensor test [__init__] applies to [size]
    and [shape]. *)
Definition as_size_tensor (a : array) : result vec :=
  match to_float a with
  | Vector v => raise_if (Nat.eqb (length v) 0) ValueError (Ok v)
  | _ => Raise ValueError
  end.

(** [Grid.__init__].  The attributes are set in the order of the source:
    [_size] first, then spacing, direction and centre through the in-place
    setters, which read what was set before them. *)
Definition Grid_init (size' shape' center' origin' spacing' direction' : option array)
    (align_corners' : pyobj) : result Grid :=
  size0 <-
    match size' with
    | Some a => v <- as_size_tensor a ;; Ok (Some v)
    | None => Ok None
    end ;;
  size0 <-
    match shape', size0 with
    | None, None => Raise ValueError
    | None, Some v => Ok v
    | Some s, None => v <- as_size_tensor s ;; Ok (flip v)
    | Some s, Some v =>
        match to_float s with
        | Vector sh =>
            raise_if (negb (Nat.eqb (length v) (length sh))
                      || any (map2 (fun a b => negb (seqb a b)) (flip sh) v))
              ValueError (Ok v)
        | _ => Raise ValueError
        end
    end ;;
  let self := mkGrid (map (sclamp_min (Fin 0)) size0) [] [] [] false in
  self <- spacing_ self (match spacing' with None => IntScalar 1 | Some s => s end) ;;
  self <- direction_ self
            (match direction' with None => Matrix (eye (ndim self)) | Some d => d end) ;;
  self <-
    match origin', center' with
    | None, _ => center_ self (match center' with None => IntScalar 0 | Some c => c end)
    | Some o, None => origin_ self o
    | Some o, Some c =>
        self <- center_ self c ;;
        o <- cat_scalars o (ndim self) ;;
        raise_if (negb (allclose o (origin self))) ValueError (Ok self)
    end ;;
  Ok (align_corners_ self align_corners').

(** [Grid.numpy()] *)
Definition numpy (self : Grid) : vec :=
  _size self ++ _spacing self ++ _center self ++ flatten (_direction self).

(** Python slice [attrs[i:j]] *)
Definition slice {A : Type} (i j : nat) (l : list A) : list A :=
  firstn (j - i) (skipn i l).

(** [Grid.from_seq(attrs, origin, align_corners)] *)
Definition from_seq (attrs : vec) (origin' : bool) (align_corners' : bool) : result Grid :=
  d <- (if Nat.eqb (length attrs) 10 then Ok 2%nat
        else if Nat.eqb (length attrs) 18 then Ok 3%nat
        else Raise ValueError) ;;
  let size' := Vector (slice 0 d attrs) in
  let spacing' := Vector (slice d (2 * d) attrs) in
  let direction' := Vector (skipn (3 * d) attrs) in
  let third := Vector (slice (2 * d) (3 * d) attrs) in
  if origin'
  then Grid_init (Some size') None None (Some third) (Some spacing') (Some direction')
         (PyBool align_corners')
  else Grid_init (Some size') None (Some third) None (Some spacing') (Some direction')
         (PyBool align_corners').

(** [Grid.from_numpy] *)
Definition from_numpy (attrs : vec) (origin' : bool) (align_corners' : bool) : result Grid :=
  from_seq attrs origin' align_corners'.

(** [Grid.__eq__]: tensor attributes are compared by shape and then by
    [torch.allclose(rtol=1e-5, atol=1e-8)]; [_align_corners] is skipped.
    The shortcut [other is self] of the source is not a separate case here: a
    grid whose attributes hold no [nan] compares equal to itself below. *)
Definition grid_eq (self other : Grid) : bool :=
  (Nat.eqb (length (_size self)) (length (_size other))
   && allclose (_size self) (_size other))
  && (Nat.eqb (length (_center self)) (length (_center other))
      && allclose (_center self) (_center other))
  && (Nat.eqb (length (_spacing self)) (length (_spacing other))
      && allclose (_spacing self) (_spacing other))
  && (Nat.eqb (length (_direction self)) (length (_direction other))
      && Nat.eqb (ncols (_direction self)) (ncols (_direction other))
      && mallclose (_direction self) (_direction other)).

(** ** Homogeneous coordinate transformations *)

(** Modelled from the spec: [deepali.core.linalg.homogeneous_matrix] is not
    part of the sources.  It turns the linear part [m] (a [D x D] matrix) and
    a translation [offset] into the "affine point transform -- a D x (D+1)
    matrix (linear part + translation)"; a single number as offset is used
    along every axis. *)
Definition homogeneous_matrix (m : mat) (offset : array) : result mat :=
  t <- cat_scalars offset (length m) ;;
  Ok (map2 (fun row ti => row ++ [ti]) m t).

(** Linear part and translation of a transformation given as a translation
    vector, a square matrix or a [D x (D+1)] matrix. *)
Definition as_affine (a : array) : result (option mat * option vec) :=
  match a with
  | Vector t => Ok (None, Some t)
  | Matrix m =>
      let D := length m in
      if rows_have D m then Ok (Some m, None)
      else if rows_have (S D) m
      then Ok (Some (map (firstn D) m), Some (map (fun row => nth D row (Fin 0)) m))
      else Raise ValueError
  | _ => Raise ValueError
  end.

Definition affine_dim (a : option mat * option vec) : nat :=
  match a with
  | (Some m, _) => length m
  | (None, Some t) => length t
  | (None, None) => 0
  end.

(** Modelled from the spec: [deepali.core.linalg.hmm] is not part of the
    sources.  It composes two homogeneous coordinate transformations, the
    second argument being applied first: linear parts are multiplied, the
    translation of the first applied map is carried through the linear part of
    the second.  The result is square when both arguments are square and has
    the translation column otherwise. *)
Definition hmm (a b : array) : result mat :=
  pa <- as_affine a ;;
  pb <- as_affine b ;;
  raise_if (negb (Nat.eqb (affine_dim pa) (affine_dim pb))) ValueError
    (let D := affine_dim pa in
     let '(La, ta) := pa in
     let '(Lb, tb) := pb in
     let L := match La, Lb with
              | Some A, Some B => mm A B
              | Some A, None => A
              | None, Some B => B
              | None, None => eye D
              end in
     let tb' := match tb, La with
                | Some t, Some A => Some (matvec A t)
                | Some t, None => Some t
                | None, _ => None
                end in
     match ta, tb' with
     | None, None => Ok L
     | Some t, None | None, Some t => homogeneous_matrix L (Vector t)
     | Some t, Some u => homogeneous_matrix L (Vector (vadd u t))
     end).

(** Modelled from the spec: [deepali.core.linalg.homogeneous_transform] is
    not part of the sources.  It applies a transformation to one point of
    [D] coordinates "via homogeneous matrix-vector multiplication (points) or
    linear multiplication (vectors)". *)
Definition homogeneous_transform (m : mat) (point : vec) (vectors : bool) : result vec :=
  p <- as_affine (Matrix m) ;;
  raise_if (negb (Nat.eqb (length m) (length point))) ValueError
    (match p with
     | (Some L, Some t) => Ok (if vectors then matvec L point else vadd (matvec L point) t)
     | (Some L, None) => Ok (matvec L point)
     | _ => Raise ValueError
     end).

(** Modelled from the spec: [deepali.core.math.round_decimals] is not part of
    the sources.  It rounds to the given number of "digits right of the
    decimal point". *)
Definition round_decimals (v : vec) (decimals : Z) : vec :=
  let scale := Fz (10 ^ decimals) in
  map (fun x => sdiv (sround (smul x scale)) scale) v.

(** ** [Grid.transform] *)

(** The body of [Grid.transform]; [transform] stands for the method in the
    recursive calls of the source. *)
Definition transform_body
    (transform : Grid -> option Axes -> option Axes -> option Grid -> bool -> result mat)
    (self : Grid) (axes to_axes : option Axes) (to_grid : option Grid) (vectors : bool)
    : result mat :=
  match axes, to_axes, to_grid with
  | None, None, None =>
      let cube_axes := if _align_corners self then CUBE_CORNERS else CUBE in
      transform self (Some cube_axes) (Some WORLD) None vectors
  | None, _, _ => Raise ValueError
  | Some axes, _, _ =>
      let to_axes := match to_axes with None => axes | Some a => a end in
      matrix <-
        (if match to_grid with None => true | Some g => grid_eq g self end
         then
           if Axes_eqb axes to_axes then
             let matrix := eye (ndim self) in
             if negb vectors
             then m <- homogeneous_matrix matrix (Vector (repeat (Fin 0) (ndim self))) ;;
                  Ok (Some m)
             else Ok (Some matrix)
           else
             match axes, to_axes with
             | GRID, CUBE =>
                 let size := size_tensor self in
                 let matrix := diag (map (fun n => sdiv (Fin (Qz 2)) n) size) in
                 if negb vectors
                 then m <- homogeneous_matrix matrix
                             (Vector (map (fun n => ssub (sdiv (Fin 1) n) (Fin 1)) size)) ;;
                      Ok (Some m)
                 else Ok (Some matrix)
             | GRID, CUBE_CORNERS =>
                 let size := size_tensor self in
                 let matrix :=
                   diag (map (fun n => sdiv (Fin (Qz 2)) (ssub n (Fin 1))) size) in
                 if negb vectors
                 then m <- homogeneous_matrix matrix (Scalar (Fz (-1))) ;; Ok (Some m)
                 else Ok (Some matrix)
             | GRID, WORLD =>
                 let matrix := affine self in
                 if negb vectors
                 then m <- homogeneous_matrix matrix (Vector (origin self)) ;; Ok (Some m)
                 else Ok (Some matrix)
             | CUBE, CUBE_CORNERS =>
                 let size := size_tensor self in
                 Ok (Some (diag (map (fun n => sdiv n (ssub n (Fin 1))) size)))
             | CUBE, GRID =>
                 let half_size := map (fun n => smul (Ffrac 1 2) n) (size_tensor self) in
                 let matrix := diag half_size in
                 if negb vectors
                 then m <- homogeneous_matrix matrix
                             (Vector (map (fun h => ssub h (Ffrac 1 2)) half_size)) ;;
                      Ok (Some m)
                 else Ok (Some matrix)
             | CUBE, WORLD =>
                 cube_to_grid <- transform self (Some axes) (Some GRID) None vectors ;;
                 grid_to_world <- transform self (Some GRID) (Some WORLD) None vectors ;;
                 if vectors then Ok (Some (mm grid_to_world cube_to_grid))
                 else m <- hmm (Matrix grid_to_world) (Matrix cube_to_grid) ;; Ok (Some m)
             | CUBE_CORNERS, CUBE =>
                 let size := size_tensor self in
                 Ok (Some (diag (map (fun n => sdiv (ssub n (Fin 1)) n) size)))
             | CUBE_CORNERS, GRID =>
                 let scales :=
                   map (fun n => smul (Ffrac 1 2) (ssub n (Fin 1))) (size_tensor self) in
                 let matrix := diag scales in
                 if negb vectors
                 then m <- homogeneous_matrix matrix (Vector scales) ;; Ok (Some m)
                 else Ok (Some matrix)
             | CUBE_CORNERS, WORLD =>
                 let interim := GRID in
                 cube_to_grid <- transform self (Some axes) (Some interim) None vectors ;;
                 grid_to_world <- transform self (Some interim) (Some to_axes) None vectors ;;
                 if vectors then Ok (Some (mm grid_to_world cube_to_grid))
                 else m <- hmm (Matrix grid_to_world) (Matrix cube_to_grid) ;; Ok (Some m)
             | WORLD, CUBE | WORLD, CUBE_CORNERS =>
                 let interim := GRID in
                 world_to_grid <- transform self (Some axes) (Some interim) None vectors ;;
                 grid_to_cube <- transform self (Some interim) (Some to_axes) None vectors ;;
                 if vectors then Ok (Some (mm grid_to_cube world_to_grid))
                 else m <- hmm (Matrix grid_to_cube) (Matrix world_to_grid) ;; Ok (Some m)
             | WORLD, GRID =>
                 let matrix := inverse_affine self in
                 if negb vectors
                 then m <- hmm (Matrix matrix) (Vector (vneg (origin self))) ;; Ok (Some m)
                 else Ok (Some matrix)
             | _, _ => Ok None
             end
         else
           match to_grid with
           | None => Ok None
           | Some to_grid =>
               if negb (Nat.eqb (ndim to_grid) (ndim self)) then Raise ValueError
               else
                 target_to_world <- transform self (Some axes) (Some WORLD) None vectors ;;
                 world_to_source <-
                   transform to_grid (Some WORLD) (Some to_axes) None vectors ;;
                 if vectors then Ok (Some (mm world_to_source target_to_world))
                 else m <- hmm (Matrix world_to_source) (Matrix target_to_world) ;;
                      Ok (Some m)
           end) ;;
      match matrix with
      | None => Raise NotImplementedError
      | Some m => Ok m
      end
  end.

(** The method calls itself; the recursion is unfolded [depth] times, and a
    deeper call would be Python's [RecursionError]. *)
Fixpoint transform_rec (depth : nat) (self : Grid) (axes to_axes : option Axes)
    (to_grid : option Grid) (vectors : bool) : result mat :=
  match depth with
  | O => Raise RuntimeError
  | S depth' => transform_body (transform_rec depth') self axes to_axes to_grid vectors
  end.

(** [Grid.transform(axes, to_axes, to_grid, vectors)].  No call chain of
    the method is longer than three (see [transform_depth]). *)
Definition transform : Grid -> option Axes -> option Axes -> option Grid -> bool
    -> result mat :=
  transform_rec 3.

(** [Grid.inverse_transform] *)
Definition inverse_transform (self : Grid) (vectors : bool) : result mat :=
  let cube_axes := if _align_corners self then CUBE_CORNERS else CUBE in
  transform self (Some WORLD) (Some cube_axes) None vectors.

(** [Grid.apply_transform].  [decimals] is [Some (-1)] by default and [None]
    to suppress rounding. *)
Definition apply_transform (self : Grid) (input : vec) (axes : Axes)
    (to_axes : option Axes) (to_grid : option Grid) (vectors : bool)
    (decimals : option Z) : result vec :=
  let to_axes := match to_axes with None => axes | Some a => a end in
  res <-
    (if match to_grid with None => false | Some g => negb (grid_eq g self) end
        || negb (Axes_eqb axes to_axes)
     then
       matrix <- transform self (Some axes) (Some to_axes) to_grid vectors ;;
       homogeneous_transform matrix input false
     else Ok input) ;;
  let decimals :=
    match decimals with
    | Some (-1)%Z =>
        match to_axes with
        | CUBE | CUBE_CORNERS => Some 12%Z
        | GRID => Some 6%Z
        | WORLD => decimals
        end
    | _ => decimals
    end in
  match decimals with
  | Some d => if (0 <=? d)%Z then Ok (round_decimals res d) else Ok res
  | None => Ok res
  end.

(** [Grid.transform_points] *)
Definition transform_points (self : Grid) (points : vec) (axes : Axes)
    (to_axes : option Axes) (to_grid : option Grid) (decimals : option Z) : result vec :=
  apply_transform self points axes to_axes to_grid false decimals.

(** [Grid.index_to_cube] *)
Definition index_to_cube (self : Grid) (indices : vec) (decimals : option Z)
    (align_corners' : option bool) : result vec :=
  let align_corners' :=
    match align_corners' with None => _align_corners self | Some b => b end in
  let to_axes := from_align_corners align_corners' in
  transform_points self indices GRID (Some to_axes) None decimals.

(** [Grid.cube_to_index] *)
Definition cube_to_index (self : Grid) (coords : vec) (decimals : option Z)
    (align_corners' : option bool) : result vec :=
  let align_corners' :=
    match align_corners' with None => _align_corners self | Some b => b end in
  let axes := from_align_corners align_corners' in
  transform_points self coords axes (Some GRID) None decimals.

(** [Grid.index_to_world] *)
Definition index_to_world (self : Grid) (indices : vec) (decimals : option Z)
    : result vec :=
  transform_points self indices GRID (Some WORLD) None decimals.

(** [Grid.world_to_index] *)
Definition world_to_index (self : Grid) (points : vec) (decimals : option Z)
    : result vec :=
  transform_points self points WORLD (Some GRID) None decimals.

(** ** The size-changing operations *)

(** [Grid._resize(size, align_corners)] *)
Definition _resize (self : Grid) (size' : vec) (align_corners' : option bool)
    : result Grid :=
  let align_corners' :=
    match align_corners' with None => _align_corners self | Some b => b end in
  if all (map2 seqb size' (_size self)) then Ok self
  else
    let size_r := _round_size size' in
    if align_corners' then
      let spacing' :=
        vdiv (vsub (extent self) (spacing self)) (map (fun n => ssub n (Fin 1)) size_r) in
      let grid :=
        mkGrid size' (_center self)
          (vwhere (map (fun n => sgtb n (Fin 0)) (_size self)) spacing' (_spacing self))
          (_direction self) (_align_corners self) in
      assert (allclose (origin grid) (origin self)) (Ok grid)
    else
      let spacing' := vdiv (extent self) size_r in
      let grid :=
        mkGrid size' (_center self)
          (vwhere (map (fun n => sgtb n (Fin 0)) (_size self)) spacing' (_spacing self))
          (_direction self) (_align_corners self) in
      assert (allclose (extent grid) (extent self)) (Ok grid).

(** [Grid.resize(size, align_corners)] *)
Definition resize (self : Grid) (size' : array) (align_corners' : option bool)
    : result Grid :=
  v <- cat_scalars size' (ndim self) ;;
  raise_if (negb (is_int_dtype size')) TypeError
    (raise_if (any (map (fun n => sltb n (Fin 0)) v)) ValueError
       (_resize self v align_corners')).

(** [Grid.reshape(shape, align_corners)] *)
Definition reshape_grid (self : Grid) (shape' : array) (align_corners' : option bool)
    : result Grid :=
  v <- cat_scalars shape' (ndim self) ;;
  raise_if (negb (is_int_dtype shape')) TypeError
    (raise_if (any (map (fun n => sltb n (Fin 0)) v)) ValueError
       (_resize self (flip v) align_corners')).

(** [2**levels] for a Python integer [levels]: an integer when [levels] is
    not negative and the float [1 / 2**(-levels)] otherwise. *)
Definition pow2 (levels : Z) : Qc :=
  if (0 <=? levels)%Z then Qz (2 ^ levels) else (1 / Qz (2 ^ (- levels)))%Qc.

(** In-place assignment [v[i] = f(v[i])]; an index out of range raises. *)
Fixpoint update_at {A : Type} (i : nat) (f : A -> A) (v : list A) : result (list A) :=
  match i, v with
  | _, [] => Raise IndexError
  | O, x :: v' => Ok (f x :: v')
  | S i', x :: v' => v'' <- update_at i' f v' ;; Ok (x :: v'')
  end.

(** [for dim in dims: v[dim] = f(v[dim])] *)
Fixpoint update_dims {A : Type} (dims : list nat) (f : A -> A) (v : list A)
    : result (list A) :=
  match dims with
  | [] => Ok v
  | dim :: dims' => v' <- update_at dim f v ;; update_dims dims' f v'
  end.

(** [dims] as the methods normalise it: all spatial dimensions when the
    argument is [None] or empty. *)
Definition dims_or_all (self : Grid) (dims : option (list nat)) : list nat :=
  match dims with
  | None | Some [] => seq 0 (ndim self)
  | Some l => l
  end.

(** [Grid.downsample(levels, dims, min_size, align_corners)] *)
Definition downsample (self : Grid) (levels : Z) (dims : option (list nat))
    (min_size : Z) (align_corners' : option bool) : result Grid :=
  let dims := dims_or_all self dims in
  let scale := pow2 levels in
  size' <- update_dims dims (fun n => sdiv n (Fin scale)) (_size self) ;;
  let size' := vwhere (map (fun n => sgeb n (Fz min_size)) size') size' (_size self) in
  _resize self size' align_corners'.

(** [Grid.upsample(levels, dims, align_corners)] *)
Definition upsample (self : Grid) (levels : Z) (dims : option (list nat))
    (align_corners' : option bool) : result Grid :=
  let dims := dims_or_all self dims in
  let scale := pow2 levels in
  size' <- update_dims dims (fun n => smul n (Fin scale)) (_size self) ;;
  _resize self size' align_corners'.

(** *** [Grid.pyramid]

    [sizes] is the dictionary [level -> list of sizes] of the source, kept as
    the list of its values for the keys [0 .. levels]. *)

(** [sizes[level][dim]] *)
Definition sizes_get (sizes : list (list Z)) (level dim : nat) : result Z :=
  match nth_error sizes level with
  | None => Raise KeyError
  | Some l => match nth_error l dim with
              | None => Raise IndexError
              | Some n => Ok n
              end
  end.

(** [sizes[level][dim] = v] *)
Fixpoint sizes_set (sizes : list (list Z)) (level dim : nat) (v : Z)
    : result (list (list Z)) :=
  match level, sizes with
  | _, [] => Raise KeyError
  | O, l :: rest => l' <- update_at dim (fun _ => v) l ;; Ok (l' :: rest)
  | S level', l :: rest => rest' <- sizes_set rest level' dim v ;; Ok (l :: rest')
  end.

(** [for x in xs: state = step(x, state)] with a step that may raise. *)
Fixpoint for_each {A S : Type} (xs : list A) (step : A -> S -> result S) (s : S)
    : result S :=
  match xs with
  | [] => Ok s
  | x :: xs' => s' <- step x s ;; for_each xs' step s'
  end.

(** [int(0.5 + n / 2**levels)] on Python numbers. *)
Definition round_half_up_div (n : Z) (levels : Z) : Z :=
  Qtrunc (Qfrac 1 2 + Qz n / pow2 levels)%Qc.

(** The body of the loop [for dim in dims] of [pyramid]. *)
Definition pyramid_dim (levels : nat) (m min_size : Z) (dim : nat)
    (sizes : list (list Z)) : result (list (list Z)) :=
  n <- sizes_get sizes levels dim ;;
  sizes <- sizes_set sizes levels dim (round_half_up_div (n + m) (Z.of_nat levels)) ;;
  sizes <-
    for_each (rev (seq 0 levels))
      (fun level sizes =>
         s <- sizes_get sizes (S level) dim ;;
         sizes_set sizes level dim (2 * s - 1)%Z)
      sizes ;;
  for_each (seq 1 levels)
    (fun level sizes =>
       s <- sizes_get sizes (level - 1) dim ;;
       sizes <- sizes_set sizes level dim ((s + 1) / 2)%Z ;;
       s' <- sizes_get sizes level dim ;;
       if (s' <? min_size)%Z then sizes_set sizes level dim s else Ok sizes)
    sizes.

(** [{level: self.resize(size) for level, size in sizes.items()}]: the
    dictionary in insertion order. *)
Fixpoint resize_levels (self : Grid) (level : Z) (sizes : list (list Z))
    : result (list (Z * Grid)) :=
  match sizes with
  | [] => Ok []
  | size' :: rest =>
      g <- resize self (IntVector size') None ;;
      d <- resize_levels self (level + 1)%Z rest ;;
      Ok ((level, g) :: d)
  end.

(** [Grid.pyramid(levels, dims, min_size)].  A negative [levels] leaves
    [sizes] empty and the first access [sizes[levels]] raises [KeyError]. *)
Definition pyramid (self : Grid) (levels : Z) (dims : option (list nat)) (min_size : Z)
    : result (list (Z * Grid)) :=
  let dims := dims_or_all self dims in
  if (levels <? 0)%Z then
    match dims with [] => Ok [] | _ => Raise KeyError end
  else
    let L := Z.to_nat levels in
    let m := if _align_corners self then (2 ^ levels - 1)%Z else 0%Z in
    n <- size self ;;
    let sizes := repeat n (S L) in
    sizes <- for_each dims (pyramid_dim L m min_size) sizes ;;
    resize_levels self 0 sizes.

(** Lookup in a dictionary kept in insertion order. *)
Fixpoint dict_get {V : Type} (d : list (Z * V)) (k : Z) : option V :=
  match d with
  | [] => None
  | (k', v) :: d' => if (k' =? k)%Z then Some v else dict_get d' k
  end.

Definition dict_keys {V : Type} (d : list (Z * V)) : list Z := map fst d.

(** *** [crop], [pad] and the other operations that build a new [Grid] *)

(** A margin argument: a Python [int] or a sequence of them. *)
Inductive margin_arg : Type :=
| MInt (n : Z)
| MSeq (l : list Z).

(** The positional arguments [*args] as one tuple of integers. *)
Fixpoint args_tuple (args : list margin_arg) : result (list Z) :=
  match args with
  | [] => Ok []
  | MInt n :: rest => l <- args_tuple rest ;; Ok (n :: l)
  | MSeq _ :: _ => Raise TypeError
  end.

(** [num_[::2]] and [num_[1::2]] *)
Fixpoint evens {A : Type} (l : list A) : list A :=
  match l with
  | [] => []
  | [x] => [x]
  | x :: _ :: l' => x :: evens l'
  end.

Fixpoint odds {A : Type} (l : list A) : list A :=
  match l with
  | [] => []
  | [_] => []
  | _ :: y :: l' => y :: odds l'
  end.

(** The common head of [crop] and [pad]: from [args], [margin] and [num] to
    the tuple [num] of per-border counts, before its padding with zeros. *)
Definition border_counts (self : Grid) (args : list margin_arg)
    (margin num : option margin_arg) : result (list Z) :=
  let given (b : bool) := if b then 1%nat else 0%nat in
  if negb (Nat.eqb (given (negb (Nat.eqb (length args) 0))
                    + given (match num with None => false | Some _ => true end)
                    + given (match margin with None => false | Some _ => true end)) 1)
  then Raise AssertionError
  else
    margin <-
      match args with
      | [] => Ok margin
      | [MSeq l] => Ok (Some (MSeq l))
      | _ => l <- args_tuple args ;; Ok (Some (MSeq l))
      end ;;
    let num :=
      match margin with
      | Some (MInt n) => Some (MInt n)
      | Some (MSeq l) => Some (MSeq (flat_map (fun n => [n; n]) l))
      | None => num
      end in
    num <-
      match num with
      | Some (MInt n) => Ok (repeat n (2 * ndim self))
      | Some (MSeq l) => Ok l
      | None => Raise TypeError
      end ;;
    raise_if (negb (Nat.eqb (Nat.modulo (length num) 2) 0)) ValueError (Ok num).

(** [Grid.crop] with its positional arguments, [margin] and [num] *)
Definition crop (self : Grid) (args : list margin_arg) (margin num : option margin_arg)
    : result Grid :=
  num <- border_counts self args margin num ;;
  if forallb (fun n => (n =? 0)%Z) num then Ok self
  else
    let num := num ++ repeat 0%Z (2 * ndim self - length num) in
    raise_if (negb (Nat.eqb (length num) (2 * ndim self))) RuntimeError
      (let num_ := map Fz num in
       let size' :=
         map (sclamp_min (Fin 1)) (vsub (vsub (_size self) (evens num_)) (odds num_)) in
       let size' := vwhere (map (fun n => sgtb n (Fin 0)) (_size self)) size' (_size self) in
       origin' <- index_to_world self (evens num_) (Some (-1)%Z) ;;
       Grid_init (Some (Vector size')) None None (Some (Vector origin'))
         (Some (Vector (spacing self))) (Some (Matrix (direction self))) PyBoundMethod).

(** [Grid.pad] with its positional arguments, [margin] and [num] *)
Definition pad (self : Grid) (args : list margin_arg) (margin num : option margin_arg)
    : result Grid :=
  num <- border_counts self args margin num ;;
  if forallb (fun n => (n =? 0)%Z) num then Ok self
  else
    let num := num ++ repeat 0%Z (2 * ndim self - length num) in
    raise_if (negb (Nat.eqb (length num) (2 * ndim self))) RuntimeError
      (let num_ := map Fz num in
       let size' :=
         map (sclamp_min (Fin 1)) (vadd (vadd (_size self) (evens num_)) (odds num_)) in
       let size' := vwhere (map (fun n => sgtb n (Fin 0)) (_size self)) size' (_size self) in
       origin' <- index_to_world self (vneg (evens num_)) (Some (-1)%Z) ;;
       Grid_init (Some (Vector size')) None None (Some (Vector origin'))
         (Some (Vector (spacing self))) (Some (Matrix (direction self))) PyBoundMethod).

(** [cat_scalars(size, num=self.ndim)] followed by the integer test and
    [tolist()], as [center_crop] and [center_pad] start. *)
Definition int_sizes (self : Grid) (size' : array) : result (list Z) :=
  v <- cat_scalars size' (ndim self) ;;
  raise_if (negb (is_int_dtype size')) TypeError (to_ints v).

(** [Grid.center_crop(size)] *)
Definition center_crop (self : Grid) (size' : array) : result Grid :=
  req <- int_sizes self size' ;;
  cur <- size self ;;
  let size' := map2 Z.min cur req in
  let origin' := map2 (fun m n => ((m - n) / 2)%Z) cur size' in
  origin' <- index_to_world self (map Fz origin') (Some (-1)%Z) ;;
  Grid_init (Some (IntVector size')) None None (Some (Vector origin'))
    (Some (Vector (spacing self))) (Some (Matrix (direction self))) PyBoundMethod.

(** [Grid.center_pad(size)] *)
Definition center_pad (self : Grid) (size' : array) : result Grid :=
  req <- int_sizes self size' ;;
  cur <- size self ;;
  let size' := map2 Z.max cur req in
  let origin' := map2 (fun m n => (- ((n - m) / 2))%Z) cur size' in
  origin' <- index_to_world self (map Fz origin') (Some (-1)%Z) ;;
  Grid_init (Some (IntVector size')) None None (Some (Vector origin'))
    (Some (Vector (spacing self))) (Some (Matrix (direction self))) PyBoundMethod.

(** [Grid.narrow(dim, start, length)].  The bound test of the source lets
    [dim == ndim] through. *)
Definition narrow (self : Grid) (dim start length' : Z) : result Grid :=
  raise_if ((dim <? 0)%Z || (Z.of_nat (ndim self) <? dim)%Z) IndexError
    (cur <- size self ;;
     let ds := map Z.of_nat (seq 0 (ndim self)) in
     let size' := map2 (fun d n => if (d =? dim)%Z then length' else n) ds cur in
     let origin' := map (fun d => if (d =? dim)%Z then start else 0%Z) ds in
     origin' <- index_to_world self (map Fz origin') (Some (-1)%Z) ;;
     Grid_init (Some (IntVector size')) None None (Some (Vector origin'))
       (Some (Vector (spacing self))) (Some (Matrix (direction self))) PyBoundMethod).

(** [Grid.pool(kernel_size, stride, padding, dilation, ceil_mode)].  The
    conversion [size.type(torch.int)] is taken as truncation and raises on a
    value that is not finite. *)
Definition pool (self : Grid) (kernel_size : Z) (stride : option Z)
    (padding dilation : Z) (ceil_mode : bool) : result Grid :=
  raise_if (match stride with None => false | Some _ => true end) NotImplementedError
    (raise_if (negb (padding =? 0)%Z) NotImplementedError
       (raise_if (negb (dilation =? 1)%Z) NotImplementedError
          (let size' := map (fun n => sdiv n (Fz kernel_size)) (size_tensor self) in
           let size' := if ceil_mode then map sceil size' else map sfloor size' in
           size' <- to_ints size' ;;
           origin' <- index_to_world self
                        (repeat (sdiv (Fz (kernel_size - 1)) (Fz 2)) 3) (Some (-1)%Z) ;;
           Grid_init (Some (IntVector size')) None None (Some (Vector origin'))
             (Some (Vector (map (fun s => smul (Fz kernel_size) s) (spacing self))))
             (Some (Matrix (direction self))) PyBoundMethod))).

(** [Grid.avg_pool] *)
Definition avg_pool (self : Grid) (kernel_size : Z) (stride : option Z) (padding : Z)
    (ceil_mode : bool) : result Grid :=
  pool self kernel_size stride padding 1 ceil_mode.

(** ** Well-formed grids

    What the constructor establishes ([grid_shape_ok], non-negative sizes,
    the two run-time checks on spacing and direction) and the assumption of
    the exact numeric model that every attribute is a finite number. *)

Definition all_finite (v : vec) : bool := forallb is_finite v.

Definition grid_shape_ok (g : Grid) : bool :=
  negb (Nat.eqb (ndim g) 0)
  && Nat.eqb (length (_center g)) (ndim g)
  && Nat.eqb (length (_spacing g)) (ndim g)
  && Nat.eqb (length (_direction g)) (ndim g)
  && rows_have (ndim g) (_direction g).

Definition grid_finite (g : Grid) : bool :=
  all_finite (_size g) && all_finite (_center g) && all_finite (_spacing g)
  && forallb all_finite (_direction g).

(** The test of [direction_], as a predicate on the matrix. *)
Definition direction_check (m : mat) : bool :=
  negb (sgtb (sabs (ssub (sabs (det m)) (Fin 1))) det_tol).

Definition valid_grid (g : Grid) : bool :=
  grid_shape_ok g && grid_finite g
  && forallb (fun n => sleb (Fin 0) n) (_size g)
  && forallb (fun s => sgtb s (Fin 0)) (_spacing g)
  && direction_check (_direction g).

(** Exact comparison of tensors and grids, attribute by attribute (used to
    state results of concrete runs; [grid_eq] is the comparison [==] of the
    source). *)
Definition scalar_eqb (a b : scalar) : bool :=
  match a, b with
  | Fin x, Fin y => Qc_eqb x y
  | PInf, PInf | NInf, NInf | NaN, NaN => true
  | _, _ => false
  end.

Fixpoint list_eqb {A : Type} (eqb : A -> A -> bool) (l l' : list A) : bool :=
  match l, l' with
  | [], [] => true
  | x :: t, y :: t' => eqb x y && list_eqb eqb t t'
  | _, _ => false
  end.

Definition vec_eqb : vec -> vec -> bool := list_eqb scalar_eqb.
Definition mat_eqb : mat -> mat -> bool := list_eqb vec_eqb.

Definition same_attributes (g h : Grid) : bool :=
  vec_eqb (_size g) (_size h) && vec_eqb (_center g) (_center h)
  && vec_eqb (_spacing g) (_spacing h) && mat_eqb (_direction g) (_direction h).

(** A plain grid of the given integer sizes: unit spacing, centre at zero,
    identity direction. *)
Definition plain_grid (sizes : list Z) (align_corners' : bool) : Grid :=
  mkGrid (map Fz sizes) (repeat (Fin 0) (length sizes)) (repeat (Fin 1) (length sizes))
    (eye (length sizes)) align_corners'.

(** ** Finite tensors

    A tensor all of whose entries are finite is the image under [Fin] of a
    list of rationals; on such tensors the operations of the backend are the
    exact operations on the rationals. *)

Definition lift (m : list (list Qc)) : mat := map (map Fin) m.

(** The rational behind a finite scalar. *)
Definition fin_val (s : scalar) : Qc := match s with Fin q => q | _ => 0%Qc end.

Fixpoint qdot (a b : list Qc) : Qc :=
  match a, b with
  | x :: a', y :: b' => (x * y + qdot a' b')%Qc
  | _, _ => 0%Qc
  end.

Definition qmatvec (m : list (list Qc)) (v : list Qc) : list Qc :=
  map (fun row => qdot row v) m.

(** The matrix [d * diag(s)]: column [j] of [d] scaled by [s[j]]. *)
Definition qscale_cols (d : list (list Qc)) (s : list Qc) : list (list Qc) :=
  map (fun row => map2 Qcmult row s) d.

(** ** Inputs of the concrete runs *)

(** [Grid(size=(4, 4), spacing=(1, 1), center=(0, 0), align_corners=...)] *)
Definition grid_4x4 (align_corners' : bool) : result Grid :=
  Grid_init (Some (IntVector [4; 4]%Z)) None (Some (IntVector [0; 0]%Z)) None
    (Some (IntVector [1; 1]%Z)) None (PyBool align_corners').

(** [g.method(...)] on the grid a constructor call returned. *)
Definition on_grid {A : Type} (r : result Grid) (method : Grid -> A) : result A :=
  g <- r ;; Ok (method g).

(** ** Rotation matrices *)

(** [m] is orthonormal: its rows are unit vectors orthogonal to each other
    (entries finite, the products exact). *)
Definition orthonormal (m : mat) : Prop :=
  forallb all_finite m = true /\ mm m (transpose m) = eye (length m).




(** ** The finest level of a pyramid *)

(** The size along one axis that [pyramid] gives level 0: the coarsest size
    [int(0.5 + (n + m) / 2**levels)] doubled-minus-one [levels] times. *)
Definition pyramid_level0_size (levels m n : Z) : Z :=
  (2 ^ levels * (round_half_up_div (n + m) levels - 1) + 1)%Z.

(** The offset [m] of [pyramid]. *)
Definition pyramid_offset (g : Grid) (levels : Z) : Z :=
  if _align_corners g then (2 ^ levels - 1)%Z else 0%Z.

(** ** Exact counterparts of the derived quantities *)

(** The list [f 0, ..., f (n-1)]. *)
Definition tab {A : Type} (f : nat -> A) (n : nat) : list A := map f (seq 0 n).

(** [_round_size] on a finite size. *)
Definition qceil (q : Qc) : Qc := Qz (Qceiling q).

(** [center_offset] along one axis of rounded size [n]. *)
Definition qoff (n : Qc) : Qc := ((if Qc_ltb 0 n then n - 1 else n) / Qz 2)%Qc.

(** [origin()] of the grid with finite attributes [size], [c], [s], [d]. *)
Definition qorigin (size c s : list Qc) (d : list (list Qc)) : list Qc :=
  map2 Qcminus c (qmatvec d (map2 Qcmult s (map qoff (map qceil size)))).

(** [extent()] of the grid with finite attributes. *)
Definition qextent (size s : list Qc) : list Qc := map2 Qcmult s (map qceil size).

(** The grid with the given finite attributes. *)
Definition finite_grid (size c s : list Qc) (d : list (list Qc)) (flag : bool) : Grid :=
  mkGrid (map Fin size) (map Fin c) (map Fin s) (lift d) flag.

(** ** Resizing along one axis *)

(** The spacing [_resize] computes along an axis of stored size [size] and
    spacing [s] for the new size [size']. *)
Definition qrespace (aligned : bool) (size s size' : Qc) : Qc :=
  if Qc_ltb 0 size
  then (if aligned then (s * qceil size - s) / (qceil size' - 1)
        else s * qceil size / qceil size')%Qc
  else s.

(** The new size [size'] of an axis of stored size [size] keeps the check of
    [_resize] satisfied: an empty axis stays empty, and a non-empty axis gets
    at least two points (one, when the extent is preserved). *)
Definition axis_ok (aligned : bool) (size size' : Qc) : Prop :=
  (size = 0%Qc /\ size' = 0%Qc)
  \/ ((0 < size)%Qc
      /\ if aligned then (Qz 2 <= qceil size')%Qc else (1 <= qceil size')%Qc).

(** ** Halving and doubling *)

(** The size [n] of an axis can be halved and doubled again: the axis is
    empty, or it has at least two points, and more than two when corners are
    aligned (so that the halved axis keeps two points). *)
Definition halvable (aligned : bool) (n : scalar) : bool :=
  seqb n (Fin 0) || (if aligned then sltb (Fz 2) n else sleb (Fz 2) n).

(** ** Cropping and padding *)

(** [torch.clamp(q, min=m)] on a finite value. *)
Definition qclamp_min (m q : Qc) : Qc := if Qc_ltb q m then m else q.

(** The size [crop], respectively [pad], gives an axis of stored size [size]
    for the border counts [lo] and [hi]. *)
Definition qcropped (size lo hi : Qc) : Qc :=
  if Qc_ltb 0 size then qclamp_min 1 (size - lo - hi)%Qc else size.

Definition qpadded (size lo hi : Qc) : Qc :=
  if Qc_ltb 0 size then qclamp_min 1 (size + lo + hi)%Qc else size.

(** The centre of the grid of size [size'] whose origin is the point of
    index [p] of the grid with attributes [size], [c], [s], [d]. *)
Definition qrecenter (size c s : list Qc) (d : list (list Qc)) (p size' : list Qc)
    : list Qc :=
  map2 Qcplus
    (map2 Qcplus (qmatvec (qscale_cols d s) p) (qorigin size c s d))
    (qmatvec (qscale_cols d s) (map qoff (map qceil size'))).

(** The tuple [num] of [crop] and [pad] once filled with zeros up to two
    counts per axis, and its entries [num[2 * i]] and [num[2 * i + 1]]. *)
Definition full_counts (n : nat) (cnt : list Z) : list Z :=
  cnt ++ repeat 0%Z (2 * n - length cnt).

Definition border_lo (num : list Z) (i : nat) : Qc := Qz (nth (2 * i) num 0%Z).
Definition border_hi (num : list Z) (i : nat) : Qc := Qz (nth (2 * i + 1) num 0%Z).

(** Every stored size is 0 or at least 1: the floor of 1 that [crop] and
    [pad] impose on the size of a non-empty axis changes no size of [g]. *)
Definition whole_sizes (g : Grid) : bool :=
  forallb (fun n => seqb n (Fin 0) || sleb (Fin 1) n) (_size g).

(** [crop] with the border counts [cnt] does not trigger the floor of 1: on
    every non-empty axis the size less the two counts is at least 1. *)
Definition crop_unclamped (g : Grid) (cnt : list Z) : bool :=
  let num_ := map Fz (full_counts (ndim g) cnt) in
  all (map2 (fun n n' => negb (sgtb n (Fin 0)) || sleb (Fin 1) n') (_size g)
         (vsub (vsub (_size g) (evens num_)) (odds num_))).

(** The size [n] of an axis can be doubled and halved again: the axis is
    empty, or it has at least one point, and more than one when corners are
    aligned. *)
Definition doublable (aligned : bool) (n : scalar) : bool :=
  seqb n (Fin 0) || (if aligned then sltb (Fin 1) n else sleb (Fin 1) n).

(** ** [Grid.resample]

    The argument is the string "min" or "max", or an [Array]. *)

Inductive spacing_arg : Type :=
| SpacingMin
| SpacingMax
| SpacingArray (a : array).

(** [torch.min] and [torch.max] of two values; a [nan] wins. *)
Definition smin (a b : scalar) : scalar :=
  match a, b with
  | NaN, _ | _, NaN => NaN
  | _, _ => if sleb a b then a else b
  end.

Definition smax (a b : scalar) : scalar :=
  match a, b with
  | NaN, _ | _, NaN => NaN
  | _, _ => if sleb a b then b else a
  end.

(** [v.min()] and [v.max()]; they raise on an empty tensor. *)
Definition vmin (v : vec) : result scalar :=
  match v with
  | [] => Raise RuntimeError
  | x :: v' => Ok (fold_left smin v' x)
  end.

Definition vmax (v : vec) : result scalar :=
  match v with
  | [] => Raise RuntimeError
  | x :: v' => Ok (fold_left smax v' x)
  end.

(** [Grid.resample(spacing, min_size)] *)
Definition resample (self : Grid) (spacing' : spacing_arg) (min_size : Z) : result Grid :=
  arg <-
    match spacing' with
    | SpacingMin => x <- vmin (_spacing self) ;; Ok (Scalar x)
    | SpacingMax => x <- vmax (_spacing self) ;; Ok (Scalar x)
    | SpacingArray a => Ok a
    end ;;
  spacing' <- cat_scalars arg (ndim self) ;;
  if allclose spacing' (_spacing self) then Ok self
  else
    raise_if (any (map (fun s => sleb s (Fin 0)) spacing')) ValueError
      (let size' := vdiv (extent self) spacing' in
       let size' :=
         vwhere (map (fun n => sgtb n (Fin 0)) (_size self))
           (map (sclamp_min (Fz min_size)) size') size' in
       Ok (mkGrid size' (_center self) spacing' (_direction self) (_align_corners self))).

(** ** [Grid.region_of_interest] *)

(** [Grid.region_of_interest(start, size)]: the border counts
    [start[i], grid_size[i] - (start[i] + size[i])] of every axis, handed to
    [crop] as [num]. *)
Definition region_of_interest (self : Grid) (start size' : array) : result Grid :=
  start <- int_sizes self start ;;
  size' <- int_sizes self size' ;;
  grid_size <- size self ;;
  let num :=
    flat_map (fun i => [nth i start 0%Z;
                        (nth i grid_size 0 - (nth i start 0 + nth i size' 0))%Z])
             (seq 0 (ndim self)) in
  crop self [] None (Some (MSeq num)).

(** ** Shapes of transformation matrices *)

(** [m] has [r] rows of [c] entries each. *)
Definition has_shape (r c : nat) (m : mat) : bool :=
  Nat.eqb (length m) r && rows_have c m.

(** The two pairs of axes between which [transform] rescales without a
    translation. *)
Definition cube_pair (a b : Axes) : bool :=
  match a, b with
  | CUBE, CUBE_CORNERS | CUBE_CORNERS, CUBE => true
  | _, _ => false
  end.

(** ** [Grid.transform_vectors]

    Applied to one vector of [D] entries: the elementwise product
    [vectors * scales] is [vmul], and [F.linear(vectors, affine)] is the
    product of the matrix [affine] with the vector.  The in-place updates
    [num -= 1] and [scales *= grid_to_cube] act on the tensor that
    [size_tensor] has just built with [torch.where], so no attribute of the
    grid changes.  The two [NotImplementedError] branches are for values
    outside the four of [Axes] and cannot be reached. *)

Definition transform_vectors (self : Grid) (vectors : vec) (axes : Axes)
    (to_axes : option Axes) (to_grid : option Grid) : result vec :=
  let to_axes := match to_axes with None => axes | Some a => a end in
  if Axes_eqb axes WORLD && Axes_eqb to_axes WORLD then Ok vectors
  else if match to_grid with None => true | Some tg => grid_eq tg self end then
    if negb (Axes_eqb axes to_axes) then
      let affine0 :=
        match axes with
        | WORLD => Some (inverse_affine self)
        | _ => None
        end in
      let scales0 :=
        match axes with
        | CUBE => Some (map (fun n => sdiv n (Fin (Qz 2))) (size_tensor self))
        | CUBE_CORNERS =>
            Some (map (fun n => sdiv (ssub n (Fin 1)) (Fin (Qz 2))) (size_tensor self))
        | _ => None
        end in
      r <-
        match to_axes with
        | WORLD =>
            let grid_to_world := affine self in
            match scales0 with
            | None => assert (match affine0 with None => true | Some _ => false end)
                        (Ok (Some grid_to_world, scales0))
            | Some s => Ok (Some (mm grid_to_world (diag s)), scales0)
            end
        | CUBE | CUBE_CORNERS =>
            let num := size_tensor self in
            let num :=
              match to_axes with
              | CUBE_CORNERS => map (fun n => ssub n (Fin 1)) num
              | _ => num
              end in
            let grid_to_cube := map (fun n => sdiv (Fin (Qz 2)) n) num in
            match affine0 with
            | None =>
                match scales0 with
                | None => Ok (None, Some grid_to_cube)
                | Some s => Ok (None, Some (vmul s grid_to_cube))
                end
            | Some a => Ok (Some (mm (diag grid_to_cube) a), scales0)
            end
        | GRID => Ok (affine0, scales0)
        end ;;
      match r with
      | (None, None) => Raise AssertionError
      | (None, Some s) => Ok (vmul vectors s)
      | (Some a, _) => Ok (matvec a vectors)
      end
    else Ok vectors
  else
    matrix <- transform self (Some axes) (Some to_axes) to_grid true ;;
    homogeneous_transform matrix vectors true.

(** ** Composition of transformation matrices *)

(** * Properties *)

(** ** Arithmetic of scalars *)

Lemma Qc_eqb_eq (a b : Qc) : Qc_eqb a b = true <-> a = b.
Proof.
  unfold Qc_eqb. rewrite Qeq_bool_iff. split.
  - apply Qc_is_canon.
  - intros ->. reflexivity.
Qed.

Lemma Qc_eqb_refl (a : Qc) : Qc_eqb a a = true.
Proof. apply Qc_eqb_eq. reflexivity. Qed.

Lemma Qc_eqb_neq (a b : Qc) : Qc_eqb a b = false <-> a <> b.
Proof.
  split.
  - intros H E. apply Qc_eqb_eq in E. congruence.
  - intros H. destruct (Qc_eqb a b) eqn:E; [apply Qc_eqb_eq in E; contradiction | reflexivity].
Qed.

Lemma Qc_leb_le (a b : Qc) : Qc_leb a b = true <-> (a <= b)%Qc.
Proof. unfold Qc_leb, Qcle. apply Qle_bool_iff. Qed.

Lemma Qc_ltb_lt (a b : Qc) : Qc_ltb a b = true <-> (a < b)%Qc.
Proof.
  unfold Qc_ltb, Qclt. rewrite negb_true_iff. split.
  - intros H. apply Qnot_le_lt. intros L. apply Qle_bool_iff in L. congruence.
  - intros H. destruct (Qle_bool b a) eqn:E; [| reflexivity].
    apply Qle_bool_iff in E. exfalso. apply (Qlt_not_le _ _ H E).
Qed.

Lemma Qc_ltb_ge (a b : Qc) : Qc_ltb a b = false <-> (b <= a)%Qc.
Proof.
  unfold Qc_ltb, Qcle. rewrite negb_false_iff. apply Qle_bool_iff.
Qed.

Lemma Qccompare_refl (a : Qc) : Qccompare a a = Eq.
Proof. apply Qceq_alt. reflexivity. Qed.

Lemma seqb_refl (q : Qc) : seqb (Fin q) (Fin q) = true.
Proof. unfold seqb. simpl. rewrite Qccompare_refl. reflexivity. Qed.

Lemma seqb_Fin (a b : Qc) : seqb (Fin a) (Fin b) = true <-> a = b.
Proof.
  unfold seqb. simpl. split.
  - destruct (Qccompare a b) eqn:E; try discriminate. intros _. now apply Qceq_alt.
  - intros ->. now rewrite Qccompare_refl.
Qed.

Lemma sltb_Fin (a b : Qc) : sltb (Fin a) (Fin b) = true <-> (a < b)%Qc.
Proof.
  unfold sltb. simpl. rewrite Qclt_alt.
  destruct (Qccompare a b); split; congruence.
Qed.

Lemma sleb_Fin (a b : Qc) : sleb (Fin a) (Fin b) = true <-> (a <= b)%Qc.
Proof.
  unfold sleb. simpl. rewrite Qcle_alt.
  destruct (Qccompare a b); split; congruence.
Qed.

Lemma isclose_refl (rtol atol : scalar) (q : Qc) : isclose rtol atol (Fin q) (Fin q) = true.
Proof. unfold isclose. rewrite seqb_refl. reflexivity. Qed.

Lemma allclose_refl (v : list Qc) : allclose (map Fin v) (map Fin v) = true.
Proof.
  unfold allclose, all. induction v as [| q v IH]; simpl; [reflexivity |].
  rewrite isclose_refl. exact IH.
Qed.

(** ** Exact comparison decides equality *)

Lemma scalar_eqb_eq (a b : scalar) : scalar_eqb a b = true -> a = b.
Proof.
  destruct a, b; simpl; try discriminate; try reflexivity.
  intros H. apply Qc_eqb_eq in H. now subst.
Qed.

Lemma list_eqb_eq {A : Type} (eqb : A -> A -> bool) :
  (forall a b, eqb a b = true -> a = b) ->
  forall l l', list_eqb eqb l l' = true -> l = l'.
Proof.
  intros Heq. induction l as [| x l IH]; destruct l' as [| y l']; simpl;
    try discriminate; try reflexivity.
  intros H. apply andb_true_iff in H. destruct H as [H1 H2].
  f_equal; [now apply Heq | now apply IH].
Qed.

Lemma vec_eqb_eq (v w : vec) : vec_eqb v w = true -> v = w.
Proof. apply list_eqb_eq. exact scalar_eqb_eq. Qed.

Lemma mat_eqb_eq (m m' : mat) : mat_eqb m m' = true -> m = m'.
Proof. apply list_eqb_eq. exact vec_eqb_eq. Qed.

Lemma same_attributes_eq (g h : Grid) :
  same_attributes g h = true ->
  _size g = _size h /\ _center g = _center h /\ _spacing g = _spacing h
  /\ _direction g = _direction h.
Proof.
  unfold same_attributes. intros H.
  repeat (apply andb_true_iff in H; destruct H as [H ?]).
  repeat split; try (now apply vec_eqb_eq); now apply mat_eqb_eq.
Qed.

(** Equality of two results of a concrete run. *)
Ltac run_vec :=
  vm_compute;
  match goal with
  | |- Ok _ = Ok _ => apply f_equal; apply vec_eqb_eq; vm_compute; reflexivity
  | |- _ = _ => apply vec_eqb_eq; vm_compute; reflexivity
  end.

(** ** The example scenario of the specification (C9) *)

(** C9: the 2D grid with size (4,4), spacing (1,1), centre (0,0) and
    identity direction has, with [align_corners=True], origin (-1.5,-1.5)
    and cube extent (3,3), and [index_to_cube] maps index (0,0) to (-1,-1)
    and index (3,3) to (1,1); with [align_corners=False], [index_to_cube]
    maps (0,0) to (-0.75,-0.75) and (3,3) to (0.75,0.75). *)
Theorem example_grid_4x4 :
  on_grid (grid_4x4 true) direction = Ok (eye 2)
  /\ on_grid (grid_4x4 true) origin = Ok [Ffrac (-3) 2; Ffrac (-3) 2]
  /\ on_grid (grid_4x4 true) cube_extent = Ok [Fz 3; Fz 3]
  /\ (g <- grid_4x4 true ;; index_to_cube g [Fz 0; Fz 0] (Some (-1)%Z) None)
     = Ok [Fz (-1); Fz (-1)]
  /\ (g <- grid_4x4 true ;; index_to_cube g [Fz 3; Fz 3] (Some (-1)%Z) None)
     = Ok [Fz 1; Fz 1]
  /\ (g <- grid_4x4 false ;; index_to_cube g [Fz 0; Fz 0] (Some (-1)%Z) None)
     = Ok [Ffrac (-3) 4; Ffrac (-3) 4]
  /\ (g <- grid_4x4 false ;; index_to_cube g [Fz 3; Fz 3] (Some (-1)%Z) None)
     = Ok [Ffrac 3 4; Ffrac 3 4].
Proof.
  repeat apply conj; try run_vec.
  vm_compute. apply f_equal. apply mat_eqb_eq. vm_compute. reflexivity.
Qed.

(** ** Inversion of the error monad *)

Lemma bind_Ok {A B : Type} (r : result A) (k : A -> result B) (b : B) :
  bind r k = Ok b -> exists a, r = Ok a /\ k a = Ok b.
Proof. destruct r as [a | e]; simpl; [eauto | discriminate]. Qed.

Lemma raise_if_Ok {A : Type} (c : bool) (e : exn) (k : result A) (a : A) :
  raise_if c e k = Ok a -> c = false /\ k = Ok a.
Proof. destruct c; simpl; [discriminate | auto]. Qed.

Lemma assert_Ok {A : Type} (c : bool) (k : result A) (a : A) :
  assert c k = Ok a -> c = true /\ k = Ok a.
Proof. destruct c; simpl; [auto | discriminate]. Qed.

(** Decompose a hypothesis stating that a monadic computation returned. *)
Ltac inv_ok H :=
  match type of H with
  | bind _ _ = Ok _ =>
      let a := fresh "a" in
      let H1 := fresh "H" in
      apply bind_Ok in H; destruct H as [a [H1 H]]; inv_ok H
  | raise_if _ _ _ = Ok _ =>
      let H1 := fresh "H" in
      apply raise_if_Ok in H; destruct H as [H1 H]; inv_ok H
  | assert _ _ = Ok _ =>
      let H1 := fresh "H" in
      apply assert_Ok in H; destruct H as [H1 H]; inv_ok H
  | _ => idtac
  end.

(** ** The flag [align_corners] of constructed grids (C10) *)

Lemma Grid_init_align_corners size' shape' center' origin' spacing' direction' ac g :
  Grid_init size' shape' center' origin' spacing' direction' ac = Ok g ->
  _align_corners g = py_bool ac.
Proof.
  unfold Grid_init. intros H. inv_ok H. inversion H. reflexivity.
Qed.

(** C10, counterexample: with all counts zero, [crop] and [pad] return the
    grid itself, whose flag may be [False]. *)
Lemma crop_pad_zero_keep_flag :
  crop (plain_grid [4; 4]%Z false) [MInt 0] None None = Ok (plain_grid [4; 4]%Z false)
  /\ pad (plain_grid [4; 4]%Z false) [MInt 0] None None = Ok (plain_grid [4; 4]%Z false)
  /\ align_corners (plain_grid [4; 4]%Z false) = false.
Proof. repeat apply conj; reflexivity. Qed.

(** C10, as amended: [center_crop], [center_pad], [narrow] and [pool] return
    grids whose [align_corners()] is [True] whatever the flag of [g] is, and so
    do [crop] and [pad] unless every border count is zero, when they return
    [g] itself.  The operations pass the accessor method [self.align_corners]
    to the constructor, which applies [bool()] to it. *)
Theorem derived_grids_align_corners (g g' : Grid) :
  (forall args margin num,
      crop g args margin num = Ok g' ->
      exists cnt, border_counts g args margin num = Ok cnt
        /\ (if forallb (fun n => (n =? 0)%Z) cnt then g' = g
            else align_corners g' = true))
  /\ (forall args margin num,
      pad g args margin num = Ok g' ->
      exists cnt, border_counts g args margin num = Ok cnt
        /\ (if forallb (fun n => (n =? 0)%Z) cnt then g' = g
            else align_corners g' = true))
  /\ (forall size', center_crop g size' = Ok g' -> align_corners g' = true)
  /\ (forall size', center_pad g size' = Ok g' -> align_corners g' = true)
  /\ (forall dim start length',
      narrow g dim start length' = Ok g' -> align_corners g' = true)
  /\ (forall kernel_size stride padding dilation ceil_mode,
      pool g kernel_size stride padding dilation ceil_mode = Ok g' ->
      align_corners g' = true).
Proof.
  unfold align_corners. repeat apply conj.
  - intros args margin num H. unfold crop in H.
    apply bind_Ok in H. destruct H as [cnt [Hc H]]. exists cnt. split; [exact Hc |].
    destruct (forallb _ cnt); [now inversion H |].
    inv_ok H. now apply Grid_init_align_corners in H.
  - intros args margin num H. unfold pad in H.
    apply bind_Ok in H. destruct H as [cnt [Hc H]]. exists cnt. split; [exact Hc |].
    destruct (forallb _ cnt); [now inversion H |].
    inv_ok H. now apply Grid_init_align_corners in H.
  - intros s H. unfold center_crop in H. inv_ok H.
    now apply Grid_init_align_corners in H.
  - intros s H. unfold center_pad in H. inv_ok H.
    now apply Grid_init_align_corners in H.
  - intros dim start len H. unfold narrow in H. inv_ok H.
    now apply Grid_init_align_corners in H.
  - intros k stride padding dilation cm H. unfold pool in H. inv_ok H.
    now apply Grid_init_align_corners in H.
Qed.

(** The amended statement at work on a grid whose flag is [False]: cropping
    one point at each border of the first axis yields a grid whose flag is
    [True]. *)
Lemma derived_grids_align_corners_witness :
  exists g', crop (plain_grid [4; 4]%Z false) [MInt 1] None None = Ok g'
             /\ align_corners g' = true.
Proof.
  eexists. split; [vm_compute; reflexivity |].
  destruct (proj1 (derived_grids_align_corners (plain_grid [4; 4]%Z false) _)
              [MInt 1] None None eq_refl) as [cnt [Hc Hf]].
  vm_compute in Hc. inversion Hc. subst cnt. exact Hf.
Defined.

(** ** Validity of the direction matrix (C8) *)

Local Open Scope Qc_scope.


Lemma Qc_square_one (e : Qc) : e * e = 1 -> e = 1 \/ e = - (1).
Proof.
  intros H.
  assert (H0 : (e - 1) * (e + 1) = 0) by (replace ((e - 1) * (e + 1)) with (e * e - 1) by ring; rewrite H; ring).
  apply Qcmult_integral in H0. destruct H0 as [H0 | H0]; [left | right].
  - rewrite <- (Qcplus_0_r 1), <- H0. ring.
  - rewrite <- (Qcplus_0_l (- (1))), <- H0. ring.
Qed.

Lemma direction_check_unit (m : mat) (e : Qc) :
  det m = Fin e -> e * e = 1 -> direction_check m = true.
Proof.
  intros Hd He. unfold direction_check. rewrite Hd.
  destruct (Qc_square_one He) as [-> | ->]; vm_compute; reflexivity.
Qed.

Lemma Fin_inj (a b : Qc) : Fin a = Fin b -> a = b.
Proof. intros H. exact (f_equal fin_val H). Qed.

Lemma cons_inv {A : Type} (x y : A) (l l' : list A) : x :: l = y :: l' -> x = y /\ l = l'.
Proof. intros H. split; [exact (f_equal (hd x) H) | exact (f_equal (@tl A) H)]. Qed.

Ltac list_inv H :=
  match type of H with
  | _ :: _ = _ :: _ =>
      let H1 := fresh "E" in
      apply cons_inv in H; destruct H as [H1 H]; list_inv H1; list_inv H
  | Fin _ = Fin _ => apply Fin_inj in H
  | [] = [] => clear H
  | _ => idtac
  end.


Ltac rewrite_hyps :=
  repeat match goal with
         | E : _ = _ :> Qc |- _ => rewrite E; clear E
         end.

Lemma orthonormal_2d (m : mat) :
  length m = 2%nat -> rows_have 2 m = true -> orthonormal m -> direction_check m = true.
Proof.
  intros Hl Hr [Hf Ho].
  destruct m as [| r1 [| r2 [| ? ?]]]; try discriminate.
  simpl in Hr. 
  destruct r1 as [| a [| b [| ? ?]]]; try discriminate.
  destruct r2 as [| c [| d [| ? ?]]]; try discriminate.
  simpl in Hf. destruct a as [a| | |], b as [b| | |], c as [c| | |], d as [d| | |]; try discriminate.
  clear Hf Hr Hl. cbv [mm transpose ncols hd length seq map col nth dot smul sadd eye diag repeat Nat.eqb] in Ho.
  eapply direction_check_unit.
  - cbv [det det_rec length seq map remove_nth nth fold_right Nat.even smul sadd sneg]. reflexivity.
  - match type of Ho with
    | [[Fin ?g11; Fin ?g12]; [Fin ?g21; Fin ?g22]] = _ =>
        match goal with
        | |- ?e * ?e = _ => assert (Hdet : e * e = g11 * g22 - g12 * g21) by ring
        end
    end.
    rewrite Hdet. clear Hdet. list_inv Ho. rewrite_hyps. ring.
Qed.

Lemma orthonormal_3d (m : mat) :
  length m = 3%nat -> rows_have 3 m = true -> orthonormal m -> direction_check m = true.
Proof.
  intros Hl Hr [Hf Ho].
  destruct m as [| r1 [| r2 [| r3 [| ? ?]]]]; try discriminate.
  simpl in Hr. 
  destruct r1 as [| a1 [| a2 [| a3 [| ? ?]]]]; try discriminate.
  destruct r2 as [| b1 [| b2 [| b3 [| ? ?]]]]; try discriminate.
  destruct r3 as [| c1 [| c2 [| c3 [| ? ?]]]]; try discriminate.
  simpl in Hf.
  destruct a1 as [a1| | |], a2 as [a2| | |], a3 as [a3| | |]; try discriminate;
  destruct b1 as [b1| | |], b2 as [b2| | |], b3 as [b3| | |]; try discriminate;
  destruct c1 as [c1| | |], c2 as [c2| | |], c3 as [c3| | |]; try discriminate.
  clear Hf Hr Hl. cbv [mm transpose ncols hd length seq map col nth dot smul sadd eye diag repeat Nat.eqb] in Ho.
  eapply direction_check_unit.
  - cbv [det det_rec length seq map remove_nth nth fold_right Nat.even smul sadd sneg]. reflexivity.
  - match type of Ho with
    | [[Fin ?g11; Fin ?g12; Fin ?g13]; [Fin ?g21; Fin ?g22; Fin ?g23];
       [Fin ?g31; Fin ?g32; Fin ?g33]] = _ =>
        match goal with
        | |- ?e * ?e = _ =>
            assert (Hdet : e * e = g11 * (g22 * g33 - g23 * g32)
                                   - g12 * (g21 * g33 - g23 * g31)
                                   + g13 * (g21 * g32 - g22 * g31)) by ring
        end
    end.
    rewrite Hdet. clear Hdet. list_inv Ho. rewrite_hyps. ring.
Qed.

Local Close Scope Qc_scope.




(** ** Shapes of the transformation matrices (C2) *)

Lemma length_diag (v : vec) : length (diag v) = length v.
Proof. unfold diag. now rewrite length_map, length_seq. Qed.

Lemma rows_have_diag (v : vec) : rows_have (length v) (diag v) = true.
Proof.
  unfold rows_have, diag. apply forallb_forall. intros row Hrow.
  apply in_map_iff in Hrow. destruct Hrow as [i [<- _]].
  rewrite length_map, length_seq. apply Nat.eqb_refl.
Qed.

Lemma ncols_diag (v : vec) : ncols (diag v) = length v.
Proof.
  unfold ncols, diag. destruct v as [| x v]; [reflexivity |].
  cbn [length seq map hd]. now rewrite !length_map, length_seq.
Qed.

Lemma shape2_diag (v : vec) : shape2 (diag v) = (length v, length v).
Proof. unfold shape2. now rewrite length_diag, ncols_diag. Qed.

Lemma length_size_tensor (g : Grid) : length (size_tensor g) = ndim g.
Proof. unfold size_tensor, _round_size, ndim. apply length_map. Qed.

(** C2, the divergence: for every grid, the point transform
    ([vectors=False]) between [CUBE] and [CUBE_CORNERS] is returned as the
    square [D x D] matrix, in both directions: the branch builds the diagonal
    matrix and, unlike its sibling branches, never appends the translation
    column. *)
Theorem transform_cube_corners_square (g : Grid) :
  (exists m, transform g (Some CUBE) (Some CUBE_CORNERS) None false = Ok m
             /\ shape2 m = (ndim g, ndim g))
  /\ (exists m, transform g (Some CUBE_CORNERS) (Some CUBE) None false = Ok m
                /\ shape2 m = (ndim g, ndim g)).
Proof.
  split; eexists; (split; [reflexivity |]);
    now rewrite shape2_diag, length_map, length_size_tensor.
Qed.

Lemma scalar_eqb_refl (a : scalar) : scalar_eqb a a = true.
Proof. destruct a; simpl; try reflexivity. apply Qc_eqb_refl. Qed.

Lemma list_eqb_refl {A : Type} (eqb : A -> A -> bool) (l : list A) :
  (forall a, eqb a a = true) -> list_eqb eqb l l = true.
Proof. intros H. induction l as [| x l IH]; simpl; [reflexivity |]. now rewrite H, IH. Qed.

Lemma vec_eqb_refl (v : vec) : vec_eqb v v = true.
Proof. apply list_eqb_refl. exact scalar_eqb_refl. Qed.

(** ** Serialization: [numpy] and [from_seq] (C7) *)

Lemma isclose_finite (a : scalar) : is_finite a = true -> isclose default_rtol default_atol a a = true.
Proof. destruct a; try discriminate. intros _. apply isclose_refl. Qed.

Lemma allclose_finite (v : vec) : all_finite v = true -> allclose v v = true.
Proof.
  unfold allclose, all, all_finite. induction v as [| x v IH]; simpl; [reflexivity |].
  intros H. apply andb_true_iff in H. destruct H as [Hx Hv].
  rewrite (isclose_finite _ Hx). now apply IH.
Qed.

Lemma mallclose_finite (m : mat) : forallb all_finite m = true -> mallclose m m = true.
Proof.
  unfold mallclose, all. induction m as [| r m IH]; simpl; [reflexivity |].
  intros H. apply andb_true_iff in H. destruct H as [Hr Hm].
  rewrite (allclose_finite _ Hr). now apply IH.
Qed.

Lemma grid_eq_refl (g : Grid) : grid_finite g = true -> grid_eq g g = true.
Proof.
  unfold grid_finite, grid_eq. intros H.
  repeat (apply andb_true_iff in H; destruct H as [H ?]).
  rewrite !Nat.eqb_refl, !allclose_finite, mallclose_finite by assumption. reflexivity.
Qed.

Lemma grid_eq_attributes (g : Grid) (ac : bool) :
  grid_eq (mkGrid (_size g) (_center g) (_spacing g) (_direction g) ac) g = grid_eq g g.
Proof. reflexivity. Qed.

(** The parts of [valid_grid]. *)
Lemma valid_grid_parts (g : Grid) :
  valid_grid g = true ->
  grid_shape_ok g = true /\ grid_finite g = true
  /\ forallb (fun n => sleb (Fin 0) n) (_size g) = true
  /\ forallb (fun s => sgtb s (Fin 0)) (_spacing g) = true
  /\ direction_check (_direction g) = true.
Proof.
  unfold valid_grid. intros H. do 4 (apply andb_true_iff in H; destruct H as [H ?]). repeat split; assumption.
Qed.

Lemma sltb_Fin_false (a b : Qc) : sltb (Fin a) (Fin b) = false <-> (b <= a)%Qc.
Proof.
  split.
  - intros H. apply Qcnot_lt_le. intros L. apply sltb_Fin in L. congruence.
  - intros H. destruct (sltb (Fin a) (Fin b)) eqn:E; [| reflexivity].
    apply sltb_Fin in E. exfalso. exact (Qcle_not_lt _ _ H E).
Qed.

Lemma sleb_Fin_false (a b : Qc) : sleb (Fin a) (Fin b) = false <-> (b < a)%Qc.
Proof.
  split.
  - intros H. apply Qcnot_le_lt. intros L. apply sleb_Fin in L. congruence.
  - intros H. destruct (sleb (Fin a) (Fin b)) eqn:E; [| reflexivity].
    apply sleb_Fin in E. exfalso. exact (Qclt_not_le _ _ H E).
Qed.

Lemma sclamp_min_id (m a : scalar) : sleb m a = true -> sclamp_min m a = a.
Proof.
  destruct a as [a | | |], m as [m | | |]; try discriminate; try reflexivity.
  intros H. apply sleb_Fin in H. unfold sclamp_min.
  now rewrite (proj2 (sltb_Fin_false a m) H).
Qed.

Lemma sgtb_not_le (a b : scalar) : sgtb a b = true -> sleb a b = false.
Proof.
  unfold sgtb. destruct a as [a | | |], b as [b | | |]; try discriminate; try reflexivity.
  intros H. apply sltb_Fin in H. now apply sleb_Fin_false.
Qed.

Lemma firstn_app_exact {A} (l1 l2 : list A) n : length l1 = n -> firstn n (l1 ++ l2) = l1.
Proof. intros <-. rewrite firstn_app, Nat.sub_diag, firstn_all. simpl. apply app_nil_r. Qed.
Lemma skipn_app_exact {A} (l1 l2 : list A) n : length l1 = n -> skipn n (l1 ++ l2) = l2.
Proof. intros <-. rewrite skipn_app, Nat.sub_diag, skipn_all. reflexivity. Qed.

Lemma from_seq_numpy_2d (s1 s2 c1 c2 p1 p2 d11 d12 d21 d22 : scalar) (ac0 ac : bool) :
  let g := mkGrid [s1; s2] [c1; c2] [p1; p2] [[d11; d12]; [d21; d22]] ac0 in
  valid_grid g = true ->
  from_seq (numpy g) false ac = Ok (mkGrid (_size g) (_center g) (_spacing g) (_direction g) ac).
Proof.
  intros g Hv. apply valid_grid_parts in Hv. destruct Hv as (_ & _ & Hs & Hp & Hd).
  subst g. cbn [_size _spacing _direction forallb] in *.
  apply andb_true_iff in Hs; destruct Hs as [Hs1 Hs]; apply andb_true_iff in Hs; destruct Hs as [Hs2 _].
  apply andb_true_iff in Hp; destruct Hp as [Hp1 Hp]; apply andb_true_iff in Hp; destruct Hp as [Hp2 _].
  unfold from_seq, numpy. cbn [_size _spacing _center _direction flatten concat app length Nat.eqb bind slice skipn firstn Nat.sub Nat.mul Nat.add].
  unfold Grid_init, as_size_tensor. cbn [to_float length Nat.eqb raise_if bind map].
  rewrite !sclamp_min_id by assumption.
  unfold spacing_, ndim, cat_scalars. cbn [_size _center _spacing _direction _align_corners to_float length Nat.eqb bind map any existsb].
  rewrite !(sgtb_not_le _ _) by assumption. cbn [orb raise_if bind].
  unfold direction_, ndim. cbn [_size _center _spacing _direction _align_corners to_float length Nat.eqb Nat.mul Nat.add negb raise_if bind reshape firstn skipn].
  unfold direction_check in Hd. apply negb_true_iff in Hd. rewrite Hd. cbn [raise_if bind].
  unfold center_, ndim, cat_scalars. cbn [_size _center _spacing _direction _align_corners to_float length Nat.eqb bind]. 
  reflexivity.
Qed.

Lemma from_seq_numpy_3d
    (s1 s2 s3 c1 c2 c3 p1 p2 p3 d11 d12 d13 d21 d22 d23 d31 d32 d33 : scalar)
    (ac0 ac : bool) :
  let g := mkGrid [s1; s2; s3] [c1; c2; c3] [p1; p2; p3]
             [[d11; d12; d13]; [d21; d22; d23]; [d31; d32; d33]] ac0 in
  valid_grid g = true ->
  from_seq (numpy g) false ac = Ok (mkGrid (_size g) (_center g) (_spacing g) (_direction g) ac).
Proof.
  intros g Hv. apply valid_grid_parts in Hv. destruct Hv as (_ & _ & Hs & Hp & Hd).
  subst g. cbn [_size _spacing _direction forallb] in *.
  apply andb_true_iff in Hs; destruct Hs as [Hs1 Hs]; apply andb_true_iff in Hs; destruct Hs as [Hs2 Hs];
    apply andb_true_iff in Hs; destruct Hs as [Hs3 _].
  apply andb_true_iff in Hp; destruct Hp as [Hp1 Hp]; apply andb_true_iff in Hp; destruct Hp as [Hp2 Hp];
    apply andb_true_iff in Hp; destruct Hp as [Hp3 _].
  unfold from_seq, numpy. cbn [_size _spacing _center _direction flatten concat app length Nat.eqb bind slice skipn firstn Nat.sub Nat.mul Nat.add].
  unfold Grid_init, as_size_tensor. cbn [to_float length Nat.eqb raise_if bind map].
  rewrite !sclamp_min_id by assumption.
  unfold spacing_, ndim, cat_scalars. cbn [_size _center _spacing _direction _align_corners to_float length Nat.eqb bind map any existsb].
  rewrite !(sgtb_not_le _ _) by assumption. cbn [orb raise_if bind].
  unfold direction_, ndim. cbn [_size _center _spacing _direction _align_corners to_float length Nat.eqb Nat.mul Nat.add negb raise_if bind reshape firstn skipn].
  unfold direction_check in Hd. apply negb_true_iff in Hd. rewrite Hd. cbn [raise_if bind].
  unfold center_, ndim, cat_scalars. cbn [_size _center _spacing _direction _align_corners to_float length Nat.eqb bind]. 
  reflexivity.
Qed.

Lemma length_eq_2 {A} (l : list A) : length l = 2%nat -> exists a b, l = [a; b].
Proof. destruct l as [| a [| b [| ? ?]]]; try discriminate. eauto. Qed.
Lemma length_eq_3 {A} (l : list A) : length l = 3%nat -> exists a b c, l = [a; b; c].
Proof. destruct l as [| a [| b [| c [| ? ?]]]]; try discriminate. eauto. Qed.

Lemma grid_shape_ok_parts (g : Grid) :
  grid_shape_ok g = true ->
  ndim g <> 0%nat /\ length (_center g) = ndim g /\ length (_spacing g) = ndim g
  /\ length (_direction g) = ndim g /\ (forall row, In row (_direction g) -> length row = ndim g).
Proof.
  unfold grid_shape_ok, rows_have. intros H.
  apply andb_true_iff in H. destruct H as [H Hr].
  apply andb_true_iff in H. destruct H as [H Hm].
  apply andb_true_iff in H. destruct H as [H Hp].
  apply andb_true_iff in H. destruct H as [H Hc].
  apply negb_true_iff, Nat.eqb_neq in H.
  apply Nat.eqb_eq in Hm, Hp, Hc.
  repeat split; try assumption.
  intros row Hin. rewrite forallb_forall in Hr. apply Nat.eqb_eq. now apply Hr.
Qed.

Lemma from_seq_numpy (g : Grid) (ac : bool) :
  valid_grid g = true -> (ndim g = 2 \/ ndim g = 3)%nat ->
  from_seq (numpy g) false ac = Ok (mkGrid (_size g) (_center g) (_spacing g) (_direction g) ac).
Proof.
  intros Hv Hd. pose proof (valid_grid_parts _ Hv) as (Hs & _).
  apply grid_shape_ok_parts in Hs. destruct Hs as (_ & Hc & Hp & Hm & Hr).
  destruct g as [sz ce sp di ac0]. unfold ndim in *. cbn [_size _center _spacing _direction] in *.
  destruct Hd as [Hd | Hd]; rewrite Hd in *.
  - apply length_eq_2 in Hd, Hc, Hp, Hm.
    destruct Hd as (s1 & s2 & ->), Hc as (c1 & c2 & ->), Hp as (p1 & p2 & ->), Hm as (r1 & r2 & ->).
    destruct (length_eq_2 r1 (Hr r1 (or_introl eq_refl))) as (d11 & d12 & ->).
    destruct (length_eq_2 r2 (Hr r2 (or_intror (or_introl eq_refl)))) as (d21 & d22 & ->).
    apply (from_seq_numpy_2d _ _ _ _ _ _ _ _ _ _ ac0 ac Hv).
  - apply length_eq_3 in Hd, Hc, Hp, Hm.
    destruct Hd as (s1 & s2 & s3 & ->), Hc as (c1 & c2 & c3 & ->), Hp as (p1 & p2 & p3 & ->),
      Hm as (r1 & r2 & r3 & ->).
    destruct (length_eq_3 r1 (Hr r1 (or_introl eq_refl))) as (d11 & d12 & d13 & ->).
    destruct (length_eq_3 r2 (Hr r2 (or_intror (or_introl eq_refl)))) as (d21 & d22 & d23 & ->).
    destruct (length_eq_3 r3 (Hr r3 (or_intror (or_intror (or_introl eq_refl))))) as (d31 & d32 & d33 & ->).
    apply (from_seq_numpy_3d _ _ _ _ _ _ _ _ _ _ _ _ _ _ _ _ _ _ ac0 ac Hv).
Qed.

Lemma length_flatten_rows (m : mat) (c : nat) :
  (forall row, In row m -> length row = c) -> length (flatten m) = (length m * c)%nat.
Proof.
  unfold flatten. induction m as [| r m IH]; intros H; simpl; [reflexivity |].
  rewrite length_app, IH by (intros; apply H; now right).
  rewrite (H r) by now left. reflexivity.
Qed.

Lemma length_numpy (g : Grid) :
  grid_shape_ok g = true -> length (numpy g) = ((ndim g + 3) * ndim g)%nat.
Proof.
  intros Hs. apply grid_shape_ok_parts in Hs. destruct Hs as (_ & Hc & Hp & Hm & Hr).
  unfold numpy. rewrite !length_app, (length_flatten_rows _ Hr), Hc, Hp, Hm.
  unfold ndim. lia.
Qed.

Lemma from_seq_bad_length (attrs : vec) (o ac : bool) :
  length attrs <> 10%nat -> length attrs <> 18%nat -> from_seq attrs o ac = Raise ValueError.
Proof.
  intros H1 H2. unfold from_seq.
  apply Nat.eqb_neq in H1, H2. rewrite H1, H2. reflexivity.
Qed.

(** C7: for every valid 2D or 3D grid [g], [numpy()] is the sequence of
    length [(D+3)*D] made of size, spacing, centre and the direction matrix
    row by row, and [Grid.from_seq(g.numpy(), origin=False)] returns a grid
    with the attributes of [g], hence equal to [g]; [from_seq] raises
    [ValueError] on any sequence whose length is neither 10 nor 18. *)
Theorem from_seq_numpy_round_trip (g : Grid) (ac : bool) :
  valid_grid g = true -> (ndim g = 2 \/ ndim g = 3)%nat ->
  numpy g = _size g ++ _spacing g ++ _center g ++ concat (_direction g)
  /\ length (numpy g) = ((ndim g + 3) * ndim g)%nat
  /\ (exists g', from_seq (numpy g) false ac = Ok g'
                 /\ same_attributes g' g = true /\ grid_eq g' g = true)
  /\ (forall attrs origin' align_corners',
        length attrs <> 10%nat -> length attrs <> 18%nat ->
        from_seq attrs origin' align_corners' = Raise ValueError).
Proof.
  intros Hv Hd. pose proof (valid_grid_parts _ Hv) as (Hs & Hf & _).
  split; [reflexivity |]. split; [now apply length_numpy |]. split.
  - eexists. split; [now apply from_seq_numpy |]. split.
    + unfold same_attributes. cbn [_size _center _spacing _direction].
      unfold vec_eqb, mat_eqb. rewrite !list_eqb_refl; try reflexivity.
      * apply vec_eqb_refl.
      * apply scalar_eqb_refl.
      * apply scalar_eqb_refl.
      * apply scalar_eqb_refl.
    + rewrite grid_eq_attributes. now apply grid_eq_refl.
  - intros attrs o a. apply from_seq_bad_length.
Qed.

(** The round trip on the plain 4 x 4 grid. *)
Lemma from_seq_numpy_round_trip_witness :
  exists g', from_seq (numpy (plain_grid [4; 4]%Z false)) false true = Ok g'
             /\ same_attributes g' (plain_grid [4; 4]%Z false) = true
             /\ grid_eq g' (plain_grid [4; 4]%Z false) = true.
Proof.
  apply (@from_seq_numpy_round_trip (plain_grid [4; 4]%Z false) true).
  - vm_compute. reflexivity.
  - left. reflexivity.
Defined.

(** ** Resolution pyramids (C5) *)

(** *** The table of sizes *)

Lemma update_at_spec {A : Type} (i : nat) (f : A -> A) (v v' : list A) :
  update_at i f v = Ok v' ->
  length v' = length v
  /\ (exists x, nth_error v i = Some x /\ nth_error v' i = Some (f x))
  /\ (forall j, j <> i -> nth_error v' j = nth_error v j).
Proof.
  revert v v'. induction i as [| i IH]; intros [| x v] v' H; simpl in H; try discriminate.
  - inversion H; subst. repeat split.
    + exists x. split; reflexivity.
    + intros [| j] Hj; [congruence | reflexivity].
  - inv_ok H. inversion H; subst. destruct (IH _ _ H0) as (Hl & (y & Hy & Hy') & Ho).
    repeat split.
    + simpl. now rewrite Hl.
    + exists y. split; assumption.
    + intros [| j] Hj; [reflexivity |]. simpl. apply Ho. congruence.
Qed.

Lemma sizes_set_spec (sizes sizes' : list (list Z)) (level dim : nat) (v : Z) :
  sizes_set sizes level dim v = Ok sizes' ->
  map (@length Z) sizes' = map (@length Z) sizes
  /\ sizes_get sizes' level dim = Ok v
  /\ (forall level' dim', (level', dim') <> (level, dim) ->
        sizes_get sizes' level' dim' = sizes_get sizes level' dim').
Proof.
  revert sizes sizes'. induction level as [| level IH]; intros [| row sizes] sizes' H;
    simpl in H; try discriminate.
  - inv_ok H. inversion H; subst. apply update_at_spec in H0.
    destruct H0 as (Hl & (x & Hx & Hx') & Ho). repeat split.
    + simpl. now rewrite Hl.
    + unfold sizes_get. simpl. now rewrite Hx'.
    + intros [| level'] dim' Hne; unfold sizes_get; simpl; [| reflexivity].
      rewrite Ho; [reflexivity | congruence].
  - inv_ok H. inversion H; subst. destruct (IH _ _ H0) as (Hl & Hg & Ho). repeat split.
    + simpl. now rewrite Hl.
    + exact Hg.
    + intros [| level'] dim' Hne; [reflexivity |].
      apply (Ho level' dim'). congruence.
Qed.

Lemma for_each_cons {A S : Type} (x : A) (xs : list A) (step : A -> S -> result S) (s : S) :
  for_each (x :: xs) step s = (s' <- step x s ;; for_each xs step s').
Proof. reflexivity. Qed.

(** The loop of [pyramid] that fills the finer levels from the coarsest:
    started at level [k], it leaves [2^k (x - 1) + 1] at level 0. *)
Lemma pyramid_fill_down (dim k : nat) (x : Z) (sizes sizes' : list (list Z)) :
  for_each (rev (seq 0 k))
    (fun level sizes =>
       s <- sizes_get sizes (S level) dim ;;
       sizes_set sizes level dim (2 * s - 1)%Z) sizes = Ok sizes' ->
  sizes_get sizes k dim = Ok x ->
  map (@length Z) sizes' = map (@length Z) sizes
  /\ sizes_get sizes' 0 dim = Ok (2 ^ Z.of_nat k * (x - 1) + 1)%Z
  /\ (forall level dim', dim' <> dim ->
        sizes_get sizes' level dim' = sizes_get sizes level dim').
Proof.
  revert x sizes sizes'. induction k as [| k IH]; intros x sizes sizes' H Hx.
  - simpl in H. inversion H; subst. split; [reflexivity |]. split; [| reflexivity].
    rewrite Hx. f_equal. change (Z.of_nat 0) with 0%Z. rewrite Z.pow_0_r. lia.
  - rewrite seq_S, rev_app_distr in H. cbn [rev app Nat.add] in H.
    rewrite for_each_cons in H. apply bind_Ok in H. destruct H as [sizes1 [H1 H]].
    rewrite Hx in H1. cbn [bind] in H1. apply sizes_set_spec in H1.
    destruct H1 as (Hl & Hg & Ho).
    destruct (IH _ _ _ H Hg) as (Hl' & Hg' & Ho'). split; [| split].
    + now rewrite Hl', Hl.
    + rewrite Hg'. f_equal. rewrite Nat2Z.inj_succ, Z.pow_succ_r by lia. ring.
    + intros level dim' Hne. rewrite Ho' by assumption. apply Ho. congruence.
Qed.

(** The loop that recomputes the coarser levels touches neither level 0 nor
    another column. *)
Lemma pyramid_refine_up (dim : nat) (min_size : Z) (levels : list nat)
    (sizes sizes' : list (list Z)) :
  for_each levels
    (fun level sizes =>
       s <- sizes_get sizes (level - 1) dim ;;
       sizes <- sizes_set sizes level dim ((s + 1) / 2)%Z ;;
       s' <- sizes_get sizes level dim ;;
       if (s' <? min_size)%Z then sizes_set sizes level dim s else Ok sizes) sizes
  = Ok sizes' ->
  (forall level, In level levels -> level <> 0%nat) ->
  map (@length Z) sizes' = map (@length Z) sizes
  /\ (forall level dim', dim' <> dim \/ level = 0%nat ->
        sizes_get sizes' level dim' = sizes_get sizes level dim').
Proof.
  revert sizes sizes'. induction levels as [| l levels IH]; intros sizes sizes' H Hl.
  - simpl in H. inversion H; subst. split; reflexivity.
  - rewrite for_each_cons in H. apply bind_Ok in H. destruct H as [sizes1 [H1 H]].
    assert (Hl0 : l <> 0%nat) by (apply Hl; now left).
    destruct (IH _ _ H (fun level Hin => Hl level (or_intror Hin))) as (Hs & Ho).
    apply bind_Ok in H1. destruct H1 as [s [_ H1]].
    apply bind_Ok in H1. destruct H1 as [sizes2 [H2 H1]].
    apply bind_Ok in H1. destruct H1 as [s' [_ H1]].
    apply sizes_set_spec in H2. destruct H2 as (Hs2 & _ & Ho2).
    assert (Hne : forall level dim', dim' <> dim \/ level = 0%nat -> (level, dim') <> (l, dim)).
    { intros level dim' [Hd | Hd] E; inversion E; subst; contradiction. }
    destruct (s' <? min_size)%Z.
    + apply sizes_set_spec in H1. destruct H1 as (Hs1 & _ & Ho1). split.
      * now rewrite Hs, Hs1, Hs2.
      * intros level dim' Hd. rewrite Ho by assumption.
        rewrite Ho1 by now apply Hne. apply Ho2. now apply Hne.
    + inversion H1; subst. split.
      * now rewrite Hs, Hs2.
      * intros level dim' Hd. rewrite Ho by assumption. apply Ho2. now apply Hne.
Qed.


Lemma pyramid_dim_spec (L : nat) (m min_size : Z) (dim : nat) (n : Z)
    (sizes sizes' : list (list Z)) :
  pyramid_dim L m min_size dim sizes = Ok sizes' ->
  sizes_get sizes L dim = Ok n ->
  map (@length Z) sizes' = map (@length Z) sizes
  /\ sizes_get sizes' 0 dim = Ok (pyramid_level0_size (Z.of_nat L) m n)
  /\ (forall level dim', dim' <> dim ->
        sizes_get sizes' level dim' = sizes_get sizes level dim').
Proof.
  unfold pyramid_dim. intros H Hn. rewrite Hn in H. cbn [bind] in H.
  apply bind_Ok in H. destruct H as [sizes1 [H1 H]].
  apply bind_Ok in H. destruct H as [sizes2 [H2 H]].
  apply sizes_set_spec in H1. destruct H1 as (Hs1 & Hg1 & Ho1).
  destruct (pyramid_fill_down _ _ _ H2 Hg1) as (Hs2 & Hg2 & Ho2).
  apply pyramid_refine_up in H.
  2:{ intros level Hin. apply in_seq in Hin. lia. }
  destruct H as (Hs3 & Ho3). split; [| split].
  - now rewrite Hs3, Hs2, Hs1.
  - rewrite Ho3 by now right. exact Hg2.
  - intros level dim' Hne. rewrite Ho3 by now left. rewrite Ho2 by assumption.
    apply Ho1. congruence.
Qed.

Lemma pyramid_dims_spec (L : nat) (m min_size : Z) (dims : list nat) (n : nat -> Z)
    (sizes sizes' : list (list Z)) :
  for_each dims (pyramid_dim L m min_size) sizes = Ok sizes' ->
  NoDup dims ->
  (forall d, In d dims -> sizes_get sizes L d = Ok (n d)) ->
  map (@length Z) sizes' = map (@length Z) sizes
  /\ (forall d, In d dims ->
        sizes_get sizes' 0 d = Ok (pyramid_level0_size (Z.of_nat L) m (n d)))
  /\ (forall level d, ~ In d dims -> sizes_get sizes' level d = sizes_get sizes level d).
Proof.
  revert sizes sizes'. induction dims as [| dim dims IH]; intros sizes sizes' H Hnd Hn.
  - simpl in H. inversion H; subst. split; [reflexivity |]. split; [| reflexivity].
    intros d [].
  - rewrite for_each_cons in H. apply bind_Ok in H. destruct H as [sizes1 [H1 H]].
    inversion Hnd as [| ? ? Hnotin Hnd']; subst.
    destruct (pyramid_dim_spec _ _ _ _ _ H1 (Hn dim (or_introl eq_refl)))
      as (Hs1 & Hg1 & Ho1).
    assert (Hn1 : forall d, In d dims -> sizes_get sizes1 L d = Ok (n d)).
    { intros d Hd. rewrite Ho1; [apply Hn; now right |]. intros ->. contradiction. }
    destruct (IH _ _ H Hnd' Hn1) as (Hs & Hg & Ho). split; [| split].
    + now rewrite Hs, Hs1.
    + intros d [-> | Hd]; [| now apply Hg]. rewrite Ho by assumption. exact Hg1.
    + intros level d Hd. rewrite Ho by (intros Hin; apply Hd; now right).
      apply Ho1. intros ->. apply Hd. now left.
Qed.

Lemma sizes_get_repeat (n : list Z) (k level d : nat) :
  (level < k)%nat -> (d < length n)%nat ->
  sizes_get (repeat n k) level d = Ok (nth d n 0%Z).
Proof.
  intros Hl Hd. unfold sizes_get.
  rewrite (nth_error_repeat n Hl).
  destruct (nth_error n d) eqn:E.
  - now rewrite (nth_error_nth _ _ _ E).
  - apply nth_error_None in E. lia.
Qed.

Lemma row0_characterised (row n : list Z) (f : Z -> Z) :
  length row = length n ->
  (forall d, (d < length n)%nat -> nth_error row d = Some (f (nth d n 0%Z))) ->
  row = map f n.
Proof.
  intros Hl H. apply nth_ext with (d := 0%Z) (d' := f 0%Z).
  - now rewrite length_map.
  - intros d Hd. rewrite Hl in Hd.
    rewrite (nth_error_nth _ _ _ (H d Hd)).
    now rewrite (map_nth f n 0%Z d).
Qed.

Lemma to_ints_length (v : vec) (l : list Z) : to_ints v = Ok l -> length l = length v.
Proof.
  revert l. induction v as [| x v IH]; intros l H; simpl in H.
  - inversion H. reflexivity.
  - inv_ok H. inversion H; subst. simpl. f_equal. now apply IH.
Qed.

Lemma resize_levels_keys (g : Grid) (k : Z) (sizes : list (list Z)) (d : list (Z * Grid)) :
  resize_levels g k sizes = Ok d ->
  dict_keys d = map (fun i => (k + Z.of_nat i)%Z) (seq 0 (length sizes)).
Proof.
  revert k d. induction sizes as [| row sizes IH]; intros k d H; simpl in H.
  - inversion H. reflexivity.
  - inv_ok H. inversion H; subst. unfold dict_keys in *. cbn [map fst length seq].
    f_equal; [lia |]. rewrite (IH _ _ H1), <- seq_shift, map_map.
    apply map_ext. intros i. lia.
Qed.

Lemma all_seqb_refl (l : list Z) : all (map2 seqb (map Fz l) (map Fz l)) = true.
Proof.
  unfold all. induction l as [| z l IH]; simpl; [reflexivity |].
  unfold Fz at 1 2. now rewrite seqb_refl.
Qed.

Lemma Qz_nonneg (z : Z) : (0 <= z)%Z -> (0 <= Qz z)%Qc.
Proof.
  intros H. unfold Qz, Qcle. cbn [this Q2Qc]. rewrite !Qred_correct.
  change (inject_Z 0 <= inject_Z z)%Q. now rewrite <- Zle_Qle.
Qed.

Lemma any_negative_Fz (l : list Z) :
  Forall (fun z => (0 <= z)%Z) l -> any (map (fun n => sltb n (Fin 0)) (map Fz l)) = false.
Proof.
  unfold any. induction 1 as [| z l Hz _ IH]; simpl; [reflexivity |].
  rewrite IH, orb_false_r. unfold Fz. apply sltb_Fin_false. now apply Qz_nonneg.
Qed.

Lemma cat_scalars_IntVector (l : list Z) (num : nat) :
  length l = num -> cat_scalars (IntVector l) num = Ok (map Fz l).
Proof.
  intros H. unfold cat_scalars. cbn [to_float].
  destruct l as [| z [| z' l]]; simpl in *; subst; try reflexivity.
  now rewrite length_map, Nat.eqb_refl.
Qed.

(** Resizing to the stored size returns the grid itself. *)
Lemma resize_same_size (g : Grid) (l : list Z) (ac : option bool) :
  _size g = map Fz l -> Forall (fun z => (0 <= z)%Z) l ->
  resize g (IntVector l) ac = Ok g.
Proof.
  intros Hs Hl. unfold resize.
  rewrite cat_scalars_IntVector by (unfold ndim; now rewrite Hs, length_map).
  cbn [bind is_int_dtype negb raise_if]. rewrite any_negative_Fz by assumption.
  cbn [raise_if]. unfold _resize. now rewrite Hs, all_seqb_refl.
Qed.

(** C5, counterexample: the level 0 of the one-level pyramid of the plain
    4 x 4 grid has size 5 x 5 and is not equal to the grid. *)
Lemma pyramid_level0_differs :
  exists d g0,
    pyramid (plain_grid [4; 4]%Z true) 1 None 0 = Ok d
    /\ dict_get d 0 = Some g0
    /\ _size g0 = [Fz 5; Fz 5]
    /\ grid_eq g0 (plain_grid [4; 4]%Z true) = false.
Proof.
  eexists. eexists. split; [vm_compute; reflexivity |].
  split; [reflexivity |]. split; [apply vec_eqb_eq |]; vm_compute; reflexivity.
Qed.

(** C5, as amended: for every grid [g] and every non-negative integer
    [levels], the dictionary that [g.pyramid(levels)] returns has exactly the
    keys [0 .. levels], and its entry at level 0 is [g.resize(size0)], where
    along every axis [size0 = 2**levels * (s - 1) + 1] for the coarsest size
    [s = int(0.5 + (n + m) / 2**levels)], [n = g.size()] and [m] the sum of
    the powers of two below [2**levels] if corners are aligned and 0
    otherwise.  That entry is [g] itself when [size0] is the stored size of
    [g]. *)
Theorem pyramid_levels (g : Grid) (levels min_size : Z) (d : list (Z * Grid)) :
  (0 <= levels)%Z ->
  pyramid g levels None min_size = Ok d ->
  dict_keys d = map Z.of_nat (seq 0 (S (Z.to_nat levels)))
  /\ exists n g0,
      size g = Ok n
      /\ dict_get d 0 = Some g0
      /\ let size0 := map (pyramid_level0_size levels (pyramid_offset g levels)) n in
         resize g (IntVector size0) None = Ok g0
         /\ (_size g = map Fz size0 -> Forall (fun z => (0 <= z)%Z) size0 -> g0 = g).
Proof.
  intros Hlev H. unfold pyramid in H.
  destruct (levels <? 0)%Z eqn:E; [apply Z.ltb_lt in E; lia |]. clear E.
  cbn [dims_or_all] in H.
  apply bind_Ok in H. destruct H as [n [Hn H]].
  apply bind_Ok in H. destruct H as [sizes [Hsz H]].
  assert (Hlen : length n = ndim g).
  { unfold size in Hn. apply to_ints_length in Hn. now rewrite Hn, length_size_tensor. }
  apply pyramid_dims_spec with (n := fun d => nth d n 0%Z) in Hsz.
  2:{ apply seq_NoDup. }
  2:{ intros dim Hd. apply in_seq in Hd. apply sizes_get_repeat; lia. }
  destruct Hsz as (Hshape & Hrow & _).
  cbn [repeat map] in Hshape.
  destruct sizes as [| row0 rest]; [discriminate Hshape |].
  cbn [map] in Hshape. apply cons_inv in Hshape. destruct Hshape as [Hl0 Hrest].
  assert (Hrow0 : row0 = map (pyramid_level0_size levels (pyramid_offset g levels)) n).
  { apply row0_characterised; [exact Hl0 |]. intros dim Hd.
    specialize (Hrow dim). rewrite Z2Nat.id in Hrow by assumption.
    unfold sizes_get in Hrow. cbn [nth_error] in Hrow.
    assert (Hin : In dim (seq 0 (ndim g))) by (apply in_seq; lia).
    specialize (Hrow Hin). unfold pyramid_offset.
    destruct (nth_error row0 dim); [| discriminate Hrow]. now inversion Hrow. }
  split.
  - rewrite (resize_levels_keys _ _ _ H). cbn [length].
    apply (f_equal (@length nat)) in Hrest. rewrite !length_map, repeat_length in Hrest.
    now rewrite Hrest.
  - cbn [resize_levels] in H. apply bind_Ok in H. destruct H as [g0 [Hg0 H]].
    apply bind_Ok in H. destruct H as [d' [_ H]]. inversion H; subst d.
    exists n, g0. split; [exact Hn |]. split; [reflexivity |].
    cbn zeta. rewrite <- Hrow0. split; [exact Hg0 |].
    intros Hsame Hpos. rewrite (resize_same_size g None Hsame Hpos) in Hg0.
    now inversion Hg0.
Qed.

(** The amended statement on the plain 5 x 9 grid with two levels: the keys
    are 0, 1, 2. *)
Lemma pyramid_levels_witness :
  exists d, pyramid (plain_grid [5; 9]%Z true) 2 None 0 = Ok d
            /\ dict_keys d = [0; 1; 2]%Z.
Proof.
  eexists.
  match goal with
  | |- ?A /\ _ => assert (H : A) by (vm_compute; reflexivity)
  end.
  split; [exact H |].
  refine (proj1 (@pyramid_levels (plain_grid [5; 9]%Z true) 2 0 _ _ H)).
  intros H0. discriminate H0.
Defined.

(** ** Arithmetic on finite tensors *)

Local Open Scope Qc_scope.

(** ** Finite tensors *)

Lemma all_finite_cons x v : all_finite (x :: v) = true -> exists q, x = Fin q /\ all_finite v = true.
Proof. simpl. destruct x; try discriminate. intros H. eauto. Qed.

Lemma all_finite_lift (v : vec) : all_finite v = true -> exists q, v = map Fin q.
Proof.
  induction v as [| x v IH]; intros H.
  - now exists [].
  - apply all_finite_cons in H. destruct H as (q & -> & H).
    destruct (IH H) as (qs & ->). now exists (q :: qs).
Qed.

Lemma mat_finite_lift (m : mat) : forallb all_finite m = true -> exists q, m = lift q.
Proof.
  induction m as [| r m IH]; intros H.
  - now exists [].
  - cbn [forallb] in H. apply andb_true_iff in H. destruct H as [Hr Hm].
    destruct (all_finite_lift _ Hr) as (q & ->). destruct (IH Hm) as (qs & ->).
    now exists (q :: qs).
Qed.

Lemma all_finite_map_Fin (q : list Qc) : all_finite (map Fin q) = true.
Proof. induction q; simpl; auto. Qed.

Lemma map2_Fin (f : scalar -> scalar -> scalar) (h : Qc -> Qc -> Qc) (a b : list Qc) :
  (forall x y, f (Fin x) (Fin y) = Fin (h x y)) ->
  map2 f (map Fin a) (map Fin b) = map Fin (map2 h a b).
Proof.
  intros H. revert b. induction a as [| x a IH]; intros [| y b]; simpl; try reflexivity.
  now rewrite H, IH.
Qed.

Lemma vadd_Fin (a b : list Qc) : vadd (map Fin a) (map Fin b) = map Fin (map2 Qcplus a b).
Proof. now apply map2_Fin. Qed.

Lemma vsub_Fin (a b : list Qc) : vsub (map Fin a) (map Fin b) = map Fin (map2 Qcminus a b).
Proof. now apply map2_Fin. Qed.

Lemma vmul_Fin (a b : list Qc) : vmul (map Fin a) (map Fin b) = map Fin (map2 Qcmult a b).
Proof. now apply map2_Fin. Qed.

Lemma vneg_Fin (a : list Qc) : vneg (map Fin a) = map Fin (map Qcopp a).
Proof. unfold vneg. rewrite !map_map. reflexivity. Qed.

Lemma dot_Fin (a b : list Qc) : dot (map Fin a) (map Fin b) = Fin (qdot a b).
Proof.
  revert b. induction a as [| x a IH]; intros [| y b]; simpl; try reflexivity.
  now rewrite IH.
Qed.

Lemma matvec_Fin (m : list (list Qc)) (v : list Qc) :
  matvec (lift m) (map Fin v) = map Fin (qmatvec m v).
Proof.
  unfold matvec, lift, qmatvec. rewrite !map_map. apply map_ext. intros row. apply dot_Fin.
Qed.

Lemma qdot_opp_r (a b : list Qc) : qdot a (map Qcopp b) = - qdot a b.
Proof.
  revert b. induction a as [| x a IH]; intros [| y b]; simpl; try ring.
  rewrite IH. ring.
Qed.

Lemma qdot_scale (a s v : list Qc) : qdot (map2 Qcmult a s) v = qdot a (map2 Qcmult s v).
Proof.
  revert s v. induction a as [| x a IH]; intros [| y s] [| z v]; simpl; try ring.
  rewrite IH. ring.
Qed.

(** Column [j] of a diagonal matrix against a row. *)
Lemma qdot_delta (a s : list Qc) (j k : nat) :
  qdot a (map (fun i => if Nat.eqb i j then nth i s 0 else 0) (seq k (length a)))
  = if (k <=? j)%nat && (j <? k + length a)%nat then nth (j - k) a 0 * nth j s 0 else 0.
Proof.
  revert k. induction a as [| x a IH]; intros k; cbn [length seq map qdot].
  - destruct (Nat.leb_spec k j); destruct (Nat.ltb_spec j (k + 0)); cbn [andb];
      try reflexivity; lia.
  - rewrite IH.
    destruct (Nat.eqb_spec k j); destruct (Nat.leb_spec (S k) j);
      destruct (Nat.leb_spec k j); destruct (Nat.ltb_spec j (S k + length a));
      destruct (Nat.ltb_spec j (k + S (length a))); try lia; cbn [andb]; try ring.
    + subst k. rewrite Nat.sub_diag. cbn [nth]. ring.
    + replace (j - k)%nat with (S (j - S k)) by lia. cbn [nth]. ring.
Qed.

Lemma nth_map_Fin (v : list Qc) (i : nat) : nth i (map Fin v) (Fin 0) = Fin (nth i v 0).
Proof. apply (map_nth Fin v 0 i). Qed.

Lemma nth_map_seq {A : Type} (F : nat -> A) (n j : nat) (d : A) :
  (j < n)%nat -> nth j (map F (seq 0 n)) d = F j.
Proof.
  intros Hj. rewrite (nth_indep _ d (F 0%nat)) by now rewrite length_map, length_seq.
  rewrite map_nth, seq_nth by assumption. reflexivity.
Qed.

Lemma col_diag_Fin (s : list Qc) (j : nat) :
  (j < length s)%nat ->
  col j (diag (map Fin s))
  = map Fin (map (fun i => if Nat.eqb i j then nth i s 0 else 0) (seq 0 (length s))).
Proof.
  intros Hj. unfold col, diag. rewrite length_map, !map_map. apply map_ext_in.
  intros i Hi. rewrite nth_map_seq by assumption.
  destruct (Nat.eqb i j); [apply nth_map_Fin | reflexivity].
Qed.

Lemma map_seq_map2 (row s : list Qc) :
  length row = length s ->
  map (fun j => nth j row 0 * nth j s 0) (seq 0 (length s)) = map2 Qcmult row s.
Proof.
  revert s. induction row as [| x row IH]; intros [| y s] H; try discriminate; [reflexivity |].
  cbn [length seq map map2 nth]. f_equal. rewrite <- seq_shift, map_map.
  cbn [nth]. apply IH. now inversion H.
Qed.

Lemma mm_diag_Fin (d : list (list Qc)) (s : list Qc) :
  (forall row, In row d -> length row = length s) ->
  mm (lift d) (diag (map Fin s)) = lift (qscale_cols d s).
Proof.
  intros Hd. unfold mm, lift, qscale_cols. rewrite !map_map. apply map_ext_in.
  intros row Hrow. rewrite ncols_diag, length_map.
  rewrite <- (map_seq_map2 _ _ (Hd row Hrow)), map_map. apply map_ext_in.
  intros j Hj. apply in_seq in Hj.
  rewrite col_diag_Fin by lia. rewrite dot_Fin. f_equal.
  rewrite <- (Hd row Hrow), qdot_delta.
  destruct (Nat.leb_spec 0 j); destruct (Nat.ltb_spec j (0 + length row));
    cbn [andb]; try lia.
  - now rewrite Nat.sub_0_r.
  - rewrite (Hd row Hrow) in *. lia.
Qed.

Lemma qmatvec_scale (d : list (list Qc)) (s v : list Qc) :
  qmatvec (qscale_cols d s) v = qmatvec d (map2 Qcmult s v).
Proof.
  unfold qmatvec, qscale_cols. rewrite map_map. apply map_ext. intros row. apply qdot_scale.
Qed.

Lemma length_qmatvec (d : list (list Qc)) (v : list Qc) : length (qmatvec d v) = length d.
Proof. apply length_map. Qed.

Lemma length_map2 {A B C : Type} (f : A -> B -> C) (a : list A) (b : list B) :
  length (map2 f a b) = Nat.min (length a) (length b).
Proof.
  revert b. induction a as [| x a IH]; intros [| y b]; simpl; try reflexivity.
  now rewrite IH.
Qed.

(** ** Elementwise operations on lists over a common index *)

Lemma vwhere_map {X : Type} (C : X -> bool) (F G : X -> scalar) (l : list X) :
  vwhere (map C l) (map F l) (map G l) = map (fun x => if C x then F x else G x) l.
Proof. induction l as [| x l IH]; simpl; [reflexivity | now rewrite IH]. Qed.

Lemma map2_map {X A B C : Type} (h : A -> B -> C) (F : X -> A) (G : X -> B) (l : list X) :
  map2 h (map F l) (map G l) = map (fun x => h (F x) (G x)) l.
Proof. induction l as [| x l IH]; simpl; [reflexivity | now rewrite IH]. Qed.

Lemma tab_nth {A : Type} (l : list A) (d : A) : tab (fun i => nth i l d) (length l) = l.
Proof.
  unfold tab. induction l as [| x l IH]; [reflexivity |].
  cbn [length seq map nth]. f_equal. rewrite <- seq_shift, map_map. exact IH.
Qed.

Lemma tab_ext {A : Type} (f g : nat -> A) (n : nat) :
  (forall i, (i < n)%nat -> f i = g i) -> tab f n = tab g n.
Proof.
  intros H. unfold tab. apply map_ext_in. intros i Hi. apply in_seq in Hi. apply H. lia.
Qed.

Lemma length_tab {A : Type} (f : nat -> A) (n : nat) : length (tab f n) = n.
Proof. unfold tab. now rewrite length_map, length_seq. Qed.

(** ** Derived quantities of a grid with finite attributes *)

Lemma round_Fin (q : Qc) :
  (if seqb (Fin q) (Fin 0) then Fin 0 else sceil (Fin q)) = Fin (qceil q).
Proof.
  destruct (seqb (Fin q) (Fin 0)) eqn:E; [| reflexivity].
  apply seqb_Fin in E. subst q. reflexivity.
Qed.

Lemma _round_size_Fin (size : list Qc) : _round_size (map Fin size) = map Fin (map qceil size).
Proof. unfold _round_size. rewrite !map_map. apply map_ext. exact round_Fin. Qed.

Lemma sgtb_Fin_0 (n : Qc) : sgtb (Fin n) (Fin 0) = Qc_ltb 0 n.
Proof.
  unfold sgtb. destruct (Qc_ltb 0 n) eqn:E.
  - apply sltb_Fin. now apply Qc_ltb_lt.
  - apply sltb_Fin_false. now apply Qc_ltb_ge.
Qed.

Lemma sdiv_Fin (x y : Qc) : y <> 0 -> sdiv (Fin x) (Fin y) = Fin (x / y).
Proof. intros H. unfold sdiv. now rewrite (proj2 (Qc_eqb_neq y 0) H). Qed.

Lemma Qz_2_neq_0 : Qz 2 <> 0.
Proof. intros H. discriminate H. Qed.

Lemma center_offset_Fin (n : list Qc) : center_offset (map Fin n) = map Fin (map qoff n).
Proof.
  unfold center_offset. rewrite !map_map.
  rewrite (vwhere_map (fun q => sgtb (Fin q) (Fin 0)) (fun q => ssub (Fin q) (Fin 1)) Fin).
  rewrite map_map. apply map_ext. intros q. rewrite sgtb_Fin_0. unfold qoff.
  destruct (Qc_ltb 0 q); cbn [ssub sneg sadd]; now rewrite sdiv_Fin by exact Qz_2_neq_0.
Qed.

Lemma origin_finite (size c s : list Qc) (d : list (list Qc)) (flag : bool) :
  (forall row, In row d -> length row = length s) ->
  origin (mkGrid (map Fin size) (map Fin c) (map Fin s) (lift d) flag)
  = map Fin (qorigin size c s d).
Proof.
  intros Hd. unfold origin, affine, size_tensor, direction, spacing.
  cbn [_size _center _spacing _direction].
  rewrite mm_diag_Fin by assumption.
  rewrite _round_size_Fin, center_offset_Fin, matvec_Fin, vsub_Fin.
  unfold qorigin. now rewrite qmatvec_scale.
Qed.

Lemma extent_finite (size c s : list Qc) (d : list (list Qc)) (flag : bool) :
  extent (mkGrid (map Fin size) (map Fin c) (map Fin s) (lift d) flag)
  = map Fin (qextent size s).
Proof.
  unfold extent, size_tensor, spacing. cbn [_size _spacing].
  now rewrite _round_size_Fin, vmul_Fin.
Qed.
(** ** Integers among the rationals, and ceilings *)

Lemma this_Qz (z : Z) : (this (Qz z) == inject_Z z)%Q.
Proof. unfold Qz. cbn [this Q2Qc]. apply Qred_correct. Qed.

Lemma Qz_le (a b : Z) : (a <= b)%Z <-> Qz a <= Qz b.
Proof. unfold Qcle. rewrite !this_Qz, Zle_Qle. reflexivity. Qed.

Lemma Qz_lt (a b : Z) : (a < b)%Z <-> Qz a < Qz b.
Proof. unfold Qclt. rewrite !this_Qz, Zlt_Qlt. reflexivity. Qed.

Lemma Qz_0 : Qz 0 = 0.
Proof. reflexivity. Qed.

Lemma Qz_1 : Qz 1 = 1.
Proof. reflexivity. Qed.

Lemma le_qceil (q : Qc) : q <= qceil q.
Proof. unfold qceil, Qcle. rewrite this_Qz. apply Qle_ceiling. Qed.

Lemma qceil_lower (q : Qc) (z : Z) : Qz z < q -> Qz (z + 1) <= qceil q.
Proof.
  intros H. unfold qceil. apply (proj1 (Qz_le (z + 1) (Qceiling q))).
  assert (Qz z < Qz (Qceiling q)) as H1 by (eapply Qclt_le_trans; [exact H | apply le_qceil]).
  apply (proj2 (Qz_lt z (Qceiling q))) in H1. lia.
Qed.

Lemma qceil_mono (a b : Qc) : a <= b -> qceil a <= qceil b.
Proof.
  intros H. unfold qceil. apply (proj1 (Qz_le (Qceiling a) (Qceiling b))).
  now apply Qceiling_resp_le.
Qed.

Lemma qceil_Qz (z : Z) : qceil (Qz z) = Qz z.
Proof.
  unfold qceil. f_equal. rewrite (Qceiling_comp _ _ (this_Qz z)). apply Qceiling_Z.
Qed.

Lemma qceil_0 : qceil 0 = 0.
Proof. reflexivity. Qed.

Lemma qceil_pos (q : Qc) : 0 < q -> 1 <= qceil q.
Proof. intros H. exact (@qceil_lower q 0 H). Qed.

Lemma qceil_gt1 (q : Qc) : 1 < q -> Qz 2 <= qceil q.
Proof. intros H. exact (@qceil_lower q 1 H). Qed.

Lemma qceil_ge1 (q : Qc) : 1 <= q -> 1 <= qceil q.
Proof. intros H. eapply Qcle_trans; [exact H | apply le_qceil]. Qed.

Lemma qceil_ge2 (q : Qc) : Qz 2 <= q -> Qz 2 <= qceil q.
Proof. intros H. eapply Qcle_trans; [exact H | apply le_qceil]. Qed.

(** ** Resizing (C1, C4) *)

Ltac fuse := repeat (rewrite map_map || rewrite map2_map || rewrite vwhere_map).

Lemma Qc_eq_Qeq (a b : Qc) : a = b -> (this a == this b)%Q.
Proof. intros ->. reflexivity. Qed.

(** Order facts of [Qc], decided on the underlying rationals. *)
Ltac qc_order :=
  repeat match goal with
         | H : @eq Qc _ _ |- _ => apply Qc_eq_Qeq in H
         end;
  try (apply Qc_is_canon);
  try match goal with
      | |- _ <> _ => let E := fresh in intros E; apply Qc_eq_Qeq in E
      end;
  unfold Qcle, Qclt, Qcminus, Qcplus, Qcopp, Qcmult, Qz, Qfrac, inject_Z in *;
  cbn [this Q2Qc] in *;
  repeat match goal with
         | H : context [Qred _] |- _ => rewrite !Qred_correct in H
         end;
  rewrite ?Qred_correct;
  try lra.


Lemma Qc_ltb_true (a b : Qc) : a < b -> Qc_ltb a b = true.
Proof. apply Qc_ltb_lt. Qed.

Lemma Qc_ltb_0_0 : Qc_ltb 0 0 = false.
Proof. reflexivity. Qed.

Lemma origin_fused {X : Type} (fsz fs : X -> Qc) (l : list X) (c : list Qc)
    (d : list (list Qc)) (flag : bool) :
  (forall row, In row d -> length row = length l) ->
  origin (mkGrid (map (fun x => Fin (fsz x)) l) (map Fin c) (map (fun x => Fin (fs x)) l)
            (lift d) flag)
  = map Fin (qorigin (map fsz l) c (map fs l) d).
Proof.
  intros Hd. rewrite <- (map_map fsz Fin), <- (map_map fs Fin).
  apply origin_finite. now rewrite length_map.
Qed.

Lemma extent_fused {X : Type} (fsz fs : X -> Qc) (l : list X) (c : list Qc)
    (d : list (list Qc)) (flag : bool) :
  extent (mkGrid (map (fun x => Fin (fsz x)) l) (map Fin c) (map (fun x => Fin (fs x)) l)
            (lift d) flag)
  = map Fin (qextent (map fsz l) (map fs l)).
Proof.
  rewrite <- (map_map fsz Fin), <- (map_map fs Fin). apply extent_finite.
Qed.

Lemma allclose_fused {X : Type} (f : X -> Qc) (l : list X) :
  allclose (map (fun x => Fin (f x)) l) (map (fun x => Fin (f x)) l) = true.
Proof. rewrite <- (map_map f Fin). apply allclose_refl. Qed.

(** *** One axis *)

Lemma respace_aligned_Fin (size s size' : Qc) :
  axis_ok true size size' ->
  (if sgtb (Fin size) (Fin 0)
   then sdiv (ssub (Fin (s * qceil size)) (Fin s)) (ssub (Fin (qceil size')) (Fin 1))
   else Fin s)
  = Fin (qrespace true size s size').
Proof.
  intros Hok. rewrite sgtb_Fin_0. unfold qrespace.
  destruct (Qc_ltb 0 size) eqn:E; [| reflexivity].
  cbn [ssub sneg sadd]. rewrite sdiv_Fin; [reflexivity |].
  destruct Hok as [[-> _] | [_ H]]; [discriminate E |]. qc_order.
Qed.

Lemma respace_extent_Fin (size s size' : Qc) :
  axis_ok false size size' ->
  (if sgtb (Fin size) (Fin 0)
   then sdiv (Fin (s * qceil size)) (Fin (qceil size'))
   else Fin s)
  = Fin (qrespace false size s size').
Proof.
  intros Hok. rewrite sgtb_Fin_0. unfold qrespace.
  destruct (Qc_ltb 0 size) eqn:E; [| reflexivity].
  rewrite sdiv_Fin; [reflexivity |].
  destruct Hok as [[-> _] | [_ H]]; [discriminate E |]. qc_order.
Qed.

Lemma respace_keeps_offset (size s size' : Qc) :
  axis_ok true size size' ->
  qrespace true size s size' * qoff (qceil size') = s * qoff (qceil size).
Proof.
  intros [[-> ->] | [Hs Hn]]; unfold qrespace, qoff.
  - rewrite qceil_0, Qc_ltb_0_0. reflexivity.
  - rewrite (Qc_ltb_true Hs).
    assert (H1 : 1 <= qceil size) by now apply qceil_pos.
    rewrite (@Qc_ltb_true 0 (qceil size)) by qc_order.
    rewrite (@Qc_ltb_true 0 (qceil size')) by qc_order.
    field. split; [discriminate | qc_order].
Qed.

Lemma respace_keeps_extent (size s size' : Qc) :
  axis_ok false size size' ->
  qrespace false size s size' * qceil size' = s * qceil size.
Proof.
  intros [[-> ->] | [Hs Hn]]; unfold qrespace.
  - rewrite qceil_0, Qc_ltb_0_0. reflexivity.
  - rewrite (Qc_ltb_true Hs). field. qc_order.
Qed.

(** *** [_resize] on a grid with finite attributes *)

Lemma _resize_tab (aligned : bool) (fsz fs fsz' : nat -> Qc) (n : nat) (c : list Qc)
    (d : list (list Qc)) (flag : bool) (ac : option bool) :
  (forall row, In row d -> length row = n) ->
  aligned = match ac with None => flag | Some b => b end ->
  (forall i, (i < n)%nat -> axis_ok aligned (fsz i) (fsz' i)) ->
  _resize (finite_grid (tab fsz n) c (tab fs n) d flag) (map Fin (tab fsz' n)) ac
  = Ok (if all (map2 seqb (map Fin (tab fsz' n)) (map Fin (tab fsz n)))
        then finite_grid (tab fsz n) c (tab fs n) d flag
        else finite_grid (tab fsz' n) c
               (tab (fun i => qrespace aligned (fsz i) (fs i) (fsz' i)) n) d flag).
Proof.
  intros Hd Ha Hok. unfold _resize, finite_grid.
  cbn [_size _center _spacing _direction _align_corners]. rewrite <- Ha.
  destruct (all (map2 seqb (map Fin (tab fsz' n)) (map Fin (tab fsz n)))); [reflexivity |].
  assert (Hd' : forall row, In row d -> length row = length (seq 0 n))
    by (intros row Hr; rewrite length_seq; now apply Hd).
  destruct aligned.
  - rewrite extent_finite. unfold spacing. cbn [_spacing].
    rewrite _round_size_Fin. unfold vdiv, vsub, qextent, tab. fuse.
    rewrite (map_ext_in
               (fun x => if sgtb (Fin (fsz x)) (Fin 0)
                         then sdiv (ssub (Fin (fs x * qceil (fsz x))) (Fin (fs x)))
                                (ssub (Fin (qceil (fsz' x))) (Fin 1))
                         else Fin (fs x))
               (fun i => Fin (qrespace true (fsz i) (fs i) (fsz' i)))).
    2:{ intros i Hi. apply in_seq in Hi. apply respace_aligned_Fin. apply Hok. lia. }
    rewrite !origin_fused by assumption.
    replace (qorigin (map fsz' (seq 0 n)) c
               (map (fun i => qrespace true (fsz i) (fs i) (fsz' i)) (seq 0 n)) d)
      with (qorigin (map fsz (seq 0 n)) c (map fs (seq 0 n)) d).
    + rewrite allclose_refl. reflexivity.
    + unfold qorigin. do 2 f_equal. fuse. apply map_ext_in. intros i Hi.
      apply in_seq in Hi. symmetry. apply respace_keeps_offset. apply Hok. lia.
  - rewrite extent_finite. unfold spacing. cbn [_spacing].
    rewrite _round_size_Fin. unfold vdiv, qextent, tab. fuse.
    rewrite (map_ext_in
               (fun x => if sgtb (Fin (fsz x)) (Fin 0)
                         then sdiv (Fin (fs x * qceil (fsz x))) (Fin (qceil (fsz' x)))
                         else Fin (fs x))
               (fun i => Fin (qrespace false (fsz i) (fs i) (fsz' i)))).
    2:{ intros i Hi. apply in_seq in Hi. apply respace_extent_Fin. apply Hok. lia. }
    rewrite !extent_fused. unfold qextent. fuse.
    rewrite (map_ext_in
               (fun x => Fin (qrespace false (fsz x) (fs x) (fsz' x) * qceil (fsz' x)))
               (fun x => Fin (fs x * qceil (fsz x)))).
    2:{ intros i Hi. apply in_seq in Hi. f_equal. apply respace_keeps_extent.
        apply Hok. lia. }
    rewrite allclose_fused. reflexivity.
Qed.

(** A valid grid, presented by its finite attributes. *)
Lemma valid_grid_presented (g : Grid) :
  valid_grid g = true ->
  exists (n : nat) (fsz fs : nat -> Qc) (c : list Qc) (d : list (list Qc)) (flag : bool),
    g = finite_grid (tab fsz n) c (tab fs n) d flag
    /\ n <> 0%nat
    /\ length c = n
    /\ length d = n
    /\ (forall row, In row d -> length row = n)
    /\ (forall i, (i < n)%nat -> 0 <= fsz i)
    /\ (forall i, (i < n)%nat -> 0 < fs i)
    /\ direction_check (lift d) = true.
Proof.
  intros Hv. apply valid_grid_parts in Hv. destruct Hv as (Hs & Hf & Hsz & Hsp & Hdc).
  apply grid_shape_ok_parts in Hs. destruct Hs as (Hn & Hc & Hp & Hm & Hr).
  destruct g as [sz ce sp di flag]. unfold ndim in *. unfold grid_finite in Hf.
  cbn [_size _center _spacing _direction _align_corners] in *.
  apply andb_true_iff in Hf. destruct Hf as [Hf Hfd].
  apply andb_true_iff in Hf. destruct Hf as [Hf Hfp].
  apply andb_true_iff in Hf. destruct Hf as [Hfs Hfc].
  destruct (all_finite_lift _ Hfs) as (qsz & ->).
  destruct (all_finite_lift _ Hfc) as (qc & ->).
  destruct (all_finite_lift _ Hfp) as (qs & ->).
  destruct (mat_finite_lift _ Hfd) as (qd & ->).
  rewrite !length_map in *. unfold lift in Hm, Hr. rewrite length_map in Hm.
  exists (length qsz), (fun i => nth i qsz 0), (fun i => nth i qs 0), qc, qd, flag.
  split; [| split; [| split; [| split; [| split; [| split; [| split]]]]]]; try assumption.
  - unfold finite_grid. rewrite <- Hp at 2. now rewrite !tab_nth.
  - intros row Hin. rewrite <- (Hr (map Fin row)); [now rewrite length_map |].
    now apply in_map.
  - intros i Hi. rewrite forallb_forall in Hsz.
    apply sleb_Fin. rewrite <- nth_map_Fin. apply Hsz. apply nth_In.
    now rewrite length_map.
  - intros i Hi. rewrite forallb_forall in Hsp.
    apply sltb_Fin. rewrite <- nth_map_Fin. apply (Hsp (nth i (map Fin qs) (Fin 0))).
    apply nth_In. rewrite length_map. lia.
Qed.

Lemma ndim_finite_grid (fsz : nat -> Qc) (n : nat) c s d flag :
  ndim (finite_grid (tab fsz n) c s d flag) = n.
Proof. unfold ndim, finite_grid. cbn [_size]. now rewrite length_map, length_tab. Qed.




Lemma cat_scalars_length (a : array) (num : nat) (v : vec) :
  cat_scalars a num = Ok v -> length v = num.
Proof.
  unfold cat_scalars. destruct (to_float a) as [x | l | m | z | l]; try discriminate.
  - intros H. inversion H. apply repeat_length.
  - destruct l as [| x [| y l]].
    + destruct (Nat.eqb_spec (length (@nil scalar)) num); intros H; inversion H; now subst.
    + intros H. inversion H. apply repeat_length.
    + destruct (Nat.eqb_spec (length (x :: y :: l)) num); intros H; inversion H; now subst.
Qed.

Lemma forallb_nth {A : Type} (P : A -> bool) (l : list A) (d : A) (i : nat) :
  forallb P l = true -> (i < length l)%nat -> P (nth i l d) = true.
Proof. intros H Hi. rewrite forallb_forall in H. apply H. now apply nth_In. Qed.

(** ** Halving and doubling: [downsample] then [upsample] *)

(** Updating every index in turn applies the function to every entry. *)
Lemma update_dims_all_aux {A : Type} (f : A -> A) (pre post : list A) :
  update_dims (seq (length pre) (length post)) f (pre ++ post) = Ok (pre ++ map f post).
Proof.
  revert pre. induction post as [| x post IH]; intros pre; cbn [length seq update_dims map].
  - reflexivity.
  - assert (H : update_at (length pre) f (pre ++ x :: post) = Ok (pre ++ f x :: post)).
    { clear IH. induction pre as [| y pre IHp]; cbn [length app update_at]; [reflexivity |].
      now rewrite IHp. }
    rewrite H. cbn [bind].
    replace (pre ++ f x :: post) with ((pre ++ [f x]) ++ post) by now rewrite <- app_assoc.
    replace (S (length pre)) with (length (pre ++ [f x])) by (rewrite length_app; simpl; lia).
    rewrite IH. now rewrite <- app_assoc.
Qed.

Lemma update_dims_all {A : Type} (f : A -> A) (v : list A) :
  update_dims (seq 0 (length v)) f v = Ok (map f v).
Proof. exact (update_dims_all_aux f [] v). Qed.

Lemma all_seqb_tab (f g : nat -> Qc) (n : nat) :
  all (map2 seqb (map Fin (tab f n)) (map Fin (tab g n))) = true
  <-> forall i, (i < n)%nat -> f i = g i.
Proof.
  unfold tab, all. fuse. rewrite forallb_forall. split.
  - intros H i Hi. apply seqb_Fin. apply H. apply in_map_iff. exists i. split; [reflexivity |].
    apply in_seq. lia.
  - intros H b Hb. apply in_map_iff in Hb. destruct Hb as (i & <- & Hi).
    apply in_seq in Hi. apply seqb_Fin. apply H. lia.
Qed.

Lemma pow2_1 : pow2 1 = Qz 2.
Proof. reflexivity. Qed.

Lemma Qc_half_double (q : Qc) : q / Qz 2 * Qz 2 = q.
Proof. field. exact Qz_2_neq_0. Qed.

Lemma Qc_half_0 : 0 / Qz 2 = 0.
Proof. field. exact Qz_2_neq_0. Qed.

Lemma Qc_half_order (q : Qc) :
  (0 < q -> 0 < q / Qz 2) /\ (Qz 2 < q -> 1 < q / Qz 2) /\ (Qz 2 <= q -> 1 <= q / Qz 2).
Proof.
  pose proof (Qc_half_double q) as E. set (h := q / Qz 2) in *. clearbody h. subst q.
  repeat apply conj; intros H; qc_order.
Qed.

(** The condition [halvable] on a finite size. *)
Lemma halvable_Fin (aligned : bool) (q : Qc) :
  halvable aligned (Fin q) = true ->
  q = 0 \/ (0 < q /\ if aligned then Qz 2 < q else Qz 2 <= q).
Proof.
  unfold halvable. intros H. apply orb_true_iff in H. destruct H as [H | H].
  - left. now apply seqb_Fin.
  - right. destruct aligned.
    + apply sltb_Fin in H. split; [qc_order | exact H].
    + apply sleb_Fin in H. split; [qc_order | exact H].
Qed.

Lemma halve_Fin (aligned : bool) (q : Qc) :
  q = 0 \/ (0 < q /\ if aligned then Qz 2 < q else Qz 2 <= q) ->
  (if sgeb (sdiv (Fin q) (Fin (pow2 1))) (Fz 1) then sdiv (Fin q) (Fin (pow2 1)) else Fin q)
  = Fin (q / Qz 2).
Proof.
  intros H. rewrite pow2_1, sdiv_Fin by exact Qz_2_neq_0.
  destruct (sgeb (Fin (q / Qz 2)) (Fz 1)) eqn:E; [reflexivity |].
  destruct H as [-> | [_ H]]; [now rewrite Qc_half_0 |].
  exfalso. unfold sgeb, Fz in E. apply sleb_Fin_false in E.
  destruct (Qc_half_order q) as (_ & H1 & H2).
  destruct aligned; [specialize (H1 H) | specialize (H2 H)]; qc_order.
Qed.

Lemma halved_axis_ok (aligned : bool) (q : Qc) :
  q = 0 \/ (0 < q /\ if aligned then Qz 2 < q else Qz 2 <= q) ->
  axis_ok aligned q (q / Qz 2).
Proof.
  intros [-> | [Hq H]]; [left; split; [reflexivity | exact Qc_half_0] | right].
  split; [exact Hq |]. destruct (Qc_half_order q) as (_ & H1 & H2). destruct aligned.
  - apply qceil_gt1. auto.
  - apply qceil_ge1. auto.
Qed.

Lemma doubled_axis_ok (aligned : bool) (q : Qc) :
  q = 0 \/ (0 < q /\ if aligned then Qz 2 < q else Qz 2 <= q) ->
  axis_ok aligned (q / Qz 2) (q / Qz 2 * Qz 2).
Proof.
  rewrite Qc_half_double.
  intros [-> | [Hq H]]; [left; split; [exact Qc_half_0 | reflexivity] | right].
  split; [now apply Qc_half_order |]. destruct aligned.
  - apply qceil_ge2. qc_order.
  - apply qceil_pos. exact Hq.
Qed.

(** Halving and doubling an axis gives back its spacing. *)
Lemma respace_round_trip (aligned : bool) (q s : Qc) :
  q = 0 \/ (0 < q /\ if aligned then Qz 2 < q else Qz 2 <= q) ->
  qrespace aligned (q / Qz 2) (qrespace aligned q s (q / Qz 2)) (q / Qz 2 * Qz 2) = s.
Proof.
  rewrite Qc_half_double. unfold qrespace. intros [-> | [Hq H]].
  - rewrite Qc_half_0. reflexivity.
  - destruct (Qc_half_order q) as (H0 & H1 & H2).
    rewrite (Qc_ltb_true (H0 Hq)), (Qc_ltb_true Hq).
    destruct aligned.
    + pose proof (qceil_gt1 (H1 H)) as Ha.
      assert (Hb : Qz 2 <= qceil q) by (apply qceil_ge2; qc_order).
      field. split; qc_order.
    + pose proof (qceil_ge1 (H2 H)) as Ha.
      pose proof (qceil_pos Hq) as Hb.
      field. split; qc_order.
Qed.

(** C4 as stated fails.  On the 1 x 1 grid halving would fall below
    [min_size], so [downsample(1)] returns the grid itself and [upsample(1)]
    then doubles it: the result has size 2 x 2 and does not compare equal to
    the original.  On the 2 x 2 grid with aligned corners [downsample(1)]
    divides by [size - 1 = 0] and its origin assertion fails. *)
Lemma downsample_upsample_differs :
  (exists g2,
     downsample (plain_grid [1; 1]%Z false) 1 None 1 None = Ok (plain_grid [1; 1]%Z false)
     /\ upsample (plain_grid [1; 1]%Z false) 1 None None = Ok g2
     /\ _size g2 = [Fz 2; Fz 2]
     /\ grid_eq g2 (plain_grid [1; 1]%Z false) = false)
  /\ downsample (plain_grid [2; 2]%Z true) 1 None 1 None = Raise AssertionError.
Proof.
  split; [| vm_compute; reflexivity].
  eexists. split; [vm_compute; reflexivity |].
  split; [vm_compute; reflexivity |].
  split; vm_compute; reflexivity.
Qed.

(** ** Cropping and padding: [crop] and [pad] undo each other *)

Lemma cat_scalars_Vector (v : vec) (num : nat) :
  length v = num -> cat_scalars (Vector v) num = Ok v.
Proof.
  intros <-. unfold cat_scalars. cbn [to_float].
  destruct v as [| x [| y v]]; try reflexivity. now rewrite Nat.eqb_refl.
Qed.

Lemma sclamp_min_Fin (m q : Qc) : sclamp_min (Fin m) (Fin q) = Fin (qclamp_min m q).
Proof.
  unfold sclamp_min, qclamp_min. destruct (Qc_ltb q m) eqn:E.
  - apply Qc_ltb_lt in E. now rewrite (proj2 (sltb_Fin q m) E).
  - apply Qc_ltb_ge in E. now rewrite (proj2 (sltb_Fin_false q m) E).
Qed.

Lemma map2_combine {A B C : Type} (f : A -> B -> C) (a : list A) (b : list B) :
  map2 f a b = map (fun x => f (fst x) (snd x)) (combine a b).
Proof.
  revert b. induction a as [| x a IH]; intros [| y b]; simpl; try reflexivity.
  now rewrite IH.
Qed.

Lemma combine_fst {A B : Type} (a : list A) (b : list B) :
  length a = length b -> map fst (combine a b) = a.
Proof.
  revert b. induction a as [| x a IH]; intros [| y b] H; simpl in *; try congruence.
  f_equal. apply IH. lia.
Qed.

Lemma combine_snd {A B : Type} (a : list A) (b : list B) :
  length a = length b -> map snd (combine a b) = b.
Proof.
  revert b. induction a as [| x a IH]; intros [| y b] H; simpl in *; try congruence.
  f_equal. apply IH. lia.
Qed.

Lemma transform_grid_world (g : Grid) :
  transform g (Some GRID) (Some WORLD) None false
  = homogeneous_matrix (affine g) (Vector (origin g)).
Proof.
  unfold transform. cbn [transform_rec transform_body Axes_eqb negb].
  destruct (homogeneous_matrix (affine g) (Vector (origin g))); reflexivity.
Qed.

Lemma length_qscale_cols d s : length (qscale_cols d s) = length d.
Proof. apply length_map. Qed.


Lemma nth_app_exact {A : Type} (l : list A) (x d : A) (n : nat) :
  length l = n -> nth n (l ++ [x]) d = x.
Proof. intros <-. rewrite app_nth2, Nat.sub_diag; [reflexivity | lia]. Qed.

(** A point through a homogeneous matrix: the linear part, then the
    translation. *)
Lemma homogeneous_point (L : mat) (t point : vec) (n : nat) :
  n <> 0%nat -> length L = n -> length t = n -> length point = n ->
  (forall row, In row L -> length row = n) ->
  homogeneous_transform (map2 (fun row ti => row ++ [ti]) L t) point false
  = Ok (vadd (matvec L point) t).
Proof.
  intros Hn HL Ht Hp Hr. rewrite map2_combine.
  set (M := map _ (combine L t)).
  assert (HM : length M = n).
  { unfold M. rewrite length_map, length_combine, HL, Ht. apply Nat.min_id. }
  assert (Hrow : forall x, In x (combine L t) -> length (fst x) = n).
  { intros [r ti] Hin. apply in_combine_l in Hin. now apply Hr. }
  assert (H1 : rows_have n M = false).
  { unfold rows_have, M. destruct (combine L t) as [| x l] eqn:E.
    - apply (f_equal (@length _)) in E. rewrite length_combine, HL, Ht, Nat.min_id in E.
      simpl in E. congruence.
    - cbn [map forallb]. rewrite length_app, (Hrow x (or_introl eq_refl)). cbn [length].
      destruct (Nat.eqb_spec (n + 1) n); [lia | reflexivity]. }
  assert (H2 : rows_have (S n) M = true).
  { unfold rows_have, M. apply forallb_forall. intros r Hin. apply in_map_iff in Hin.
    destruct Hin as (x & <- & Hin). rewrite length_app, (Hrow x Hin). cbn [length].
    apply Nat.eqb_eq. lia. }
  unfold homogeneous_transform, as_affine. rewrite HM, H1, H2. cbn [bind].
  rewrite Hp, Nat.eqb_refl. cbn [negb raise_if].
  assert (E1 : map (firstn n) M = L).
  { unfold M. rewrite map_map. rewrite <- (combine_fst L t) at 2 by congruence.
    apply map_ext_in. intros x Hin. apply firstn_app_exact. now apply Hrow. }
  assert (E2 : map (fun row => nth n row (Fin 0)) M = t).
  { unfold M. rewrite map_map. rewrite <- (combine_snd L t) at 2 by congruence.
    apply map_ext_in. intros x Hin. apply nth_app_exact. now apply Hrow. }
  now rewrite E1, E2.
Qed.

(** The point of index [p] in world coordinates. *)
Lemma index_to_world_finite (size c s p : list Qc) (d : list (list Qc)) (flag : bool) :
  let n := length s in
  n <> 0%nat -> length c = n -> length d = n -> length p = n ->
  (forall row, In row d -> length row = n) ->
  index_to_world (finite_grid size c s d flag) (map Fin p) (Some (-1)%Z)
  = Ok (map Fin (map2 Qcplus (qmatvec (qscale_cols d s) p) (qorigin size c s d))).
Proof.
  intros n Hn Hc Hd Hp Hr.
  unfold index_to_world, transform_points, apply_transform.
  cbn [Axes_eqb negb orb]. rewrite transform_grid_world.
  unfold finite_grid. rewrite origin_finite by assumption.
  unfold affine, direction, spacing. cbn [_direction _spacing].
  rewrite mm_diag_Fin by assumption.
  set (A := qscale_cols d s). set (o := qorigin size c s d).
  assert (HA : length A = n) by (unfold A; now rewrite length_qscale_cols).
  assert (HAr : forall row, In row A -> length row = n).
  { intros row Hin. unfold A, qscale_cols in Hin. apply in_map_iff in Hin.
    destruct Hin as (r & <- & Hin). rewrite length_map2, (Hr r Hin). apply Nat.min_id. }
  assert (Ho : length o = n).
  { unfold o, qorigin. rewrite length_map2, length_qmatvec, Hc, Hd. apply Nat.min_id. }
  unfold homogeneous_matrix.
  rewrite cat_scalars_Vector by (unfold lift; now rewrite !length_map, HA, Ho).
  cbn [bind].
  rewrite (@homogeneous_point _ _ _ n); try assumption.
  - now rewrite matvec_Fin, vadd_Fin.
  - unfold lift. now rewrite length_map.
  - now rewrite length_map.
  - now rewrite length_map.
  - intros row Hin. unfold lift in Hin. apply in_map_iff in Hin.
    destruct Hin as (r & <- & Hin). rewrite length_map. now apply HAr.
Qed.


Lemma clamp_nonneg (size : list Qc) :
  (forall q, In q size -> 0 <= q) -> map (sclamp_min (Fin 0)) (map Fin size) = map Fin size.
Proof.
  intros H. rewrite map_map. apply map_ext_in. intros q Hq.
  apply sclamp_min_id. apply sleb_Fin. now apply H.
Qed.

Lemma any_sleb_positive (s : list Qc) :
  (forall q, In q s -> 0 < q) -> any (map (fun x => sleb x (Fin 0)) (map Fin s)) = false.
Proof.
  intros H. unfold any. induction s as [| q s IH]; [reflexivity |].
  cbn [map existsb]. rewrite IH by (intros; apply H; now right).
  rewrite orb_false_r. apply sleb_Fin_false. apply H. now left.
Qed.

Lemma rows_have_lift (d : list (list Qc)) (n : nat) :
  (forall row, In row d -> length row = n) -> rows_have n (lift d) = true.
Proof.
  intros H. unfold rows_have, lift. apply forallb_forall. intros r Hin.
  apply in_map_iff in Hin. destruct Hin as (row & <- & Hin).
  rewrite length_map. apply Nat.eqb_eq. now apply H.
Qed.

(** The constructor called with an origin, on finite arguments. *)
Lemma Grid_init_origin_finite (size o s : list Qc) (d : list (list Qc)) (ac : pyobj) :
  let n := length size in
  n <> 0%nat -> length o = n -> length s = n -> length d = n ->
  (forall row, In row d -> length row = n) ->
  (forall q, In q size -> 0 <= q) -> (forall q, In q s -> 0 < q) ->
  direction_check (lift d) = true ->
  Grid_init (Some (Vector (map Fin size))) None None (Some (Vector (map Fin o)))
    (Some (Vector (map Fin s))) (Some (Matrix (lift d))) ac
  = Ok (finite_grid size
          (map2 Qcplus o (qmatvec (qscale_cols d s) (map qoff (map qceil size))))
          s d (py_bool ac)).
Proof.
  intros n Hn Ho Hs Hd Hr Hsz Hsp Hdc.
  unfold Grid_init, as_size_tensor. cbn [to_float].
  rewrite length_map. fold n.
  destruct (Nat.eqb_spec n 0) as [E | _]; [contradiction |]. cbn [raise_if bind].
  rewrite clamp_nonneg by assumption.
  unfold spacing_, ndim. cbn [_size _center _spacing _direction _align_corners].
  rewrite length_map. fold n.
  rewrite cat_scalars_Vector by now rewrite length_map.
  cbn [bind]. rewrite any_sleb_positive by assumption. cbn [raise_if bind].
  unfold direction_, ndim. cbn [_size _center _spacing _direction _align_corners to_float].
  rewrite length_map. fold n.
  assert (Hl : length (lift d) = n) by (unfold lift; now rewrite length_map).
  rewrite Hl, rows_have_lift by assumption.
  rewrite Nat.eqb_refl. cbn [negb orb raise_if bind].
  unfold direction_check in Hdc. apply negb_true_iff in Hdc. rewrite Hdc.
  cbn [raise_if bind].
  unfold origin_, ndim. cbn [_size _center _spacing _direction _align_corners].
  rewrite length_map. fold n.
  rewrite cat_scalars_Vector by now rewrite length_map.
  cbn [bind]. unfold affine, direction, spacing, size_tensor.
  cbn [_size _center _spacing _direction _align_corners].
  rewrite mm_diag_Fin by (intros; rewrite Hs; now apply Hr).
  rewrite _round_size_Fin, center_offset_Fin, matvec_Fin, vadd_Fin.
  reflexivity.
Qed.

(** *** The tuple of border counts *)

Lemma tab_S {A : Type} (f : nat -> A) (n : nat) :
  tab f (S n) = f 0%nat :: tab (fun i => f (S i)) n.
Proof. unfold tab. cbn [seq map]. now rewrite <- seq_shift, map_map. Qed.

Lemma In_tab {A : Type} (f : nat -> A) (n : nat) (x : A) :
  In x (tab f n) -> exists i, (i < n)%nat /\ x = f i.
Proof.
  unfold tab. intros H. apply in_map_iff in H. destruct H as (i & <- & Hi).
  apply in_seq in Hi. exists i. split; [lia | reflexivity].
Qed.

Lemma evens_odds_tab {A : Type} (d : A) (n : nat) (l : list A) :
  length l = (2 * n)%nat ->
  evens l = tab (fun i => nth (2 * i) l d) n
  /\ odds l = tab (fun i => nth (2 * i + 1) l d) n.
Proof.
  revert l. induction n as [| n IH]; intros l H.
  - destruct l; [split; reflexivity | discriminate H].
  - destruct l as [| x [| y l]]; try (simpl in H; lia).
    assert (H' : length l = (2 * n)%nat) by (simpl in H; lia).
    destruct (IH l H') as [He Ho]. rewrite !tab_S. cbn [evens odds].
    rewrite He, Ho. split; f_equal; apply tab_ext; intros i _.
    + replace (2 * S i)%nat with (S (S (2 * i))) by lia. reflexivity.
    + replace (2 * S i + 1)%nat with (S (S (2 * i + 1))) by lia. reflexivity.
Qed.

Lemma length_full_counts (n : nat) (cnt : list Z) :
  (length cnt <= 2 * n)%nat -> length (full_counts n cnt) = (2 * n)%nat.
Proof. intros H. unfold full_counts. rewrite length_app, repeat_length. lia. Qed.

Lemma evens_counts (n : nat) (num : list Z) :
  length num = (2 * n)%nat -> evens (map Fz num) = map Fin (tab (border_lo num) n).
Proof.
  intros H. rewrite (proj1 (@evens_odds_tab _ (Fz 0) n (map Fz num)
                                (eq_trans (length_map _ _) H))).
  unfold tab. rewrite map_map. apply map_ext. intros i. apply (map_nth Fz num 0%Z).
Qed.

Lemma odds_counts (n : nat) (num : list Z) :
  length num = (2 * n)%nat -> odds (map Fz num) = map Fin (tab (border_hi num) n).
Proof.
  intros H. rewrite (proj2 (@evens_odds_tab _ (Fz 0) n (map Fz num)
                                (eq_trans (length_map _ _) H))).
  unfold tab. rewrite map_map. apply map_ext. intros i. apply (map_nth Fz num 0%Z).
Qed.

Lemma nth_nonneg (l : list Z) (i : nat) :
  Forall (fun z => (0 <= z)%Z) l -> (0 <= nth i l 0)%Z.
Proof.
  intros H. destruct (nth_in_or_default i l 0%Z) as [Hin | ->]; [| lia].
  rewrite Forall_forall in H. now apply H.
Qed.

Lemma full_counts_nonneg (n : nat) (cnt : list Z) :
  Forall (fun z => (0 <= z)%Z) cnt -> Forall (fun z => (0 <= z)%Z) (full_counts n cnt).
Proof.
  intros H. unfold full_counts. apply Forall_app. split; [assumption |].
  apply Forall_forall. intros z Hz. apply repeat_spec in Hz. lia.
Qed.

Lemma border_counts_ndim (g h : Grid) args margin num :
  ndim g = ndim h -> border_counts g args margin num = border_counts h args margin num.
Proof. intros E. unfold border_counts. now rewrite E. Qed.

(** *** The grid [crop] and [pad] construct *)

Lemma regrid_finite (fsz fs fsz' fp : nat -> Qc) (n : nat) (c : list Qc)
    (d : list (list Qc)) (flag : bool) :
  n <> 0%nat -> length c = n -> length d = n ->
  (forall row, In row d -> length row = n) ->
  (forall i, (i < n)%nat -> 0 <= fsz' i) ->
  (forall i, (i < n)%nat -> 0 < fs i) ->
  direction_check (lift d) = true ->
  (origin' <- index_to_world (finite_grid (tab fsz n) c (tab fs n) d flag)
                (map Fin (tab fp n)) (Some (-1)%Z) ;;
   Grid_init (Some (Vector (map Fin (tab fsz' n)))) None None (Some (Vector origin'))
     (Some (Vector (spacing (finite_grid (tab fsz n) c (tab fs n) d flag))))
     (Some (Matrix (direction (finite_grid (tab fsz n) c (tab fs n) d flag))))
     PyBoundMethod)
  = Ok (finite_grid (tab fsz' n)
          (qrecenter (tab fsz n) c (tab fs n) d (tab fp n) (tab fsz' n))
          (tab fs n) d true).
Proof.
  intros Hn Hc Hd Hr Hsz Hsp Hdc.
  rewrite index_to_world_finite; rewrite ?length_tab; try assumption.
  cbn [bind]. unfold spacing, direction, finite_grid at 1 2.
  cbn [_spacing _direction].
  rewrite Grid_init_origin_finite; rewrite ?length_tab; try assumption;
    try reflexivity.
  - rewrite length_map2, length_qmatvec, length_qscale_cols.
    unfold qorigin. rewrite length_map2, length_qmatvec, Hc, Hd. now rewrite !Nat.min_id.
  - intros q Hq. apply In_tab in Hq. destruct Hq as (i & Hi & ->). now apply Hsz.
  - intros q Hq. apply In_tab in Hq. destruct Hq as (i & Hi & ->). now apply Hsp.
  - reflexivity.
Qed.

Lemma ssub_Fin (a b : Qc) : ssub (Fin a) (Fin b) = Fin (a - b).
Proof. reflexivity. Qed.

Lemma sadd_Fin (a b : Qc) : sadd (Fin a) (Fin b) = Fin (a + b).
Proof. reflexivity. Qed.

Lemma qclamp_min_nonneg (q : Qc) : 0 <= qclamp_min 1 q.
Proof.
  unfold qclamp_min. destruct (Qc_ltb q 1) eqn:E; [qc_order |].
  apply Qc_ltb_ge in E. qc_order.
Qed.

Section CropPad.

Variables (fsz fs : nat -> Qc) (n : nat) (c : list Qc) (d : list (list Qc)) (flag : bool).
Hypothesis (Hn : n <> 0%nat) (Hc : length c = n) (Hd : length d = n).
Hypothesis (Hr : forall row, In row d -> length row = n).
Hypothesis (Hsz : forall i, (i < n)%nat -> 0 <= fsz i).
Hypothesis (Hsp : forall i, (i < n)%nat -> 0 < fs i).
Hypothesis (Hdc : direction_check (lift d) = true).

Variables (args : list margin_arg) (margin num : option margin_arg) (cnt : list Z).
Hypothesis (Hcnt : border_counts (finite_grid (tab fsz n) c (tab fs n) d flag)
                     args margin num = Ok cnt).
Hypothesis (Hnz : forallb (fun z => (z =? 0)%Z) cnt = false).
Hypothesis (Hlen : (length cnt <= 2 * n)%nat).

Lemma crop_tab :
  let full := full_counts n cnt in
  let fsz' := fun i => qcropped (fsz i) (border_lo full i) (border_hi full i) in
  crop (finite_grid (tab fsz n) c (tab fs n) d flag) args margin num
  = Ok (finite_grid (tab fsz' n)
          (qrecenter (tab fsz n) c (tab fs n) d (tab (border_lo full) n) (tab fsz' n))
          (tab fs n) d true).
Proof.
  intros full fsz'. unfold crop. rewrite Hcnt. cbn [bind]. rewrite Hnz.
  rewrite ndim_finite_grid. fold (full_counts n cnt). fold full.
  assert (Hfull : length full = (2 * n)%nat) by now apply length_full_counts.
  rewrite Hfull, Nat.eqb_refl. cbn [negb raise_if].
  rewrite (@evens_counts n full Hfull), (@odds_counts n full Hfull).
  replace (vwhere _ _ _) with (map Fin (tab fsz' n)).
  - apply regrid_finite; try assumption.
    intros i Hi. unfold fsz', qcropped.
    destruct (Qc_ltb 0 (fsz i)); [apply qclamp_min_nonneg | now apply Hsz].
  - unfold finite_grid. cbn [_size]. unfold vsub, tab. fuse.
    apply map_ext. intros i. rewrite sgtb_Fin_0, !ssub_Fin, sclamp_min_Fin.
    unfold fsz', qcropped. now destruct (Qc_ltb 0 (fsz i)).
Qed.

Lemma pad_tab :
  let full := full_counts n cnt in
  let fsz' := fun i => qpadded (fsz i) (border_lo full i) (border_hi full i) in
  pad (finite_grid (tab fsz n) c (tab fs n) d flag) args margin num
  = Ok (finite_grid (tab fsz' n)
          (qrecenter (tab fsz n) c (tab fs n) d
             (tab (fun i => - border_lo full i) n) (tab fsz' n))
          (tab fs n) d true).
Proof.
  intros full fsz'. unfold pad. rewrite Hcnt. cbn [bind]. rewrite Hnz.
  rewrite ndim_finite_grid. fold (full_counts n cnt). fold full.
  assert (Hfull : length full = (2 * n)%nat) by now apply length_full_counts.
  rewrite Hfull, Nat.eqb_refl. cbn [negb raise_if].
  rewrite (@evens_counts n full Hfull), (@odds_counts n full Hfull).
  replace (vwhere _ _ _) with (map Fin (tab fsz' n)).
  - rewrite vneg_Fin.
    replace (map Qcopp (tab (border_lo full) n)) with (tab (fun i => - border_lo full i) n)
      by (unfold tab; now rewrite map_map).
    apply regrid_finite; try assumption.
    intros i Hi. unfold fsz', qpadded.
    destruct (Qc_ltb 0 (fsz i)); [apply qclamp_min_nonneg | now apply Hsz].
  - unfold finite_grid. cbn [_size]. unfold vadd, tab. fuse.
    apply map_ext. intros i. rewrite sgtb_Fin_0, !sadd_Fin, sclamp_min_Fin.
    unfold fsz', qpadded. now destruct (Qc_ltb 0 (fsz i)).
Qed.

End CropPad.

(** *** Round trips *)

Lemma map2_mult_opp (s v : list Qc) :
  map2 Qcmult s (map Qcopp v) = map Qcopp (map2 Qcmult s v).
Proof.
  revert v. induction s as [| x s IH]; intros [| y v]; simpl; try reflexivity.
  rewrite IH. f_equal. ring.
Qed.

(** Moving the origin by [p] and then by [p'], the opposite of [p], and
    taking the size back gives the centre back. *)
Lemma qrecenter_round_trip (size size1 c s p p' : list Qc) (d : list (list Qc)) :
  length c = length d ->
  (forall row, qdot row (map2 Qcmult s p') = - qdot row (map2 Qcmult s p)) ->
  qrecenter size1 (qrecenter size c s d p size1) s d p' size = c.
Proof.
  intros Hc Hopp. unfold qrecenter, qorigin. rewrite !qmatvec_scale. unfold qmatvec.
  revert c Hc. induction d as [| row d IH]; intros [| x c] Hc; try discriminate Hc.
  - reflexivity.
  - cbn [map map2]. f_equal.
    + rewrite Hopp. ring.
    + apply IH. now inversion Hc.
Qed.

Lemma qclamp_min_id (q : Qc) : 1 <= q -> qclamp_min 1 q = q.
Proof.
  intros H. unfold qclamp_min. destruct (Qc_ltb q 1) eqn:E; [| reflexivity].
  apply Qc_ltb_lt in E. qc_order.
Qed.

Lemma pad_crop_size (q lo hi : Qc) :
  q = 0 \/ 1 <= q -> 0 <= lo -> 0 <= hi -> qcropped (qpadded q lo hi) lo hi = q.
Proof.
  intros [-> | Hq] Hlo Hhi; unfold qpadded, qcropped.
  - now rewrite Qc_ltb_0_0, Qc_ltb_0_0.
  - rewrite (@Qc_ltb_true 0 q) by qc_order.
    rewrite (@qclamp_min_id (q + lo + hi)) by qc_order.
    rewrite (@Qc_ltb_true 0 (q + lo + hi)) by qc_order.
    replace (q + lo + hi - lo - hi) with q by ring. now apply qclamp_min_id.
Qed.

Lemma crop_pad_size (q lo hi : Qc) :
  q = 0 \/ (0 < q /\ 1 <= q - lo - hi) -> 0 <= lo -> 0 <= hi ->
  qpadded (qcropped q lo hi) lo hi = q.
Proof.
  intros [-> | [Hq H]] Hlo Hhi; unfold qpadded, qcropped.
  - now rewrite Qc_ltb_0_0, Qc_ltb_0_0.
  - rewrite (Qc_ltb_true Hq). rewrite (@qclamp_min_id (q - lo - hi)) by assumption.
    rewrite (@Qc_ltb_true 0 (q - lo - hi)) by qc_order.
    replace (q - lo - hi + lo + hi) with q by ring. apply qclamp_min_id. qc_order.
Qed.

Lemma border_lo_nonneg (num : list Z) (i : nat) :
  Forall (fun z => (0 <= z)%Z) num -> 0 <= border_lo num i.
Proof. intros H. apply Qz_nonneg. now apply nth_nonneg. Qed.

Lemma border_hi_nonneg (num : list Z) (i : nat) :
  Forall (fun z => (0 <= z)%Z) num -> 0 <= border_hi num i.
Proof. intros H. apply Qz_nonneg. now apply nth_nonneg. Qed.

Lemma mat_eqb_refl (m : mat) : mat_eqb m m = true.
Proof. apply list_eqb_refl. exact vec_eqb_refl. Qed.

Lemma same_attributes_flag (size c s : vec) (d : mat) (a b : bool) :
  same_attributes (mkGrid size c s d a) (mkGrid size c s d b) = true.
Proof.
  unfold same_attributes. cbn [_size _center _spacing _direction].
  now rewrite !vec_eqb_refl, mat_eqb_refl.
Qed.

Lemma whole_sizes_tab (fsz fs : nat -> Qc) (n : nat) c d flag :
  whole_sizes (finite_grid (tab fsz n) c (tab fs n) d flag) = true ->
  forall i, (i < n)%nat -> fsz i = 0 \/ 1 <= fsz i.
Proof.
  unfold whole_sizes, finite_grid. cbn [_size]. intros H i Hi.
  assert (Hi' : (i < length (map Fin (tab fsz n)))%nat) by now rewrite length_map, length_tab.
  pose proof (forallb_nth _ _ (Fin 0) H Hi') as E.
  rewrite nth_map_Fin in E. unfold tab in E. rewrite nth_map_seq in E by assumption.
  apply orb_true_iff in E. destruct E as [E | E].
  - left. now apply seqb_Fin.
  - right. now apply sleb_Fin.
Qed.

Lemma crop_unclamped_tab (fsz fs : nat -> Qc) (n : nat) c d flag (cnt : list Z) :
  (length cnt <= 2 * n)%nat ->
  (forall i, (i < n)%nat -> 0 <= fsz i) ->
  crop_unclamped (finite_grid (tab fsz n) c (tab fs n) d flag) cnt = true ->
  forall i, (i < n)%nat ->
    fsz i = 0
    \/ (0 < fsz i
        /\ 1 <= fsz i - border_lo (full_counts n cnt) i - border_hi (full_counts n cnt) i).
Proof.
  intros Hlen Hsz H i Hi. unfold crop_unclamped in H. rewrite ndim_finite_grid in H.
  pose proof (length_full_counts n cnt Hlen) as Hfull.
  rewrite (@evens_counts n _ Hfull), (@odds_counts n _ Hfull) in H.
  unfold finite_grid in H. cbn [_size] in H. unfold all, vsub, tab in H. revert H. fuse.
  intros H. rewrite forallb_forall in H.
  specialize (H _ (in_map _ _ i (proj2 (in_seq n 0 i) (conj (Nat.le_0_l i) Hi)))).
  cbv beta in H. rewrite sgtb_Fin_0, !ssub_Fin in H.
  destruct (Qc_ltb 0 (fsz i)) eqn:E.
  - right. split; [now apply Qc_ltb_lt |]. now apply sleb_Fin.
  - left. apply Qc_ltb_ge in E. specialize (Hsz i Hi). qc_order.
Qed.

Lemma nonneg_counts (cnt : list Z) :
  forallb (fun z => (0 <=? z)%Z) cnt = true -> Forall (fun z => (0 <= z)%Z) cnt.
Proof.
  intros H. apply Forall_forall. intros z Hz. rewrite forallb_forall in H.
  apply Z.leb_le. now apply H.
Qed.

Lemma same_attributes_refl (g : Grid) : same_attributes g g = true.
Proof. destruct g. apply same_attributes_flag. Qed.

(** With the exact numbers of the model (the centre is the attribute the
    source computes with rounding here), [pad] followed by [crop] with the
    same arguments: for a valid grid whose
    stored sizes are all 0 or at least 1 and border counts that are not
    negative (and at most two per axis), both calls return and the final
    grid has exactly the size, centre, spacing and direction of the first;
    it compares equal to it under [__eq__]. *)
Lemma pad_then_crop_exact (g : Grid) (args : list margin_arg) (margin num : option margin_arg)
    (cnt : list Z) :
  valid_grid g = true ->
  whole_sizes g = true ->
  border_counts g args margin num = Ok cnt ->
  forallb (fun z => (0 <=? z)%Z) cnt = true ->
  (length cnt <= 2 * ndim g)%nat ->
  exists g1 g2,
    pad g args margin num = Ok g1 /\ crop g1 args margin num = Ok g2
    /\ same_attributes g2 g = true /\ grid_eq g2 g = true.
Proof.
  intros Hv Hw Hcnt Hpos Hlen. apply nonneg_counts in Hpos.
  assert (Hfin : grid_finite g = true) by (apply valid_grid_parts in Hv; tauto).
  pose proof (grid_eq_refl g Hfin) as Heq. clear Hfin.
  destruct (forallb (fun z => (z =? 0)%Z) cnt) eqn:Hz.
  { exists g, g. unfold pad, crop. rewrite Hcnt. cbn [bind]. rewrite Hz.
    repeat apply conj; try reflexivity; [apply same_attributes_refl | exact Heq]. }
  destruct (valid_grid_presented _ Hv)
    as (n & fsz & fs & c & d & flag & Hg & Hn & Hc & Hd & Hr & Hsz & Hsp & Hdc).
  subst g. rewrite ndim_finite_grid in Hlen. clear Hv.
  pose proof (@whole_sizes_tab fsz fs n c d flag Hw) as Hax. clear Hw.
  set (full := full_counts n cnt).
  assert (Hfull : Forall (fun z => (0 <= z)%Z) full) by now apply full_counts_nonneg.
  set (fsz1 := fun i => qpadded (fsz i) (border_lo full i) (border_hi full i)).
  set (c1 := qrecenter (tab fsz n) c (tab fs n) d (tab (fun i => - border_lo full i) n)
               (tab fsz1 n)).
  assert (Hc1 : length c1 = n).
  { unfold c1, qrecenter, qorigin.
    rewrite !length_map2, !length_qmatvec, length_qscale_cols, Hc, Hd.
    now rewrite !Nat.min_id. }
  assert (Hsz1 : forall i, (i < n)%nat -> 0 <= fsz1 i).
  { intros i Hi. unfold fsz1, qpadded.
    destruct (Qc_ltb 0 (fsz i)); [apply qclamp_min_nonneg | now apply Hsz]. }
  exists (finite_grid (tab fsz1 n) c1 (tab fs n) d true).
  exists (finite_grid (tab fsz n) c (tab fs n) d true).
  split; [now apply pad_tab |]. split.
  - rewrite (@crop_tab fsz1 fs n c1 d true) with (cnt := cnt); try assumption.
    + fold full. f_equal. unfold finite_grid.
      assert (E : tab (fun i => qcropped (fsz1 i) (border_lo full i) (border_hi full i)) n
                  = tab fsz n).
      { apply tab_ext. intros i Hi. apply pad_crop_size;
          [now apply Hax | now apply border_lo_nonneg | now apply border_hi_nonneg]. }
      rewrite E. f_equal. f_equal. unfold c1. apply qrecenter_round_trip; [congruence |].
      intros row.
      replace (tab (fun i => - border_lo full i) n) with (map Qcopp (tab (border_lo full) n))
        by (unfold tab; now rewrite map_map).
      rewrite map2_mult_opp, qdot_opp_r. ring.
    + rewrite <- Hcnt. apply border_counts_ndim. now rewrite !ndim_finite_grid.
  - split; [apply same_attributes_flag | exact Heq].
Qed.

(** With the exact numbers of the model, [crop] followed by [pad] with the
    same arguments: for a valid grid and
    border counts that are not negative, if the crop leaves at least one
    point on every non-empty axis (the floor of 1 is not triggered), both
    calls return and the final grid has exactly the size, centre, spacing and
    direction of the first; it compares equal to it under [__eq__]. *)
Lemma crop_then_pad_exact (g : Grid) (args : list margin_arg) (margin num : option margin_arg)
    (cnt : list Z) :
  valid_grid g = true ->
  border_counts g args margin num = Ok cnt ->
  forallb (fun z => (0 <=? z)%Z) cnt = true ->
  (length cnt <= 2 * ndim g)%nat ->
  crop_unclamped g cnt = true ->
  exists g1 g2,
    crop g args margin num = Ok g1 /\ pad g1 args margin num = Ok g2
    /\ same_attributes g2 g = true /\ grid_eq g2 g = true.
Proof.
  intros Hv Hcnt Hpos Hlen Hw. apply nonneg_counts in Hpos.
  assert (Hfin : grid_finite g = true) by (apply valid_grid_parts in Hv; tauto).
  pose proof (grid_eq_refl g Hfin) as Heq. clear Hfin.
  destruct (forallb (fun z => (z =? 0)%Z) cnt) eqn:Hz.
  { exists g, g. unfold pad, crop. rewrite Hcnt. cbn [bind]. rewrite Hz.
    repeat apply conj; try reflexivity; [apply same_attributes_refl | exact Heq]. }
  destruct (valid_grid_presented _ Hv)
    as (n & fsz & fs & c & d & flag & Hg & Hn & Hc & Hd & Hr & Hsz & Hsp & Hdc).
  subst g. rewrite ndim_finite_grid in Hlen. clear Hv.
  pose proof (@crop_unclamped_tab fsz fs n c d flag cnt Hlen Hsz Hw) as Hax. clear Hw.
  set (full := full_counts n cnt) in *.
  assert (Hfull : Forall (fun z => (0 <= z)%Z) full) by now apply full_counts_nonneg.
  set (fsz1 := fun i => qcropped (fsz i) (border_lo full i) (border_hi full i)).
  set (c1 := qrecenter (tab fsz n) c (tab fs n) d (tab (border_lo full) n) (tab fsz1 n)).
  assert (Hc1 : length c1 = n).
  { unfold c1, qrecenter, qorigin.
    rewrite !length_map2, !length_qmatvec, length_qscale_cols, Hc, Hd.
    now rewrite !Nat.min_id. }
  assert (Hsz1 : forall i, (i < n)%nat -> 0 <= fsz1 i).
  { intros i Hi. unfold fsz1, qcropped.
    destruct (Qc_ltb 0 (fsz i)); [apply qclamp_min_nonneg | now apply Hsz]. }
  exists (finite_grid (tab fsz1 n) c1 (tab fs n) d true).
  exists (finite_grid (tab fsz n) c (tab fs n) d true).
  split; [now apply crop_tab |]. split.
  - rewrite (@pad_tab fsz1 fs n c1 d true) with (cnt := cnt); try assumption.
    + fold full. f_equal. unfold finite_grid.
      assert (E : tab (fun i => qpadded (fsz1 i) (border_lo full i) (border_hi full i)) n
                  = tab fsz n).
      { apply tab_ext. intros i Hi. apply crop_pad_size;
          [now apply Hax | now apply border_lo_nonneg | now apply border_hi_nonneg]. }
      rewrite E. f_equal. f_equal. unfold c1. apply qrecenter_round_trip; [congruence |].
      intros row.
      replace (tab (fun i => - border_lo full i) n) with (map Qcopp (tab (border_lo full) n))
        by (unfold tab; now rewrite map_map).
      now rewrite map2_mult_opp, qdot_opp_r.
    + rewrite <- Hcnt. apply border_counts_ndim. now rewrite !ndim_finite_grid.
  - split; [apply same_attributes_flag | exact Heq].
Qed.

(** ** What the constructor establishes *)

Lemma reshape_shape (rows cols : nat) (v : vec) :
  length v = (rows * cols)%nat ->
  length (reshape rows cols v) = rows /\ rows_have cols (reshape rows cols v) = true.
Proof.
  revert v. induction rows as [| r IH]; intros v H; cbn [reshape].
  - split; reflexivity.
  - assert (H' : length (skipn cols v) = (r * cols)%nat) by (rewrite length_skipn; lia).
    destruct (IH _ H') as [IH1 IH2]. split; [cbn [length]; now rewrite IH1 |].
    unfold rows_have in *. cbn [forallb]. rewrite IH2, andb_true_r.
    apply Nat.eqb_eq. rewrite length_firstn. lia.
Qed.

Lemma length_mm (a b : mat) : length (mm a b) = length a.
Proof. apply length_map. Qed.

Lemma length_matvec (m : mat) (v : vec) : length (matvec m v) = length m.
Proof. apply length_map. Qed.

Lemma clamp0_not_negative (a : scalar) : sltb (sclamp_min (Fin 0) a) (Fin 0) = false.
Proof.
  destruct a as [q | | |]; try reflexivity.
  unfold sclamp_min. destruct (sltb (Fin q) (Fin 0)) eqn:E; [reflexivity | exact E].
Qed.

(** *** What the setters return *)

Lemma spacing__Ok (self : Grid) (arg : array) (g : Grid) :
  spacing_ self arg = Ok g ->
  exists sp, cat_scalars arg (ndim self) = Ok sp
    /\ any (map (fun s => sleb s (Fin 0)) sp) = false
    /\ g = mkGrid (_size self) (_center self) sp (_direction self) (_align_corners self).
Proof.
  unfold spacing_. intros H. apply bind_Ok in H. destruct H as [sp [H1 H]].
  apply raise_if_Ok in H. destruct H as [H2 H]. exists sp. inversion H. auto.
Qed.

Lemma direction__Ok (self : Grid) (arg : array) (g : Grid) :
  direction_ self arg = Ok g ->
  exists m, length m = ndim self /\ rows_have (ndim self) m = true
    /\ direction_check m = true
    /\ g = mkGrid (_size self) (_center self) (_spacing self) m (_align_corners self).
Proof.
  unfold direction_. intros H. apply bind_Ok in H. destruct H as [m [H1 H]].
  apply raise_if_Ok in H. destruct H as [H2 H]. exists m.
  assert (Hm : length m = ndim self /\ rows_have (ndim self) m = true).
  { destruct (to_float arg) as [x | v | m' | z | l]; try discriminate H1.
    - apply raise_if_Ok in H1. destruct H1 as [Hl H1]. inversion H1.
      apply negb_false_iff, Nat.eqb_eq in Hl. now apply reshape_shape.
    - apply raise_if_Ok in H1. destruct H1 as [Hl H1]. inversion H1. subst m'.
      apply orb_false_iff in Hl. destruct Hl as [Hr Hl].
      apply negb_false_iff in Hr. apply negb_false_iff, Nat.eqb_eq in Hl.
      split; [exact Hl | now rewrite <- Hl]. }
  destruct Hm as [Hm1 Hm2]. repeat apply conj; try assumption.
  - unfold direction_check. now rewrite H2.
  - now inversion H.
Qed.

Lemma center__Ok (self : Grid) (arg : array) (g : Grid) :
  center_ self arg = Ok g ->
  exists c, cat_scalars arg (ndim self) = Ok c
    /\ g = mkGrid (_size self) c (_spacing self) (_direction self) (_align_corners self).
Proof.
  unfold center_. intros H. apply bind_Ok in H. destruct H as [c [H1 H]].
  exists c. inversion H. auto.
Qed.

Lemma origin__Ok (self : Grid) (arg : array) (g : Grid) :
  origin_ self arg = Ok g ->
  exists o, cat_scalars arg (ndim self) = Ok o
    /\ g = mkGrid (_size self)
             (vadd o (matvec (affine self) (center_offset (size_tensor self))))
             (_spacing self) (_direction self) (_align_corners self).
Proof.
  unfold origin_. intros H. apply bind_Ok in H. destruct H as [o [H1 H]].
  exists o. inversion H. auto.
Qed.

Lemma as_size_tensor_Ok (a : array) (v : vec) : as_size_tensor a = Ok v -> v <> [].
Proof.
  unfold as_size_tensor. destruct (to_float a); try discriminate.
  intros H. apply raise_if_Ok in H. destruct H as [Hl H]. inversion H. subst.
  intros ->. discriminate Hl.
Qed.

(** The size the constructor starts from is not empty. *)
Lemma Grid_init_size0 (size' shape' : option array) (s0 : option vec) (size0 : vec) :
  match size' with
  | Some a => v <- as_size_tensor a ;; Ok (Some v)
  | None => Ok None
  end = Ok s0 ->
  match shape', s0 with
  | None, None => Raise ValueError
  | None, Some v => Ok v
  | Some s, None => v <- as_size_tensor s ;; Ok (flip v)
  | Some s, Some v =>
      match to_float s with
      | Vector sh =>
          raise_if (negb (Nat.eqb (length v) (length sh))
                    || any (map2 (fun a b => negb (seqb a b)) (flip sh) v))
            ValueError (Ok v)
      | _ => Raise ValueError
      end
  end = Ok size0 ->
  size0 <> [].
Proof.
  intros H0 H1.
  destruct size' as [a |].
  - apply bind_Ok in H0. destruct H0 as [v [Hv H0]]. inversion H0. subst s0.
    apply as_size_tensor_Ok in Hv.
    destruct shape' as [s |].
    + destruct (to_float s); try discriminate H1.
      apply raise_if_Ok in H1. destruct H1 as [_ H1]. now inversion H1; subst.
    + now inversion H1; subst.
  - inversion H0. subst s0. destruct shape' as [s |]; [| discriminate H1].
    apply bind_Ok in H1. destruct H1 as [v [Hv H1]]. inversion H1.
    apply as_size_tensor_Ok in Hv.
    unfold flip. intros E. apply (f_equal (@length _)) in E. rewrite length_rev in E.
    destruct v; [congruence | discriminate E].
Qed.

Lemma length_affine (g : Grid) : length (affine g) = length (_direction g).
Proof. unfold affine, direction. apply length_mm. Qed.

(** The grid a call of the constructor returns. *)
Lemma Grid_init_Ok size' shape' center' origin' spacing' direction' ac g :
  Grid_init size' shape' center' origin' spacing' direction' ac = Ok g ->
  exists (size0 : vec),
    size0 <> []
    /\ _size g = map (sclamp_min (Fin 0)) size0
    /\ cat_scalars (match spacing' with None => IntScalar 1 | Some s => s end) (ndim g)
       = Ok (_spacing g)
    /\ any (map (fun s => sleb s (Fin 0)) (_spacing g)) = false
    /\ length (_direction g) = ndim g
    /\ rows_have (ndim g) (_direction g) = true
    /\ direction_check (_direction g) = true
    /\ _align_corners g = py_bool ac
    /\ match origin', center' with
       | None, _ =>
           cat_scalars (match center' with None => IntScalar 0 | Some c => c end) (ndim g)
           = Ok (_center g)
       | Some o, None =>
           exists o', cat_scalars o (ndim g) = Ok o'
             /\ _center g = vadd o' (matvec (affine g) (center_offset (size_tensor g)))
       | Some o, Some c =>
           cat_scalars c (ndim g) = Ok (_center g)
           /\ exists o', cat_scalars o (ndim g) = Ok o' /\ allclose o' (origin g) = true
       end.
Proof.
  unfold Grid_init. intros H.
  apply bind_Ok in H. destruct H as [s0 [Hs0 H]].
  apply bind_Ok in H. destruct H as [size0 [H0 H]].
  apply (Grid_init_size0 _ _ Hs0) in H0. clear Hs0.
  apply bind_Ok in H. destruct H as [g1 [H1 H]].
  apply bind_Ok in H. destruct H as [g2 [H2 H]].
  apply bind_Ok in H. destruct H as [g3 [H3 H]].
  inversion H. subst g. clear H.
  apply spacing__Ok in H1. destruct H1 as (sp & Hsp & Hpos & ->).
  apply direction__Ok in H2. destruct H2 as (m & Hm1 & Hm2 & Hdc & ->).
  unfold ndim in *. cbn [_size _center _spacing _direction _align_corners] in *.
  exists size0. unfold align_corners_.
  destruct origin' as [o |]; [destruct center' as [c |] |].
  - apply bind_Ok in H3. destruct H3 as [g4 [H3 H4]].
    apply center__Ok in H3. destruct H3 as (c' & Hc & ->).
    apply bind_Ok in H4. destruct H4 as [o' [Ho H4]].
    apply raise_if_Ok in H4. destruct H4 as [Hclose H4]. inversion H4. subst g3.
    unfold ndim in *. cbn [_size _center _spacing _direction _align_corners] in *.
    repeat apply conj; try assumption; try reflexivity.
    exists o'. split; [assumption |]. now apply negb_false_iff in Hclose.
  - apply origin__Ok in H3. destruct H3 as (o' & Ho & ->).
    unfold ndim in *. cbn [_size _center _spacing _direction _align_corners] in *.
    repeat apply conj; try assumption; try reflexivity.
    exists o'. split; [assumption | reflexivity].
  - apply center__Ok in H3. destruct H3 as (c' & Hc & ->).
    unfold ndim in *. cbn [_size _center _spacing _direction _align_corners] in *.
    repeat apply conj; try assumption; try reflexivity.
Qed.

Lemma sadd_finite (a x : scalar) :
  is_finite (sadd a x) = true -> ssub (sadd a x) x = a.
Proof.
  destruct a as [p | | |], x as [q | | |]; try discriminate; intros _.
  cbn [sadd ssub sneg]. f_equal. ring.
Qed.

Lemma vadd_vsub_finite (o x : vec) :
  length o = length x -> all_finite (vadd o x) = true -> vsub (vadd o x) x = o.
Proof.
  revert x. induction o as [| a o IH]; intros [| b x] Hl Hf; try discriminate Hl.
  - reflexivity.
  - unfold vadd, vsub, all_finite in *. cbn [map2 forallb] in *.
    apply andb_true_iff in Hf. destruct Hf as [Ha Hf].
    rewrite (sadd_finite _ _ Ha). f_equal. apply IH; [now inversion Hl | exact Hf].
Qed.

Lemma forallb_negb_any {A : Type} (P : A -> bool) (l : list A) :
  any (map P l) = false -> forallb (fun x => negb (P x)) l = true.
Proof.
  unfold any. induction l as [| x l IH]; cbn [map existsb forallb]; [reflexivity |].
  intros H. apply orb_false_iff in H. destruct H as [Hx Hl]. now rewrite Hx, IH.
Qed.

(** What the constructor establishes: every grid it returns has at least one
    axis, a centre and a spacing with one entry per axis, a square direction
    matrix of that order which passes the determinant test, no negative size,
    no spacing that is zero or negative, and the flag [bool(align_corners)]. *)
Theorem Grid_init_invariants size' shape' center' origin' spacing' direction' ac g :
  Grid_init size' shape' center' origin' spacing' direction' ac = Ok g ->
  grid_shape_ok g = true
  /\ forallb (fun n => negb (sltb n (Fin 0))) (_size g) = true
  /\ forallb (fun s => negb (sleb s (Fin 0))) (_spacing g) = true
  /\ direction_check (_direction g) = true
  /\ align_corners g = py_bool ac.
Proof.
  intros H. apply Grid_init_Ok in H.
  destruct H as (size0 & Hne & Hsz & Hsp & Hpos & Hm1 & Hm2 & Hdc & Hac & Hc).
  assert (Hn : ndim g <> 0%nat).
  { unfold ndim. rewrite Hsz, length_map. now destruct size0. }
  assert (Hlc : length (_center g) = ndim g).
  { destruct origin' as [o |]; [destruct center' as [c |] |].
    - destruct Hc as [Hc _]. now apply cat_scalars_length in Hc.
    - destruct Hc as (o' & Ho & ->). apply cat_scalars_length in Ho.
      unfold vadd. rewrite length_map2, length_matvec, length_affine, Ho, Hm1.
      apply Nat.min_id.
    - now apply cat_scalars_length in Hc. }
  repeat apply conj; try assumption.
  - unfold grid_shape_ok.
    rewrite Hlc, (cat_scalars_length _ _ Hsp), Hm1, Hm2, !Nat.eqb_refl.
    destruct (Nat.eqb_spec (ndim g) 0); [contradiction | reflexivity].
  - rewrite Hsz. apply forallb_forall. intros x Hx. apply in_map_iff in Hx.
    destruct Hx as (a & <- & _). now rewrite clamp0_not_negative.
  - now apply forallb_negb_any.
Qed.

Lemma Grid_init_invariants_witness :
  exists g, grid_4x4 true = Ok g
    /\ grid_shape_ok g = true
    /\ forallb (fun n => negb (sltb n (Fin 0))) (_size g) = true
    /\ forallb (fun s => negb (sleb s (Fin 0))) (_spacing g) = true
    /\ direction_check (_direction g) = true
    /\ align_corners g = true.
Proof.
  eexists.
  match goal with |- ?A /\ _ => assert (H : A) by (vm_compute; reflexivity) end.
  split; [exact H |]. unfold grid_4x4 in H. exact (@Grid_init_invariants _ _ _ _ _ _ _ _ H).
Defined.

(** ** The affine map from indices to world coordinates *)

Lemma qdot_zero_r (a : list Qc) (k : nat) : qdot a (repeat 0 k) = 0.
Proof.
  revert k. induction a as [| x a IH]; intros [| k]; cbn [repeat qdot]; try reflexivity.
  rewrite IH. ring.
Qed.

Lemma map2_mult_zero (s : list Qc) (k : nat) :
  map2 Qcmult s (repeat 0 k) = repeat 0 (Nat.min (length s) k).
Proof.
  revert k. induction s as [| x s IH]; intros [| k]; cbn [repeat map2 length Nat.min];
    try reflexivity.
  rewrite IH. f_equal. ring.
Qed.

Lemma plus_matvec_zero (d : list (list Qc)) (u x : list Qc) :
  (forall row, qdot row u = 0) -> length x = length d ->
  map2 Qcplus (qmatvec d u) x = x.
Proof.
  intros Hu. unfold qmatvec. revert x. induction d as [| row d IH]; intros [| y x] H;
    try discriminate H; [reflexivity |].
  cbn [map map2]. rewrite Hu, IH by now inversion H. f_equal. ring.
Qed.

Lemma plus_matvec_minus (d : list (list Qc)) (u c : list Qc) :
  length c = length d ->
  map2 Qcplus (qmatvec d u) (map2 Qcminus c (qmatvec d u)) = c.
Proof.
  unfold qmatvec. revert c. induction d as [| row d IH]; intros [| y c] H;
    try discriminate H; [reflexivity |].
  cbn [map map2]. rewrite IH by now inversion H. f_equal. ring.
Qed.

(** [index_to_world] is the affine map of the grid: the point of index [p]
    lies at [affine() p + origin()]; the point of index zero is the origin,
    and, with the exact numbers of the model, the point of index
    [(size - 1) / 2] is the centre. *)
Lemma index_to_world_affine_exact (g : Grid) :
  valid_grid g = true ->
  (forall p : vec, all_finite p = true -> length p = ndim g ->
     index_to_world g p (Some (-1)%Z) = Ok (vadd (matvec (affine g) p) (origin g)))
  /\ index_to_world g (repeat (Fin 0) (ndim g)) (Some (-1)%Z) = Ok (origin g)
  /\ index_to_world g (center_offset (size_tensor g)) (Some (-1)%Z) = Ok (center g).
Proof.
  intros Hv.
  destruct (valid_grid_presented _ Hv)
    as (n & fsz & fs & c & d & flag & Hg & Hn & Hc & Hd & Hr & Hsz & Hsp & Hdc).
  subst g. rewrite ndim_finite_grid. clear Hv.
  assert (Hr' : forall row, In row d -> length row = length (tab fs n))
    by (intros; rewrite length_tab; now apply Hr).
  assert (Hi2w : forall p, length p = n ->
            index_to_world (finite_grid (tab fsz n) c (tab fs n) d flag) (map Fin p)
              (Some (-1)%Z)
            = Ok (map Fin (map2 Qcplus (qmatvec (qscale_cols d (tab fs n)) p)
                             (qorigin (tab fsz n) c (tab fs n) d)))).
  { intros p Hp. apply index_to_world_finite; rewrite ?length_tab; assumption. }
  assert (Ho : origin (finite_grid (tab fsz n) c (tab fs n) d flag)
               = map Fin (qorigin (tab fsz n) c (tab fs n) d))
    by now apply origin_finite.
  assert (Hlo : length (qorigin (tab fsz n) c (tab fs n) d) = length (qscale_cols d (tab fs n))).
  { unfold qorigin. rewrite length_map2, length_qmatvec, length_qscale_cols, Hc, Hd.
    apply Nat.min_id. }
  split; [| split].
  - intros p Hf Hp. destruct (@all_finite_lift p Hf) as (q & ->).
    rewrite length_map in Hp. rewrite (Hi2w q Hp), Ho.
    unfold affine, direction, spacing, finite_grid. cbn [_direction _spacing].
    rewrite mm_diag_Fin by assumption. now rewrite matvec_Fin, vadd_Fin.
  - replace (repeat (Fin 0) n) with (map Fin (repeat 0 n)) by apply map_repeat.
    rewrite (Hi2w _ (repeat_length _ _)), Ho.
    apply (f_equal (@Ok vec)), (f_equal (map Fin)).
    apply plus_matvec_zero; [| exact Hlo].
    intros row. apply qdot_zero_r.
  - unfold size_tensor, center, finite_grid. cbn [_size _center].
    rewrite _round_size_Fin, center_offset_Fin.
    rewrite Hi2w by now rewrite !length_map, length_tab.
    apply (f_equal (@Ok vec)), (f_equal (map Fin)).
    unfold qorigin. rewrite qmatvec_scale.
    apply plus_matvec_minus. congruence.
Qed.

(** ** Narrowing a grid *)

Lemma Qceiling_Qz (z : Z) : Qceiling (Qz z) = z.
Proof.
  unfold Qz. cbn [this Q2Qc]. rewrite (Qceiling_comp _ _ (Qred_correct _)).
  apply Qceiling_Z.
Qed.

Lemma Qfloor_Qz (z : Z) : Qfloor (Qz z) = z.
Proof.
  unfold Qz. cbn [this Q2Qc]. rewrite (Qfloor_comp _ _ (Qred_correct _)).
  apply Qfloor_Z.
Qed.

Lemma to_int_Fz (z : Z) : to_int (Fz z) = Ok z.
Proof.
  unfold to_int, Fz, Qtrunc. destruct (Qc_ltb (Qz z) 0);
    now rewrite ?Qceiling_Qz, ?Qfloor_Qz.
Qed.

Lemma to_ints_Fz (l : list Z) : to_ints (map Fz l) = Ok l.
Proof.
  induction l as [| z l IH]; [reflexivity |].
  cbn [map to_ints]. rewrite to_int_Fz. cbn [bind]. rewrite IH. reflexivity.
Qed.

(** [size()] of a grid with finite sizes: the ceilings of the stored sizes. *)
Lemma size_finite (sz c s : list Qc) (d : list (list Qc)) (flag : bool) :
  size (finite_grid sz c s d flag) = Ok (map (fun q : Qc => Qceiling q) sz).
Proof.
  unfold size, size_tensor, finite_grid. cbn [_size]. rewrite _round_size_Fin.
  unfold qceil. rewrite map_map.
  rewrite <- (map_map (fun q : Qc => Qceiling q) Fz). apply to_ints_Fz.
Qed.

Lemma Grid_init_IntVector (l : list Z) shape' center' origin' spacing' direction' ac :
  Grid_init (Some (IntVector l)) shape' center' origin' spacing' direction' ac
  = Grid_init (Some (Vector (map Fz l))) shape' center' origin' spacing' direction' ac.
Proof. reflexivity. Qed.

Lemma minus_plus_matvec (d : list (list Qc)) (u x : list Qc) :
  length x = length d ->
  map2 Qcminus (map2 Qcplus x (qmatvec d u)) (qmatvec d u) = x.
Proof.
  unfold qmatvec. revert x. induction d as [| row d IH]; intros [| y x] H;
    try discriminate H; [reflexivity |].
  cbn [map map2]. rewrite IH by now inversion H. f_equal. ring.
Qed.

(** The origin of the grid [crop], [pad] and their relatives construct is
    the point of index [p] of the grid they start from. *)
Lemma regrid_origin (size c s p size' : list Qc) (d : list (list Qc)) :
  length c = length d ->
  qorigin size' (qrecenter size c s d p size') s d
  = map2 Qcplus (qmatvec (qscale_cols d s) p) (qorigin size c s d).
Proof.
  intros Hc. unfold qrecenter. unfold qorigin at 1. rewrite (qmatvec_scale d s (map qoff _)).
  apply minus_plus_matvec.
  unfold qorigin. rewrite !length_map2, !length_qmatvec, length_qscale_cols, Hc.
  now rewrite !Nat.min_id.
Qed.

Lemma regrid_finite_int (fsz fs fsz' fp : nat -> Qc) (n : nat) (c : list Qc)
    (d : list (list Qc)) (flag : bool) (l : list Z) :
  n <> 0%nat -> length c = n -> length d = n ->
  (forall row, In row d -> length row = n) ->
  (forall i, (i < n)%nat -> 0 <= fsz' i) ->
  (forall i, (i < n)%nat -> 0 < fs i) ->
  direction_check (lift d) = true ->
  map Fz l = map Fin (tab fsz' n) ->
  (origin' <- index_to_world (finite_grid (tab fsz n) c (tab fs n) d flag)
                (map Fin (tab fp n)) (Some (-1)%Z) ;;
   Grid_init (Some (IntVector l)) None None (Some (Vector origin'))
     (Some (Vector (spacing (finite_grid (tab fsz n) c (tab fs n) d flag))))
     (Some (Matrix (direction (finite_grid (tab fsz n) c (tab fs n) d flag))))
     PyBoundMethod)
  = Ok (finite_grid (tab fsz' n)
          (qrecenter (tab fsz n) c (tab fs n) d (tab fp n) (tab fsz' n))
          (tab fs n) d true).
Proof.
  intros Hn Hc Hd Hr Hsz Hsp Hdc Hl.
  rewrite <- (@regrid_finite fsz fs fsz' fp n c d flag) by assumption.
  destruct (index_to_world _ _ _) as [o | e]; [| reflexivity].
  cbn [bind]. now rewrite Grid_init_IntVector, Hl.
Qed.

Lemma qceil_nonneg (q : Qc) : 0 <= q -> (0 <= Qceiling q)%Z.
Proof.
  intros H. apply (proj2 (Qz_le 0 (Qceiling q))). fold (qceil q). rewrite Qz_0.
  pose proof (le_qceil q). qc_order.
Qed.

(** [narrow] replaces the size along [dim] by [length] and, with the exact
    numbers of the model, moves the origin
    to the index [start] along [dim]; spacing and direction are kept.  A
    [dim] below 0 or above [ndim] raises [IndexError]; [dim == ndim] passes
    the test and changes no axis. *)
Lemma narrow_spec_exact (g : Grid) (dim start len : Z) :
  valid_grid g = true -> (0 <= len)%Z ->
  let ds := map Z.of_nat (seq 0 (ndim g)) in
  if ((dim <? 0) || (Z.of_nat (ndim g) <? dim))%Z
  then narrow g dim start len = Raise IndexError
  else exists g' cur,
      narrow g dim start len = Ok g'
      /\ size g = Ok cur
      /\ size g' = Ok (map2 (fun d n => if (d =? dim)%Z then len else n) ds cur)
      /\ spacing g' = spacing g /\ direction g' = direction g
      /\ index_to_world g (map (fun d => Fz (if (d =? dim)%Z then start else 0)) ds)
           (Some (-1)%Z) = Ok (origin g').
Proof.
  intros Hv Hlen ds. unfold narrow.
  destruct ((dim <? 0) || (Z.of_nat (ndim g) <? dim))%Z; [reflexivity |].
  cbn [raise_if].
  destruct (valid_grid_presented _ Hv)
    as (n & fsz & fs & c & d & flag & Hg & Hn & Hc & Hd & Hr & Hsz & Hsp & Hdc).
  subst g. clear Hv. unfold ds. rewrite ndim_finite_grid. rewrite size_finite. cbn [bind].
  set (fp := fun i => Qz (if (Z.of_nat i =? dim)%Z then start else 0)).
  set (fsz' := fun i => Qz (if (Z.of_nat i =? dim)%Z then len else Qceiling (fsz i))).
  assert (Ep : map Fz (map (fun d0 => if (d0 =? dim)%Z then start else 0%Z)
                         (map Z.of_nat (seq 0 n))) = map Fin (tab fp n)).
  { unfold tab. now rewrite !map_map. }
  assert (Es : map Fz (map2 (fun d0 n0 => if (d0 =? dim)%Z then len else n0)
                         (map Z.of_nat (seq 0 n)) (map (fun q : Qc => Qceiling q) (tab fsz n)))
               = map Fin (tab fsz' n)).
  { unfold tab. fuse. reflexivity. }
  rewrite Ep.
  rewrite (@regrid_finite_int fsz fs fsz' fp n c d flag); try assumption.
  2:{ intros i Hi. unfold fsz'. apply Qz_nonneg.
      destruct (Z.of_nat i =? dim)%Z; [assumption | apply qceil_nonneg; now apply Hsz]. }
  eexists. eexists. split; [reflexivity |]. split; [reflexivity |].
  split; [| split; [reflexivity | split; [reflexivity |]]].
  - rewrite size_finite. f_equal. unfold tab, fsz'. fuse.
    apply map_ext. intros i. apply Qceiling_Qz.
  - replace (map (fun d0 => Fz (if (d0 =? dim)%Z then start else 0)) (map Z.of_nat (seq 0 n)))
      with (map Fin (tab fp n)) by (unfold tab; now rewrite !map_map).
    rewrite index_to_world_finite; rewrite ?length_tab; try assumption; try reflexivity.
    unfold finite_grid. rewrite origin_finite
      by (intros; rewrite length_tab; now apply Hr).
    rewrite regrid_origin by congruence. reflexivity.
Qed.

(** ** Cropping and padding about the centre *)

Lemma qdot_plus_r (a u v : list Qc) :
  length u = length v -> qdot a (map2 Qcplus u v) = qdot a u + qdot a v.
Proof.
  revert u v. induction a as [| x a IH]; intros [| y u] [| z v] H; try discriminate H;
    cbn [map2 qdot]; try ring.
  rewrite IH by now inversion H. ring.
Qed.

Lemma recenter_sum (d : list (list Qc)) (u1 u2 u3 c : list Qc) :
  (forall row, qdot row u1 + qdot row u2 = qdot row u3) ->
  length c = length d ->
  map2 Qcplus (map2 Qcplus (qmatvec d u1) (map2 Qcminus c (qmatvec d u3))) (qmatvec d u2)
  = c.
Proof.
  intros Hu. unfold qmatvec. revert c. induction d as [| row d IH]; intros [| y c] H;
    try discriminate H; [reflexivity |].
  cbn [map map2]. rewrite IH by now inversion H. f_equal. rewrite <- Hu. ring.
Qed.

(** The constructed grid has the centre of the grid it comes from when, on
    every axis, the index [p] of its origin and its own centre offset add up
    to the centre offset of that grid. *)
Lemma recenter_same (fsz fs fsz' fp : nat -> Qc) (n : nat) (c : list Qc)
    (d : list (list Qc)) :
  length c = n -> length d = n ->
  (forall i, (i < n)%nat -> fp i + qoff (qceil (fsz' i)) = qoff (qceil (fsz i))) ->
  qrecenter (tab fsz n) c (tab fs n) d (tab fp n) (tab fsz' n) = c.
Proof.
  intros Hc Hd H. unfold qrecenter, qorigin. rewrite !qmatvec_scale.
  apply recenter_sum; [| congruence].
  intros row. rewrite <- qdot_plus_r by (rewrite !length_map2, !length_map, !length_tab; lia).
  f_equal. unfold tab. fuse. apply map_ext_in. intros i Hi. apply in_seq in Hi.
  rewrite <- H by lia. ring.
Qed.

Lemma int_sizes_IntVector (g : Grid) (req : list Z) :
  length req = ndim g -> int_sizes g (IntVector req) = Ok req.
Proof.
  intros H. unfold int_sizes. rewrite cat_scalars_IntVector by assumption.
  cbn [bind is_int_dtype negb raise_if]. apply to_ints_Fz.
Qed.

Lemma Qz_plus (a b : Z) : Qz (a + b) = Qz a + Qz b.
Proof.
  apply Qc_is_canon. unfold Qcplus. cbn [this Q2Qc].
  rewrite Qred_correct, !this_Qz. rewrite inject_Z_plus. reflexivity.
Qed.

Lemma Qz_mult (a b : Z) : Qz (a * b) = Qz a * Qz b.
Proof.
  apply Qc_is_canon. unfold Qcmult. cbn [this Q2Qc].
  rewrite Qred_correct, !this_Qz. rewrite inject_Z_mult. reflexivity.
Qed.

Lemma Qz_pos (z : Z) : (0 < z)%Z -> 0 < Qz z.
Proof. intros H. rewrite <- Qz_0. now apply (proj1 (Qz_lt 0 z)). Qed.

Lemma qoff_Qz_pos (z : Z) : (0 < z)%Z -> qoff (Qz z) = (Qz z - 1) / Qz 2.
Proof. intros H. unfold qoff. now rewrite (Qc_ltb_true (Qz_pos H)). Qed.

Lemma qoff_0 : qoff 0 = 0.
Proof. unfold qoff. rewrite Qc_ltb_0_0. exact Qc_half_0. Qed.

(** An origin moved by half an even difference of sizes keeps the centre. *)
Lemma centred_offset (m n k : Z) :
  (0 < n)%Z -> (0 < m)%Z -> (m - n = 2 * k)%Z ->
  Qz k + qoff (Qz n) = qoff (Qz m).
Proof.
  intros Hn Hm H. rewrite !qoff_Qz_pos by assumption.
  replace m with (n + 2 * k)%Z by lia. rewrite Qz_plus, Qz_mult.
  field. exact Qz_2_neq_0.
Qed.


Lemma nonneg_nth (l : list Z) (i : nat) :
  forallb (fun z => (0 <=? z)%Z) l = true -> (0 <= nth i l 0)%Z.
Proof. intros H. apply nth_nonneg. now apply nonneg_counts. Qed.

(** [center_crop] returns the grid of size [min(size, requested)] with the
    spacing and direction of [g]; when on every axis the requested size is
    at least 1 and the number of removed points is even, it has, with the
    exact numbers of the model, the centre of [g] as well. *)
Lemma center_crop_spec_exact (g : Grid) (req : list Z) :
  valid_grid g = true -> length req = ndim g ->
  forallb (fun n => (0 <=? n)%Z) req = true ->
  exists g' cur,
    center_crop g (IntVector req) = Ok g'
    /\ size g = Ok cur
    /\ size g' = Ok (map2 Z.min cur req)
    /\ spacing g' = spacing g /\ direction g' = direction g
    /\ (forallb (fun n => (1 <=? n)%Z) req = true ->
        forallb Z.even (map2 Z.sub cur (map2 Z.min cur req)) = true ->
        center g' = center g).
Proof.
  intros Hv Hreq Hpos. unfold center_crop. rewrite int_sizes_IntVector by assumption.
  cbn [bind].
  destruct (valid_grid_presented _ Hv)
    as (n & fsz & fs & c & d & flag & Hg & Hn & Hc & Hd & Hr & Hsz & Hsp & Hdc).
  subst g. clear Hv. rewrite ndim_finite_grid in *. rewrite size_finite. cbn [bind].
  set (fr := fun i => nth i req 0%Z).
  assert (Hfr : forall i, (0 <= fr i)%Z) by (intros i; now apply nonneg_nth).
  clear Hpos.
  assert (Ereq : req = tab fr n) by (rewrite <- Hreq; symmetry; apply tab_nth).
  rewrite Ereq. clear Ereq.
  set (fm := fun i => Qceiling (fsz i)).
  set (fn' := fun i => Z.min (fm i) (fr i)).
  set (fp := fun i => Qz ((fm i - fn' i) / 2)).
  set (fsz' := fun i => Qz (fn' i)).
  assert (Ecur : map (fun q : Qc => Qceiling q) (tab fsz n) = tab fm n)
    by (unfold tab; now rewrite map_map).
  assert (Emin : map2 Z.min (tab fm n) (tab fr n) = tab fn' n)
    by (unfold tab; now rewrite map2_map).
  rewrite Ecur, Emin.
  assert (Ep : map Fz (map2 (fun m n0 => ((m - n0) / 2)%Z) (tab fm n) (tab fn' n))
               = map Fin (tab fp n)) by (unfold tab; fuse; reflexivity).
  rewrite Ep.
  assert (Hm : forall i, (i < n)%nat -> (0 <= fm i)%Z)
    by (intros i Hi; apply qceil_nonneg; now apply Hsz).
  rewrite (@regrid_finite_int fsz fs fsz' fp n c d flag); try assumption.
  2:{ intros i Hi. apply Qz_nonneg. unfold fn'. specialize (Hm i Hi). specialize (Hfr i).
      lia. }
  2:{ unfold tab. now rewrite !map_map. }
  eexists. eexists. split; [reflexivity |]. split; [reflexivity |].
  split; [| split; [reflexivity | split; [reflexivity |]]].
  - rewrite size_finite. f_equal. unfold tab, fsz'. fuse.
    apply map_ext. intros i. apply Qceiling_Qz.
  - intros H1 Heven. unfold center, finite_grid. cbn [_center]. f_equal.
    apply recenter_same; try assumption.
    intros i Hi. unfold fp, fsz'. rewrite qceil_Qz.
    assert (Hr1 : (1 <= fr i)%Z).
    { assert (Hi' : (i < length (tab fr n))%nat) by now rewrite length_tab.
      pose proof (forallb_nth _ _ 0%Z H1 Hi') as E. unfold tab in E.
      rewrite nth_map_seq in E by assumption. now apply Z.leb_le in E. }
    assert (Hev : Z.even (fm i - fn' i) = true).
    { unfold tab in Heven. revert Heven. fuse. intros Heven.
      rewrite forallb_forall in Heven. apply Heven. apply in_map_iff. exists i.
      split; [reflexivity |]. apply in_seq. lia. }
    apply Z.even_spec in Hev. destruct Hev as [k Hk]. rewrite Hk.
    replace (2 * k / 2)%Z with k by (symmetry; rewrite Z.mul_comm; apply Z.div_mul; lia).
    specialize (Hm i Hi). fold (qceil (fsz i)). change (qceil (fsz i)) with (Qz (fm i)).
    destruct (Z.eq_dec (fm i) 0) as [E0 | E0].
    + assert (En : fn' i = 0%Z) by (unfold fn'; lia).
      assert (Ek : k = 0%Z) by lia. rewrite E0, En, Ek, Qz_0, qoff_0. ring.
    + apply centred_offset; unfold fn' in *; lia.
Qed.

Lemma Qz_opp (z : Z) : Qz (- z) = - Qz z.
Proof.
  apply Qc_is_canon. unfold Qcopp. cbn [this Q2Qc].
  rewrite Qred_correct, !this_Qz. rewrite inject_Z_opp. reflexivity.
Qed.

(** [center_pad] returns the grid of size [max(size, requested)] with the
    spacing and direction of [g]; when no axis of [g] is empty and the number
    of added points is even on every axis, it has, with the exact numbers of
    the model, the centre of [g] as well. *)
Lemma center_pad_spec_exact (g : Grid) (req : list Z) :
  valid_grid g = true -> length req = ndim g ->
  exists g' cur,
    center_pad g (IntVector req) = Ok g'
    /\ size g = Ok cur
    /\ size g' = Ok (map2 Z.max cur req)
    /\ spacing g' = spacing g /\ direction g' = direction g
    /\ (forallb (fun n => (1 <=? n)%Z) cur = true ->
        forallb Z.even (map2 Z.sub (map2 Z.max cur req) cur) = true ->
        center g' = center g).
Proof.
  intros Hv Hreq. unfold center_pad. rewrite int_sizes_IntVector by assumption.
  cbn [bind].
  destruct (valid_grid_presented _ Hv)
    as (n & fsz & fs & c & d & flag & Hg & Hn & Hc & Hd & Hr & Hsz & Hsp & Hdc).
  subst g. clear Hv. rewrite ndim_finite_grid in *. rewrite size_finite. cbn [bind].
  set (fr := fun i => nth i req 0%Z).
  assert (Ereq : req = tab fr n) by (rewrite <- Hreq; symmetry; apply tab_nth).
  rewrite Ereq. clear Ereq.
  set (fm := fun i => Qceiling (fsz i)).
  set (fn' := fun i => Z.max (fm i) (fr i)).
  set (fp := fun i => Qz (- ((fn' i - fm i) / 2))).
  set (fsz' := fun i => Qz (fn' i)).
  assert (Ecur : map (fun q : Qc => Qceiling q) (tab fsz n) = tab fm n)
    by (unfold tab; now rewrite map_map).
  assert (Emax : map2 Z.max (tab fm n) (tab fr n) = tab fn' n)
    by (unfold tab; now rewrite map2_map).
  rewrite Ecur, Emax.
  assert (Ep : map Fz (map2 (fun m n0 => (- ((n0 - m) / 2))%Z) (tab fm n) (tab fn' n))
               = map Fin (tab fp n)) by (unfold tab; fuse; reflexivity).
  rewrite Ep.
  assert (Hm : forall i, (i < n)%nat -> (0 <= fm i)%Z)
    by (intros i Hi; apply qceil_nonneg; now apply Hsz).
  rewrite (@regrid_finite_int fsz fs fsz' fp n c d flag); try assumption.
  2:{ intros i Hi. apply Qz_nonneg. unfold fn'. specialize (Hm i Hi). lia. }
  2:{ unfold tab. now rewrite !map_map. }
  eexists. eexists. split; [reflexivity |]. split; [reflexivity |].
  split; [| split; [reflexivity | split; [reflexivity |]]].
  - rewrite size_finite. f_equal. unfold tab, fsz'. fuse.
    apply map_ext. intros i. apply Qceiling_Qz.
  - intros H1 Heven. unfold center, finite_grid. cbn [_center]. f_equal.
    apply recenter_same; try assumption.
    intros i Hi. unfold fp, fsz'. rewrite qceil_Qz.
    assert (Hm1 : (1 <= fm i)%Z).
    { assert (Hi' : (i < length (tab fm n))%nat) by now rewrite length_tab.
      pose proof (forallb_nth _ _ 0%Z H1 Hi') as E. unfold tab in E.
      rewrite nth_map_seq in E by assumption. now apply Z.leb_le in E. }
    assert (Hev : Z.even (fn' i - fm i) = true).
    { unfold tab in Heven. revert Heven. fuse. intros Heven.
      rewrite forallb_forall in Heven. apply Heven. apply in_map_iff. exists i.
      split; [reflexivity |]. apply in_seq. lia. }
    apply Z.even_spec in Hev. destruct Hev as [k Hk]. rewrite Hk.
    replace (2 * k / 2)%Z with k by (symmetry; rewrite Z.mul_comm; apply Z.div_mul; lia).
    fold (qceil (fsz i)). change (qceil (fsz i)) with (Qz (fm i)).
    rewrite Qz_opp.
    rewrite <- (@centred_offset (fn' i) (fm i) k) by (unfold fn' in *; lia). ring.
Qed.

(** ** Doubling and halving: [upsample] then [downsample] *)

Lemma upsample_resize (f : nat -> Qc) (n : nat) (c s' : list Qc) (d : list (list Qc))
    (flag : bool) (ac : option bool) :
  upsample (finite_grid (tab f n) c s' d flag) 1 None ac
  = _resize (finite_grid (tab f n) c s' d flag) (map Fin (tab (fun i => f i * Qz 2) n)) ac.
Proof.
  unfold upsample, dims_or_all. rewrite ndim_finite_grid.
  replace n with (length (_size (finite_grid (tab f n) c s' d flag))) at 1
    by (unfold finite_grid; cbn [_size]; now rewrite length_map, length_tab).
  rewrite update_dims_all. cbn [bind]. f_equal.
  unfold finite_grid. cbn [_size]. unfold tab. fuse. reflexivity.
Qed.

Lemma downsample_resize (f f' : nat -> Qc) (n : nat) (c s' : list Qc) (d : list (list Qc))
    (flag : bool) (ac : option bool) :
  (forall i, (i < n)%nat ->
     (if sgeb (sdiv (Fin (f i)) (Fin (pow2 1))) (Fz 1)
      then sdiv (Fin (f i)) (Fin (pow2 1)) else Fin (f i)) = Fin (f' i)) ->
  downsample (finite_grid (tab f n) c s' d flag) 1 None 1 ac
  = _resize (finite_grid (tab f n) c s' d flag) (map Fin (tab f' n)) ac.
Proof.
  intros H. unfold downsample, dims_or_all. rewrite ndim_finite_grid.
  replace n with (length (_size (finite_grid (tab f n) c s' d flag))) at 1
    by (unfold finite_grid; cbn [_size]; now rewrite length_map, length_tab).
  rewrite update_dims_all. cbn [bind]. f_equal.
  unfold finite_grid. cbn [_size]. unfold tab. fuse.
  apply map_ext_in. intros i Hi. apply in_seq in Hi. apply H. lia.
Qed.

Lemma Qc_double_half (q : Qc) : q * Qz 2 / Qz 2 = q.
Proof. field. exact Qz_2_neq_0. Qed.

Lemma doublable_Fin (aligned : bool) (q : Qc) :
  doublable aligned (Fin q) = true ->
  q = 0 \/ (0 < q /\ if aligned then 1 < q else 1 <= q).
Proof.
  unfold doublable. intros H. apply orb_true_iff in H. destruct H as [H | H].
  - left. now apply seqb_Fin.
  - right. destruct aligned.
    + apply sltb_Fin in H. split; [qc_order | exact H].
    + apply sleb_Fin in H. split; [qc_order | exact H].
Qed.

Lemma Qc_double_order (q : Qc) :
  (0 < q -> 0 < q * Qz 2) /\ (1 <= q -> 1 < q * Qz 2) /\ (q = 0 -> q * Qz 2 = 0).
Proof. repeat apply conj; intros H; qc_order. Qed.

Lemma halve_doubled_Fin (aligned : bool) (q : Qc) :
  q = 0 \/ (0 < q /\ if aligned then 1 < q else 1 <= q) ->
  (if sgeb (sdiv (Fin (q * Qz 2)) (Fin (pow2 1))) (Fz 1)
   then sdiv (Fin (q * Qz 2)) (Fin (pow2 1)) else Fin (q * Qz 2)) = Fin q.
Proof.
  intros H. rewrite pow2_1, sdiv_Fin by exact Qz_2_neq_0. rewrite Qc_double_half.
  destruct (sgeb (Fin q) (Fz 1)) eqn:E; [reflexivity |].
  destruct H as [-> | [_ H]]; [f_equal; apply Qcmult_0_l |].
  exfalso. unfold sgeb, Fz in E. apply sleb_Fin_false in E. destruct aligned; qc_order.
Qed.

Lemma up_axis_ok (aligned : bool) (q : Qc) :
  q = 0 \/ (0 < q /\ if aligned then 1 < q else 1 <= q) ->
  axis_ok aligned q (q * Qz 2).
Proof.
  intros [-> | [Hq H]]; [left; split; [reflexivity | apply Qcmult_0_l] | right].
  split; [exact Hq |]. destruct aligned.
  - apply qceil_gt1. qc_order.
  - apply qceil_ge1. qc_order.
Qed.

Lemma down_axis_ok (aligned : bool) (q : Qc) :
  q = 0 \/ (0 < q /\ if aligned then 1 < q else 1 <= q) ->
  axis_ok aligned (q * Qz 2) q.
Proof.
  intros [-> | [Hq H]]; [left; split; [apply Qcmult_0_l | reflexivity] | right].
  split; [qc_order |]. destruct aligned.
  - now apply qceil_gt1.
  - now apply qceil_ge1.
Qed.

(** Doubling and halving an axis gives back its spacing. *)
Lemma respace_up_down (aligned : bool) (q s : Qc) :
  q = 0 \/ (0 < q /\ if aligned then 1 < q else 1 <= q) ->
  qrespace aligned (q * Qz 2) (qrespace aligned q s (q * Qz 2)) q = s.
Proof.
  unfold qrespace. intros [-> | [Hq H]].
  - rewrite Qcmult_0_l, Qc_ltb_0_0. reflexivity.
  - assert (H2 : 0 < q * Qz 2) by qc_order.
    rewrite (Qc_ltb_true H2), (Qc_ltb_true Hq).
    destruct aligned.
    + pose proof (qceil_gt1 H) as Ha.
      assert (Hb : Qz 2 <= qceil (q * Qz 2)) by (apply qceil_gt1; qc_order).
      generalize dependent (qceil (q * Qz 2)). generalize dependent (qceil q).
      intros a Ha b Hb. field. split; qc_order.
    + pose proof (qceil_ge1 H) as Ha.
      assert (Hb : 1 <= qceil (q * Qz 2)) by (apply qceil_ge1; qc_order).
      generalize dependent (qceil (q * Qz 2)). generalize dependent (qceil q).
      intros a Ha b Hb. field. split; qc_order.
Qed.

(** ** Relations between the resizing operations *)

Lemma rev_repeat_same {A : Type} (x : A) (n : nat) : rev (repeat x n) = repeat x n.
Proof.
  induction n as [| n IH]; [reflexivity |].
  cbn [repeat rev]. rewrite IH. symmetry. apply repeat_cons.
Qed.

Lemma any_map_rev {A : Type} (P : A -> bool) (l : list A) :
  any (map P (rev l)) = any (map P l).
Proof.
  unfold any. rewrite map_rev.
  destruct (existsb (fun b => b) (map P l)) eqn:E.
  - apply existsb_exists in E. destruct E as (b & Hb & ->).
    apply existsb_exists. exists true. split; [| reflexivity]. now apply -> in_rev.
  - destruct (existsb (fun b => b) (rev (map P l))) eqn:E'; [| reflexivity].
    apply existsb_exists in E'. destruct E' as (b & Hb & ->).
    apply in_rev in Hb. rewrite <- E. symmetry. apply existsb_exists. now exists true.
Qed.

Lemma cat_scalars_rev (l : list Z) (num : nat) :
  cat_scalars (IntVector (rev l)) num = (v <- cat_scalars (IntVector l) num ;; Ok (rev v)).
Proof.
  unfold cat_scalars. cbn [to_float].
  destruct l as [| x [| y l]].
  - cbn. destruct num; reflexivity.
  - cbn [rev app map bind]. now rewrite rev_repeat_same.
  - assert (Hl : length (map Fz (rev (x :: y :: l))) = S (S (length l)))
      by (rewrite length_map, length_rev; reflexivity).
    destruct (map Fz (rev (x :: y :: l))) as [| a [| b r]] eqn:E; try discriminate Hl.
    rewrite Hl. cbn [map length]. rewrite length_map.
    destruct (Nat.eqb (S (S (length l))) num); [| reflexivity].
    cbn [bind]. rewrite <- E. now rewrite map_rev.
Qed.

(** [reshape] takes the size in the order of a tensor shape: it is [resize]
    with the reversed sequence, errors included. *)
Theorem reshape_is_resize_reversed (g : Grid) (l : list Z) (ac : option bool) :
  reshape_grid g (IntVector l) ac = resize g (IntVector (rev l)) ac.
Proof.
  unfold reshape_grid, resize. rewrite cat_scalars_rev.
  destruct (cat_scalars (IntVector l) (ndim g)) as [v | e]; [| reflexivity].
  cbn [bind is_int_dtype negb raise_if]. unfold flip. now rewrite any_map_rev.
Qed.

(** *** Negative numbers of levels *)

Lemma Qz_pow2_pos (k : Z) : (0 <= k)%Z -> 0 < Qz (2 ^ k).
Proof. intros H. apply Qz_pos. apply Z.pow_pos_nonneg; lia. Qed.

Lemma Qccompare_pos (y : Qc) : 0 < y -> Qccompare y 0 = Gt.
Proof. intros H. now apply Qcgt_alt. Qed.

Lemma Qc_inv_pos (y : Qc) : 0 < y -> 0 < 1 / y.
Proof.
  intros H. assert (Hy : y <> 0) by qc_order.
  destruct (Qclt_le_dec 0 (1 / y)) as [Hl | Hl]; [exact Hl | exfalso].
  assert (E : 1 / y * y = 1) by (field; exact Hy).
  assert (Hm : 1 / y * y <= 0).
  { replace 0 with (0 * y) by ring. apply Qcmult_le_compat_r; [exact Hl | qc_order]. }
  rewrite E in Hm. qc_order.
Qed.

(** Dividing by [1 / y] is multiplying by [y], on every value. *)
Lemma sdiv_inv (n : scalar) (y : Qc) :
  0 < y -> sdiv n (Fin (1 / y)) = smul n (Fin y).
Proof.
  intros Hy. pose proof (Qc_inv_pos Hy) as Hi.
  assert (Hy0 : y <> 0) by qc_order.
  assert (Hi0 : 1 / y <> 0) by (generalize dependent (1 / y); intros; qc_order).
  destruct n as [q | | |]; cbn [sdiv smul ssign].
  - rewrite (proj2 (Qc_eqb_neq _ _) Hi0). f_equal. field. split; [exact Hy0 | discriminate].
  - rewrite (proj2 (Qc_ltb_ge _ _)) by (generalize dependent (1 / y); intros; qc_order).
    now rewrite (Qccompare_pos Hy).
  - rewrite (proj2 (Qc_ltb_ge _ _)) by (generalize dependent (1 / y); intros; qc_order).
    now rewrite (Qccompare_pos Hy).
  - reflexivity.
Qed.

(** Multiplying by [1 / y] is dividing by [y], on every value. *)
Lemma smul_inv (n : scalar) (y : Qc) :
  0 < y -> smul n (Fin (1 / y)) = sdiv n (Fin y).
Proof.
  intros Hy. pose proof (Qc_inv_pos Hy) as Hi.
  assert (Hy0 : y <> 0) by qc_order.
  destruct n as [q | | |]; cbn [sdiv smul ssign].
  - rewrite (proj2 (Qc_eqb_neq _ _) Hy0). f_equal. field. exact Hy0.
  - rewrite (proj2 (Qc_ltb_ge _ _)) by qc_order. now rewrite (Qccompare_pos Hi).
  - rewrite (proj2 (Qc_ltb_ge _ _)) by qc_order. now rewrite (Qccompare_pos Hi).
  - reflexivity.
Qed.

Lemma pow2_neg (k : Z) : (0 < k)%Z -> pow2 (- k) = 1 / Qz (2 ^ k).
Proof.
  intros H. unfold pow2. destruct (Z.leb_spec 0 (- k)); [lia |].
  now rewrite Z.opp_involutive.
Qed.

Lemma pow2_pos (k : Z) : (0 < k)%Z -> pow2 k = Qz (2 ^ k).
Proof. intros H. unfold pow2. destruct (Z.leb_spec 0 k); [reflexivity | lia]. Qed.

Lemma vwhere_pointwise (C : scalar -> bool) (f h : scalar -> scalar) (v : vec) :
  (forall n, In n v -> (if C (f n) then f n else n) = h n) ->
  vwhere (map C (map f v)) (map f v) v = map h v.
Proof.
  induction v as [| x v IH]; intros H; [reflexivity |].
  cbn [map vwhere]. rewrite (H x (or_introl eq_refl)). f_equal.
  apply IH. intros n Hn. apply H. now right.
Qed.

(** A negative number of levels turns halving into doubling and doubling
    into halving: [downsample(-k)] is [upsample(k)] on a grid whose stored
    sizes are all 0 or at least 1 (with [min_size] at most 1), and
    [upsample(-k)] is [downsample(k, min_size=0)] on a grid without negative
    size. *)
Theorem negative_levels (g : Grid) (k : Z) (ac : option bool) :
  (0 < k)%Z ->
  (forall min_size, (min_size <= 1)%Z -> whole_sizes g = true ->
     downsample g (- k) None min_size ac = upsample g k None ac)
  /\ (forallb (fun n => sleb (Fin 0) n) (_size g) = true ->
      upsample g (- k) None ac = downsample g k None 0 ac).
Proof.
  intros Hk. pose proof (Qz_pow2_pos (Z.lt_le_incl _ _ Hk)) as Hp.
  assert (Hp0 : Qz (2 ^ k) <> 0) by (generalize dependent (Qz (2 ^ k)); intros; qc_order).
  split.
  - intros min_size Hmin Hw. unfold downsample, upsample, dims_or_all, ndim.
    rewrite !update_dims_all. cbn [bind]. f_equal.
    rewrite (pow2_neg Hk), (pow2_pos Hk).
    apply vwhere_pointwise. intros n Hn. rewrite (sdiv_inv n Hp).
    unfold whole_sizes in Hw. rewrite forallb_forall in Hw. specialize (Hw n Hn).
    apply orb_true_iff in Hw. destruct Hw as [Hw | Hw].
    + destruct n as [q | | |]; try discriminate Hw. apply seqb_Fin in Hw. subst q.
      cbn [smul]. rewrite Qcmult_0_l. now destruct (sgeb (Fin 0) (Fz min_size)).
    + destruct n as [q | | |]; try discriminate Hw.
      * apply sleb_Fin in Hw. cbn [smul].
        assert (E : sgeb (Fin (q * Qz (2 ^ k))) (Fz min_size) = true).
        { unfold sgeb, Fz. apply sleb_Fin.
          assert (H1 : Qz min_size <= 1)
            by (rewrite <- Qz_1; now apply (proj1 (Qz_le min_size 1))).
          assert (H2 : 1 <= Qz (2 ^ k)).
          { rewrite <- Qz_1. apply (proj1 (Qz_le 1 (2 ^ k))).
            pose proof (Z.pow_pos_nonneg 2 k). lia. }
          generalize dependent (Qz (2 ^ k)). generalize dependent (Qz min_size).
          intros m Hm p Hp Hp0 Hp1.
          apply Qcle_trans with (1 := Hm). apply Qcle_trans with (1 := Hw).
          replace q with (1 * q) at 1 by ring. rewrite (Qcmult_comm q p).
          apply Qcmult_le_compat_r; [exact Hp1 | qc_order]. }
        now rewrite E.
      * cbn [smul ssign]. now rewrite (Qccompare_pos Hp).
  - intros Hpos. unfold downsample, upsample, dims_or_all, ndim.
    rewrite !update_dims_all. cbn [bind]. f_equal.
    rewrite (pow2_neg Hk), (pow2_pos Hk).
    symmetry. apply vwhere_pointwise. intros n Hn. rewrite (smul_inv n Hp).
    rewrite forallb_forall in Hpos. specialize (Hpos n Hn).
    destruct n as [q | | |]; try discriminate Hpos.
    + apply sleb_Fin in Hpos. rewrite sdiv_Fin by exact Hp0.
      assert (E : sgeb (Fin (q / Qz (2 ^ k))) (Fz 0) = true).
      { unfold sgeb, Fz. apply sleb_Fin. rewrite Qz_0.
        pose proof (Qc_inv_pos Hp) as Hi.
        replace (q / Qz (2 ^ k)) with (q * (1 / Qz (2 ^ k))) by (field; exact Hp0).
        generalize dependent (1 / Qz (2 ^ k)). intros r Hr.
        replace 0 with (0 * r) by ring. apply Qcmult_le_compat_r; [exact Hpos | qc_order]. }
      now rewrite E.
    + cbn [sdiv]. rewrite (proj2 (Qc_ltb_ge _ _)) by qc_order. reflexivity.
Qed.

(** [negative_levels] on the 3 x 5 grid. *)
Lemma negative_levels_witness :
  downsample (plain_grid [3; 5]%Z true) (- (1)) None 1 None
  = upsample (plain_grid [3; 5]%Z true) 1 None None
  /\ upsample (plain_grid [3; 5]%Z true) (- (2)) None (Some false)
     = downsample (plain_grid [3; 5]%Z true) 2 None 0 (Some false).
Proof.
  destruct (@negative_levels (plain_grid [3; 5]%Z true) 1 None ltac:(lia)) as [H1 _].
  destruct (@negative_levels (plain_grid [3; 5]%Z true) 2 (Some false) ltac:(lia))
    as [_ H2].
  split; [apply H1; [lia | reflexivity] | apply H2; reflexivity].
Defined.

(** ** Resampling to a given spacing *)

Lemma Qc_div_mul_le (e s : Qc) : 0 < s -> e <= s * qceil (e / s).
Proof.
  intros Hs. pose proof (le_qceil (e / s)) as H.
  assert (E : e = s * (e / s)) by (field; qc_order).
  rewrite E at 1. generalize dependent (qceil (e / s)). generalize dependent (e / s).
  intros r _ z Hz. rewrite !(Qcmult_comm s).
  apply Qcmult_le_compat_r; [exact Hz | qc_order].
Qed.

Lemma qclamp_min_ge (m q : Qc) : q <= qclamp_min m q.
Proof.
  unfold qclamp_min. destruct (Qc_ltb q m) eqn:E; [| apply Qcle_refl].
  apply Qc_ltb_lt in E. qc_order.
Qed.

(** The size [resample] gives an axis of extent [e] for the spacing [s]. *)
Lemma resample_tab (fsz fs fp : nat -> Qc) (n : nat) (c : list Qc) (d : list (list Qc))
    (flag : bool) (min_size : Z) :
  (forall i, (i < n)%nat -> 0 < fp i) ->
  let g := finite_grid (tab fsz n) c (tab fs n) d flag in
  let fsz' := fun i =>
    if Qc_ltb 0 (fsz i)
    then qclamp_min (Qz min_size) (fs i * qceil (fsz i) / fp i)
    else fs i * qceil (fsz i) / fp i in
  resample g (SpacingArray (Vector (map Fin (tab fp n)))) min_size
  = Ok (if allclose (map Fin (tab fp n)) (_spacing g) then g
        else finite_grid (tab fsz' n) c (tab fp n) d flag).
Proof.
  intros Hfp g fsz'.
  assert (Hany : any (map (fun s => sleb s (Fin 0)) (map Fin (tab fp n))) = false).
  { apply any_sleb_positive. intros q Hq. apply In_tab in Hq.
    destruct Hq as (i & Hi & ->). now apply Hfp. }
  set (fe := fun i => fs i * qceil (fsz i)).
  assert (Eext : extent g = map Fin (tab fe n)).
  { unfold g, finite_grid. rewrite extent_finite. unfold qextent, tab. fuse. reflexivity. }
  unfold resample. cbn [bind]. unfold g at 1. rewrite ndim_finite_grid.
  rewrite cat_scalars_Vector by now rewrite length_map, length_tab.
  cbn [bind]. destruct (allclose (map Fin (tab fp n)) _); [reflexivity |].
  rewrite Hany, !Eext. cbn [raise_if]. f_equal.
  unfold g, finite_grid. cbn [_size _center _spacing _direction _align_corners].
  f_equal. unfold vdiv, tab. fuse. apply map_ext_in. intros i Hi. apply in_seq in Hi.
  rewrite sgtb_Fin_0, sdiv_Fin by (specialize (Hfp i ltac:(lia)); qc_order).
  unfold Fz. rewrite sclamp_min_Fin. unfold fsz', fe. now destruct (Qc_ltb 0 (fsz i)).
Qed.

(** *** Isotropic resampling *)

Lemma fold_smin_Fin (l : list Qc) (x : Qc) :
  exists m, fold_left smin (map Fin l) (Fin x) = Fin m
    /\ In m (x :: l) /\ forall y, In y (x :: l) -> m <= y.
Proof.
  revert x. induction l as [| y l IH]; intros x.
  - exists x. split; [reflexivity |]. split; [now left |].
    intros z [<- | []]. apply Qcle_refl.
  - cbn [map fold_left smin].
    destruct (sleb (Fin x) (Fin y)) eqn:E.
    + apply sleb_Fin in E. destruct (IH x) as (m & Hm & Hin & Hle).
      exists m. split; [exact Hm |]. split.
      * destruct Hin as [<- | Hin]; [now left | now right; right].
      * intros z [<- | [<- | Hz]].
        -- apply Hle. now left.
        -- apply Qcle_trans with x; [apply Hle; now left | exact E].
        -- apply Hle. now right.
    + apply sleb_Fin_false in E. destruct (IH y) as (m & Hm & Hin & Hle).
      exists m. split; [exact Hm |]. split.
      * now right.
      * intros z [<- | Hz]; [| now apply Hle].
        apply Qcle_trans with y; [apply Hle; now left | qc_order].
Qed.

Lemma fold_smax_Fin (l : list Qc) (x : Qc) :
  exists m, fold_left smax (map Fin l) (Fin x) = Fin m
    /\ In m (x :: l) /\ forall y, In y (x :: l) -> y <= m.
Proof.
  revert x. induction l as [| y l IH]; intros x.
  - exists x. split; [reflexivity |]. split; [now left |].
    intros z [<- | []]. apply Qcle_refl.
  - cbn [map fold_left smax].
    destruct (sleb (Fin x) (Fin y)) eqn:E.
    + apply sleb_Fin in E. destruct (IH y) as (m & Hm & Hin & Hle).
      exists m. split; [exact Hm |]. split.
      * now right.
      * intros z [<- | Hz]; [| now apply Hle].
        apply Qcle_trans with y; [exact E | apply Hle; now left].
    + apply sleb_Fin_false in E. destruct (IH x) as (m & Hm & Hin & Hle).
      exists m. split; [exact Hm |]. split.
      * destruct Hin as [<- | Hin]; [now left | now right; right].
      * intros z [<- | [<- | Hz]].
        -- apply Hle. now left.
        -- apply Qcle_trans with x; [qc_order | apply Hle; now left].
        -- apply Hle. now right.
Qed.

Lemma repeat_tab {A : Type} (x : A) (n : nat) : repeat x n = tab (fun _ => x) n.
Proof.
  unfold tab. induction n as [| n IH]; [reflexivity |].
  cbn [repeat seq map]. f_equal. rewrite IH, <- seq_shift, map_map. reflexivity.
Qed.

(** [resample] with a single number as spacing, on a presented grid. *)
Lemma resample_scalar (fsz fs : nat -> Qc) (n : nat) (c : list Qc) (d : list (list Qc))
    (flag : bool) (min_size : Z) (m : Qc) :
  resample (finite_grid (tab fsz n) c (tab fs n) d flag) (SpacingArray (Scalar (Fin m)))
    min_size
  = resample (finite_grid (tab fsz n) c (tab fs n) d flag)
      (SpacingArray (Vector (map Fin (tab (fun _ => m) n)))) min_size.
Proof.
  unfold resample. cbn [bind]. rewrite ndim_finite_grid.
  rewrite cat_scalars_Vector by now rewrite length_map, length_tab.
  unfold cat_scalars. cbn [to_float]. rewrite repeat_tab. unfold tab. now rewrite map_map.
Qed.

(** ** Regions of interest *)

Lemma evens_flat_map {A B : Type} (a b : A -> B) (l : list A) :
  evens (flat_map (fun i => [a i; b i]) l) = map a l
  /\ odds (flat_map (fun i => [a i; b i]) l) = map b l.
Proof.
  induction l as [| x l [IH1 IH2]]; [split; reflexivity |].
  cbn [flat_map app evens odds map]. now rewrite IH1, IH2.
Qed.

Lemma length_flat_map_pair {A B : Type} (a b : A -> B) (l : list A) :
  length (flat_map (fun i => [a i; b i]) l) = (2 * length l)%nat.
Proof. induction l as [| x l IH]; [reflexivity |]. cbn [flat_map app length]. lia. Qed.

Lemma tab_pointwise {A : Type} (f h : nat -> A) (n : nat) :
  tab f n = tab h n -> forall i, (i < n)%nat -> f i = h i.
Proof.
  intros E i Hi. unfold tab in E.
  rewrite <- (nth_map_seq f (f i) Hi), E. now apply nth_map_seq.
Qed.

Lemma even_mod2 (n : nat) : Nat.modulo (2 * n) 2 = 0%nat.
Proof. rewrite Nat.mul_comm. apply Nat.Div0.mod_mul. Qed.

Lemma Qz_minus (a b : Z) : Qz (a - b) = Qz a - Qz b.
Proof. unfold Z.sub. rewrite Qz_plus, Qz_opp. reflexivity. Qed.

(** [region_of_interest(start, size)] on a valid grid whose stored sizes are
    positive integers: for sizes of at least 1 it returns a grid of the
    requested size, with the spacing and direction of [g], whose origin is,
    with the exact numbers of the model, the world position of the index
    [start]. *)
Lemma region_of_interest_spec_exact (g : Grid) (cur start sz : list Z) :
  valid_grid g = true ->
  _size g = map Fz cur -> forallb (fun n => (1 <=? n)%Z) cur = true ->
  length start = ndim g -> length sz = ndim g ->
  forallb (fun n => (1 <=? n)%Z) sz = true ->
  exists g',
    region_of_interest g (IntVector start) (IntVector sz) = Ok g'
    /\ size g' = Ok sz
    /\ spacing g' = spacing g /\ direction g' = direction g
    /\ index_to_world g (map Fz start) (Some (-1)%Z) = Ok (origin g').
Proof.
  intros Hv Hcur Hcur1 Hls Hlz Hz1.
  unfold region_of_interest. rewrite !int_sizes_IntVector by assumption. cbn [bind].
  destruct (valid_grid_presented _ Hv)
    as (n & fsz & fs & c & d & flag & Hg & Hn & Hc & Hd & Hr & Hsz & Hsp & Hdc).
  subst g. clear Hv. rewrite ndim_finite_grid in *.
  unfold finite_grid in Hcur. cbn [_size] in Hcur.
  assert (Hlc : length cur = n).
  { apply (f_equal (@length _)) in Hcur. now rewrite !length_map, length_tab in Hcur. }
  set (fm := fun i => nth i cur 0%Z). set (fst' := fun i => nth i start 0%Z).
  set (fz := fun i => nth i sz 0%Z).
  assert (Ecur : cur = tab fm n) by (rewrite <- Hlc; symmetry; apply tab_nth).
  assert (Est : start = tab fst' n) by (rewrite <- Hls; symmetry; apply tab_nth).
  assert (Esz : sz = tab fz n) by (rewrite <- Hlz; symmetry; apply tab_nth).
  assert (Hfsz : forall i, (i < n)%nat -> fsz i = Qz (fm i)).
  { intros i Hi. rewrite Ecur in Hcur. unfold tab in Hcur. rewrite !map_map in Hcur.
    apply Fin_inj. exact (@tab_pointwise _ (fun i => Fin (fsz i)) (fun i => Fz (fm i)) n Hcur i Hi). }
  assert (Hm1 : forall i, (i < n)%nat -> (1 <= fm i)%Z).
  { intros i Hi. assert (Hi' : (i < length cur)%nat) by lia.
    pose proof (forallb_nth _ _ 0%Z Hcur1 Hi') as E. now apply Z.leb_le in E. }
  assert (Hfz1 : forall i, (i < n)%nat -> (1 <= fz i)%Z).
  { intros i Hi. assert (Hi' : (i < length sz)%nat) by lia.
    pose proof (forallb_nth _ _ 0%Z Hz1 Hi') as E. now apply Z.leb_le in E. }
  assert (Esize : size (finite_grid (tab fsz n) c (tab fs n) d flag) = Ok cur).
  { rewrite size_finite, Ecur. f_equal. unfold tab. rewrite map_map. apply map_ext_in.
    intros i Hi. apply in_seq in Hi. rewrite Hfsz by lia. apply Qceiling_Qz. }
  rewrite Esize. cbn [bind].
  set (num := flat_map _ (seq 0 n)).
  assert (Hnum : length num = (2 * n)%nat)
    by (unfold num; now rewrite length_flat_map_pair, length_seq).
  assert (Hbc : border_counts (finite_grid (tab fsz n) c (tab fs n) d flag) [] None
                  (Some (MSeq num)) = Ok num).
  { unfold border_counts. cbn [length Nat.eqb negb bind Nat.add].
    now rewrite Hnum, even_mod2. }
  assert (Hfull : full_counts n num = num).
  { unfold full_counts. rewrite Hnum, Nat.sub_diag. apply app_nil_r. }
  assert (Hlo : forall i, (i < n)%nat -> border_lo num i = Qz (fst' i)).
  { intros i Hi. unfold border_lo. f_equal.
    pose proof (proj1 (@evens_odds_tab _ 0%Z n num Hnum)) as E.
    unfold num in E at 1. rewrite (proj1 (evens_flat_map _ _ _)) in E.
    symmetry. exact (@tab_pointwise _ _ _ n E i Hi). }
  assert (Hhi : forall i, (i < n)%nat ->
            border_hi num i = Qz (fm i - (fst' i + fz i))).
  { intros i Hi. unfold border_hi. f_equal.
    pose proof (proj2 (@evens_odds_tab _ 0%Z n num Hnum)) as E.
    unfold num in E at 1. rewrite (proj2 (evens_flat_map _ _ _)) in E.
    symmetry. exact (@tab_pointwise _ _ _ n E i Hi). }
  assert (Hi2w : index_to_world (finite_grid (tab fsz n) c (tab fs n) d flag)
                   (map Fz start) (Some (-1)%Z)
                 = Ok (map Fin (map2 Qcplus
                                  (qmatvec (qscale_cols d (tab fs n)) (tab (fun i => Qz (fst' i)) n))
                                  (qorigin (tab fsz n) c (tab fs n) d)))).
  { replace (map Fz start) with (map Fin (tab (fun i => Qz (fst' i)) n))
      by (rewrite Est; unfold tab; now rewrite !map_map).
    apply index_to_world_finite; rewrite ?length_tab; try assumption; reflexivity. }
  assert (Hr' : forall row, In row d -> length row = length (tab fs n))
    by (intros; rewrite length_tab; now apply Hr).
  destruct (forallb (fun z => (z =? 0)%Z) num) eqn:Hzero.
  - (* every count is zero: [crop] returns the grid itself *)
    exists (finite_grid (tab fsz n) c (tab fs n) d flag).
    assert (Hz : forall i, (i < n)%nat -> fst' i = 0%Z /\ fz i = fm i).
    { intros i Hi. rewrite forallb_forall in Hzero.
      assert (H1 : In (fst' i) num /\ In (fm i - (fst' i + fz i))%Z num).
      { unfold num. split; apply in_flat_map; exists i;
          (split; [apply in_seq; lia | cbn; auto]). }
      destruct H1 as [H1 H2]. apply Hzero in H1, H2. apply Z.eqb_eq in H1, H2. lia. }
    split; [unfold crop; rewrite Hbc; cbn [bind]; now rewrite Hzero |].
    split.
    { rewrite Esize, Ecur, Esz. f_equal. apply tab_ext. intros i Hi.
      symmetry. now apply Hz. }
    split; [reflexivity |]. split; [reflexivity |].
    rewrite Hi2w. unfold finite_grid. rewrite origin_finite by assumption.
    apply (f_equal (@Ok vec)), (f_equal (map Fin)).
    apply plus_matvec_zero.
    + intros row. replace (tab (fun i => Qz (fst' i)) n) with (repeat 0 n).
      * apply qdot_zero_r.
      * rewrite repeat_tab. apply tab_ext. intros i Hi.
        rewrite (proj1 (Hz i Hi)). now rewrite Qz_0.
    + unfold qorigin. rewrite length_map2, length_qmatvec, length_qscale_cols, Hc, Hd.
      apply Nat.min_id.
  - rewrite (@crop_tab fsz fs n c d flag) with (cnt := num); try assumption; [| lia].
    rewrite Hfull.
    set (fsz' := fun i => qcropped (fsz i) (border_lo num i) (border_hi num i)).
    assert (Efsz' : tab fsz' n = tab (fun i => Qz (fz i)) n).
    { apply tab_ext. intros i Hi. unfold fsz', qcropped.
      rewrite Hlo, Hhi, Hfsz by assumption.
      rewrite (Qc_ltb_true (Qz_pos (Z.lt_le_trans 0 1 _ Z.lt_0_1 (Hm1 i Hi)))).
      rewrite <- !Qz_minus.
      replace (fm i - fst' i - (fm i - (fst' i + fz i)))%Z with (fz i) by lia.
      apply qclamp_min_id. rewrite <- Qz_1. apply (proj1 (Qz_le 1 (fz i))). now apply Hfz1. }
    assert (Elo : tab (border_lo num) n = tab (fun i => Qz (fst' i)) n)
      by (apply tab_ext; exact Hlo).
    rewrite Efsz', Elo.
    eexists. split; [reflexivity |]. split.
    { rewrite size_finite, Esz. f_equal. unfold tab. rewrite map_map. apply map_ext.
      intros i. apply Qceiling_Qz. }
    split; [reflexivity |]. split; [reflexivity |].
    rewrite Hi2w. unfold finite_grid. rewrite origin_finite by assumption.
    now rewrite regrid_origin by congruence.
Qed.

(** ** Shapes of the matrices of [transform] *)

Lemma has_shape_spec (r c : nat) (m : mat) :
  has_shape r c m = true <-> length m = r /\ forall row, In row m -> length row = c.
Proof.
  unfold has_shape, rows_have. rewrite andb_true_iff, Nat.eqb_eq, forallb_forall.
  split; intros [H1 H2]; (split; [exact H1 |]); intros row Hin.
  - now apply Nat.eqb_eq, H2.
  - now apply Nat.eqb_eq, H2.
Qed.

Lemma has_shape_diag (v : vec) : has_shape (length v) (length v) (diag v) = true.
Proof. unfold has_shape. now rewrite length_diag, Nat.eqb_refl, rows_have_diag. Qed.

Lemma has_shape_eye (n : nat) : has_shape n n (eye n) = true.
Proof.
  unfold eye. pose proof (has_shape_diag (repeat (Fin 1) n)) as H.
  now rewrite repeat_length in H.
Qed.

Lemma ncols_shape (r c : nat) (m : mat) :
  r <> 0%nat -> has_shape r c m = true -> ncols m = c.
Proof.
  intros Hr H. apply has_shape_spec in H. destruct H as [Hl Hrow].
  unfold ncols. destruct m as [| row m]; [simpl in Hl; congruence |].
  apply Hrow. now left.
Qed.

Lemma has_shape_mm (r k c : nat) (a b : mat) :
  k <> 0%nat -> length a = r -> has_shape k c b = true -> has_shape r c (mm a b) = true.
Proof.
  intros Hk Ha Hb. apply has_shape_spec. split; [unfold mm; now rewrite length_map |].
  intros row Hin. unfold mm in Hin. apply in_map_iff in Hin. destruct Hin as (x & <- & _).
  now rewrite length_map, length_seq, (@ncols_shape k c b Hk Hb).
Qed.

Lemma has_shape_transpose (r c : nat) (m : mat) :
  r <> 0%nat -> has_shape r c m = true -> has_shape c r (transpose m) = true.
Proof.
  intros Hr H. pose proof (@ncols_shape r c m Hr H) as Hc.
  apply has_shape_spec in H. destruct H as [Hl _].
  apply has_shape_spec. unfold transpose. rewrite length_map, length_seq, Hc.
  split; [reflexivity |]. intros row Hin. apply in_map_iff in Hin.
  destruct Hin as (j & <- & _). unfold col. now rewrite length_map.
Qed.

(** [homogeneous_matrix] appends the translation as a last column. *)
Lemma homogeneous_matrix_shape (r c : nat) (m : mat) (t : vec) :
  has_shape r c m = true -> length t = r ->
  exists M, homogeneous_matrix m (Vector t) = Ok M /\ has_shape r (S c) M = true.
Proof.
  intros H Ht. apply has_shape_spec in H. destruct H as [Hl Hrow].
  unfold homogeneous_matrix. rewrite cat_scalars_Vector by congruence. cbn [bind].
  eexists. split; [reflexivity |]. apply has_shape_spec. split.
  - rewrite length_map2, Hl, Ht. apply Nat.min_id.
  - intros row Hin. rewrite map2_combine in Hin. apply in_map_iff in Hin.
    destruct Hin as ([x ti] & <- & Hin). apply in_combine_l in Hin. cbn [fst snd].
    rewrite length_app, (Hrow x Hin). cbn [length]. lia.
Qed.

Lemma homogeneous_matrix_scalar_shape (r c : nat) (m : mat) (x : scalar) :
  has_shape r c m = true ->
  exists M, homogeneous_matrix m (Scalar x) = Ok M /\ has_shape r (S c) M = true.
Proof.
  intros H. pose proof (proj1 (has_shape_spec r c m) H) as [Hl _].
  destruct (@homogeneous_matrix_shape r c m (repeat x r) H (repeat_length _ _))
    as (M & HM & HS).
  exists M. split; [| exact HS]. rewrite <- HM. unfold homogeneous_matrix.
  rewrite Hl. unfold cat_scalars. cbn [to_float].
  destruct r as [| [| r]]; cbn [repeat]; try reflexivity.
  cbn [length]. now rewrite repeat_length, Nat.eqb_refl.
Qed.

Lemma rows_have_unique (c c' : nat) (m : mat) :
  m <> [] -> rows_have c m = true -> rows_have c' m = true -> c = c'.
Proof.
  intros Hm H H'. destruct m as [| row m]; [congruence |].
  unfold rows_have in *. cbn [forallb] in *.
  apply andb_true_iff in H, H'. destruct H as [H _], H' as [H' _].
  apply Nat.eqb_eq in H, H'. congruence.
Qed.

(** Linear part and translation of a [D x (D+1)] matrix. *)
Lemma as_affine_points (D : nat) (m : mat) :
  D <> 0%nat -> has_shape D (S D) m = true ->
  as_affine (Matrix m)
  = Ok (Some (map (firstn D) m), Some (map (fun row => nth D row (Fin 0)) m))
  /\ has_shape D D (map (firstn D) m) = true.
Proof.
  intros HD H. unfold has_shape in H. apply andb_true_iff in H. destruct H as [Hl Hr].
  apply Nat.eqb_eq in Hl.
  assert (Hne : m <> []) by (intros ->; simpl in Hl; congruence).
  assert (H1 : rows_have D m = false).
  { destruct (rows_have D m) eqn:E; [| reflexivity].
    pose proof (@rows_have_unique D (S D) m Hne E Hr). lia. }
  unfold as_affine. rewrite Hl, H1, Hr. split; [reflexivity |].
  apply has_shape_spec. rewrite length_map. split; [exact Hl |].
  intros row Hin. apply in_map_iff in Hin. destruct Hin as (x & <- & Hin).
  unfold rows_have in Hr. rewrite forallb_forall in Hr. specialize (Hr x Hin).
  apply Nat.eqb_eq in Hr. rewrite length_firstn. lia.
Qed.

Lemma as_affine_linear (D : nat) (m : mat) :
  has_shape D D m = true -> as_affine (Matrix m) = Ok (Some m, None).
Proof.
  intros H. unfold has_shape in H. apply andb_true_iff in H. destruct H as [Hl Hr].
  apply Nat.eqb_eq in Hl. unfold as_affine. now rewrite Hl, Hr.
Qed.

(** Composing two point transformations gives a point transformation. *)
Lemma hmm_points_shape (D : nat) (A B : mat) :
  D <> 0%nat -> has_shape D (S D) A = true -> has_shape D (S D) B = true ->
  exists M, hmm (Matrix A) (Matrix B) = Ok M /\ has_shape D (S D) M = true.
Proof.
  intros HD HA HB.
  destruct (@as_affine_points D A HD HA) as [EA SA].
  destruct (@as_affine_points D B HD HB) as [EB SB].
  unfold hmm. rewrite EA, EB. cbn [bind affine_dim].
  pose proof (proj1 (has_shape_spec _ _ A) HA) as [HlA _].
  pose proof (proj1 (has_shape_spec _ _ B) HB) as [HlB _].
  rewrite !length_map, HlA, HlB, Nat.eqb_refl. cbn [negb raise_if].
  apply homogeneous_matrix_shape.
  - apply has_shape_mm with (k := D); [exact HD | now rewrite length_map | exact SB].
  - unfold vadd. rewrite length_map2, length_matvec, !length_map, HlA. apply Nat.min_id.
Qed.

(** A linear map composed with a translation that is applied first. *)
Lemma hmm_linear_vector_shape (D : nat) (A : mat) (t : vec) :
  has_shape D D A = true -> length t = D ->
  exists M, hmm (Matrix A) (Vector t) = Ok M /\ has_shape D (S D) M = true.
Proof.
  intros HA Ht. unfold hmm. rewrite (@as_affine_linear D A HA). cbn [as_affine bind affine_dim].
  pose proof (proj1 (has_shape_spec _ _ A) HA) as [HlA _].
  rewrite HlA, Ht, Nat.eqb_refl. cbn [negb raise_if].
  apply homogeneous_matrix_shape; [exact HA |]. now rewrite length_matvec.
Qed.

(** *** The matrices of a grid *)

Section GridShapes.

Variable g : Grid.
Hypothesis Hok : grid_shape_ok g = true.

Lemma shape_ok_ndim : ndim g <> 0%nat.
Proof. now destruct (grid_shape_ok_parts _ Hok). Qed.

Lemma has_shape_direction : has_shape (ndim g) (ndim g) (_direction g) = true.
Proof.
  destruct (grid_shape_ok_parts _ Hok) as (_ & _ & _ & Hd & Hr).
  apply has_shape_spec. split; assumption.
Qed.

Lemma has_shape_affine : has_shape (ndim g) (ndim g) (affine g) = true.
Proof.
  destruct (grid_shape_ok_parts _ Hok) as (Hn & _ & Hs & Hd & Hr).
  unfold affine, direction, spacing. apply has_shape_mm with (k := ndim g); try assumption.
  pose proof (has_shape_diag (_spacing g)) as H. now rewrite Hs in H.
Qed.

Lemma has_shape_inverse_affine : has_shape (ndim g) (ndim g) (inverse_affine g) = true.
Proof.
  destruct (grid_shape_ok_parts _ Hok) as (Hn & _ & Hs & Hd & Hr).
  unfold inverse_affine, direction, spacing.
  apply has_shape_mm with (k := ndim g); try assumption.
  - now rewrite length_diag, length_map.
  - apply has_shape_transpose; [assumption | apply has_shape_direction].
Qed.

Lemma length_origin : length (origin g) = ndim g.
Proof.
  destruct (grid_shape_ok_parts _ Hok) as (Hn & Hc & Hs & Hd & Hr).
  unfold origin, vsub. rewrite length_map2, length_matvec, length_affine, Hc, Hd.
  apply Nat.min_id.
Qed.

End GridShapes.

Lemma has_shape_diag_n (n : nat) (v : vec) : length v = n -> has_shape n n (diag v) = true.
Proof. intros <-. apply has_shape_diag. Qed.

(** The step [matrix <- ... ;; match matrix with ...] of [transform] around a
    homogeneous matrix. *)
Lemma transform_point_step (n c : nat) (M : mat) (t : array) :
  (exists m, homogeneous_matrix M t = Ok m /\ has_shape n c m = true) ->
  exists m,
    (matrix <- (m <- homogeneous_matrix M t ;; Ok (Some m)) ;;
     match matrix with
     | None => Raise NotImplementedError
     | Some m => Ok m
     end) = Ok m
    /\ has_shape n c m = true.
Proof. intros (m & Hm & Hs). exists m. now rewrite Hm. Qed.

Ltac size_length :=
  rewrite ?length_map, ?length_size_tensor, ?repeat_length; reflexivity.

(** The transformations that [transform] writes down directly. *)
Lemma transform_direct_shape (k : nat) (g : Grid) (a b : Axes) (vectors : bool) :
  grid_shape_ok g = true ->
  match a, b with
  | CUBE, WORLD | CUBE_CORNERS, WORLD | WORLD, CUBE | WORLD, CUBE_CORNERS => True
  | _, _ =>
      exists m, transform_rec (S k) g (Some a) (Some b) None vectors = Ok m
        /\ has_shape (ndim g)
             (if vectors || cube_pair a b then ndim g else S (ndim g)) m = true
  end.
Proof.
  intros Hok.
  pose proof (@has_shape_affine g Hok) as HA.
  pose proof (@has_shape_inverse_affine g Hok) as HI.
  pose proof (@length_origin g Hok) as HO.
  destruct a, b; try exact I; destruct vectors;
    cbn [transform_rec transform_body Axes_eqb negb orb cube_pair];
    try (eexists; split; [reflexivity |];
         first [ exact HA | exact HI | apply has_shape_eye
               | apply has_shape_diag_n; size_length ]).
  all: try (apply transform_point_step;
            first [ apply homogeneous_matrix_scalar_shape
                  | apply homogeneous_matrix_shape ];
            first [ exact HA | exact HO | apply has_shape_eye | size_length
                  | apply has_shape_diag_n; size_length ]).
  destruct (@hmm_linear_vector_shape (ndim g) (inverse_affine g) (vneg (origin g)) HI)
    as (m & Hm & Hs); [unfold vneg; now rewrite length_map |].
  exists m. rewrite Hm. now split.
Qed.

(** Composition of two transformations of one kind: [torch.mm] for vectors,
    [hmm] for points. *)
Lemma compose_shape (n : nat) (vectors : bool) (A B : mat) :
  n <> 0%nat ->
  has_shape n (if vectors then n else S n) A = true ->
  has_shape n (if vectors then n else S n) B = true ->
  exists m,
    (if vectors then Ok (Some (mm A B)) else m <- hmm (Matrix A) (Matrix B) ;; Ok (Some m))
    = Ok (Some m)
    /\ has_shape n (if vectors then n else S n) m = true.
Proof.
  intros Hn HA HB. destruct vectors.
  - eexists. split; [reflexivity |]. apply has_shape_mm with (k := n); try assumption.
    now apply has_shape_spec in HA.
  - destruct (@hmm_points_shape n A B Hn HA HB) as (m & Hm & Hs).
    exists m. now rewrite Hm.
Qed.

(** [transform] between two coordinate spaces of one grid returns a matrix
    of [D] rows: of [D + 1] columns for points and of [D] columns for
    vectors, except between [CUBE] and [CUBE_CORNERS], where the matrix is
    [D x D] for points as well. *)
Theorem transform_shape (g : Grid) (a b : Axes) (vectors : bool) :
  grid_shape_ok g = true ->
  exists m, transform g (Some a) (Some b) None vectors = Ok m
    /\ has_shape (ndim g) (if vectors || cube_pair a b then ndim g else S (ndim g)) m
       = true.
Proof.
  intros Hok. pose proof (@shape_ok_ndim g Hok) as Hn.
  assert (D : forall a' b', match a', b' with
            | CUBE, WORLD | CUBE_CORNERS, WORLD | WORLD, CUBE | WORLD, CUBE_CORNERS => True
            | _, _ =>
                exists m, transform_rec 2 g (Some a') (Some b') None vectors = Ok m
                  /\ has_shape (ndim g)
                       (if vectors || cube_pair a' b' then ndim g else S (ndim g)) m = true
            end) by (intros; now apply transform_direct_shape).
  unfold transform.
  destruct a, b;
    try (match goal with
         | |- context [transform_rec 3 g (Some ?a') (Some ?b')] =>
             exact (@transform_direct_shape 2 g a' b' vectors Hok)
         end).
  - (* CUBE to WORLD *)
    destruct (D CUBE GRID) as (m1 & H1 & S1). destruct (D GRID WORLD) as (m2 & H2 & S2).
    change (transform_rec 3) with (transform_body (transform_rec 2)).
    cbn [transform_body Axes_eqb negb]. rewrite H1, H2. cbn [bind cube_pair] in *.
    rewrite orb_false_r in *.
    destruct (@compose_shape (ndim g) vectors m2 m1 Hn S2 S1) as (m & Hm & Hs).
    exists m. rewrite Hm. now split.
  - (* CUBE_CORNERS to WORLD *)
    destruct (D CUBE_CORNERS GRID) as (m1 & H1 & S1).
    destruct (D GRID WORLD) as (m2 & H2 & S2).
    change (transform_rec 3) with (transform_body (transform_rec 2)).
    cbn [transform_body Axes_eqb negb]. rewrite H1, H2. cbn [bind cube_pair] in *.
    rewrite orb_false_r in *.
    destruct (@compose_shape (ndim g) vectors m2 m1 Hn S2 S1) as (m & Hm & Hs).
    exists m. rewrite Hm. now split.
  - (* WORLD to CUBE *)
    destruct (D WORLD GRID) as (m1 & H1 & S1). destruct (D GRID CUBE) as (m2 & H2 & S2).
    change (transform_rec 3) with (transform_body (transform_rec 2)).
    cbn [transform_body Axes_eqb negb]. rewrite H1, H2. cbn [bind cube_pair] in *.
    rewrite orb_false_r in *.
    destruct (@compose_shape (ndim g) vectors m2 m1 Hn S2 S1) as (m & Hm & Hs).
    exists m. rewrite Hm. now split.
  - (* WORLD to CUBE_CORNERS *)
    destruct (D WORLD GRID) as (m1 & H1 & S1).
    destruct (D GRID CUBE_CORNERS) as (m2 & H2 & S2).
    change (transform_rec 3) with (transform_body (transform_rec 2)).
    cbn [transform_body Axes_eqb negb]. rewrite H1, H2. cbn [bind cube_pair] in *.
    rewrite orb_false_r in *.
    destruct (@compose_shape (ndim g) vectors m2 m1 Hn S2 S1) as (m & Hm & Hs).
    exists m. rewrite Hm. now split.
Qed.

(** [transform_shape] on the 4 x 6 grid: points from the world to the cube. *)
Lemma transform_shape_witness :
  exists m, transform (plain_grid [4; 6]%Z true) (Some WORLD) (Some CUBE) None false = Ok m
    /\ has_shape 2 3 m = true.
Proof.
  apply (@transform_shape (plain_grid [4; 6]%Z true) WORLD CUBE false). reflexivity.
Defined.


(** *** The depth of the recursion of [transform] *)

Lemma transform_depth_self (k : nat) (g : Grid) (a b : Axes) (vectors : bool) :
  transform_rec (2 + k) g (Some a) (Some b) None vectors
  = transform_rec 2 g (Some a) (Some b) None vectors.
Proof. destruct a, b; reflexivity. Qed.

(** Unfolding the recursion more than three times changes no result: no call
    of [transform] is nested deeper. *)
Lemma transform_depth (k : nat) (g : Grid) (a b : option Axes) (to_grid : option Grid)
    (vectors : bool) :
  transform_rec (3 + k) g a b to_grid vectors = transform g a b to_grid vectors.
Proof.
  unfold transform.
  change (transform_rec (3 + k)) with (transform_body (transform_rec (2 + k))).
  change (transform_rec 3) with (transform_body (transform_rec 2)).
  unfold transform_body.
  destruct a as [a |]; [| destruct b, to_grid; try reflexivity; apply transform_depth_self].
  destruct to_grid as [tg |].
  - destruct (grid_eq tg g).
    + destruct (Axes_eqb a (match b with Some a0 => a0 | None => a end)); [reflexivity |].
      destruct a, b as [[] |]; rewrite ?transform_depth_self; reflexivity.
    + destruct (negb (Nat.eqb (ndim tg) (ndim g))); [reflexivity |].
      now rewrite !transform_depth_self.
  - destruct (Axes_eqb a (match b with Some a0 => a0 | None => a end)); [reflexivity |].
    destruct a, b as [[] |]; rewrite ?transform_depth_self; reflexivity.
Qed.

(** ** Normalised cube coordinates and grid indices *)

Lemma qdot_comm (a b : list Qc) : qdot a b = qdot b a.
Proof.
  revert b. induction a as [| x a IH]; intros [| y b]; cbn [qdot]; try reflexivity.
  rewrite IH. ring.
Qed.

(** Row [i] of a diagonal matrix against a vector. *)
Lemma qdot_diag_row (v p : list Qc) (i : nat) :
  length p = length v -> (i < length v)%nat ->
  qdot (map (fun j => if Nat.eqb i j then nth i v 0 else 0) (seq 0 (length v))) p
  = nth i v 0 * nth i p 0.
Proof.
  intros Hl Hi. rewrite qdot_comm.
  rewrite (map_ext (fun j => if Nat.eqb i j then nth i v 0 else 0)
                   (fun j => if Nat.eqb j i then nth j v 0 else 0)).
  2:{ intros j. rewrite (Nat.eqb_sym i j). destruct (Nat.eqb_spec j i); [now subst | reflexivity]. }
  rewrite <- Hl, qdot_delta.
  destruct (Nat.leb_spec 0 i); [| lia]. destruct (Nat.ltb_spec i (0 + length p)); [| lia].
  cbn [andb]. rewrite Nat.sub_0_r. ring.
Qed.

Lemma diag_Fin (v : list Qc) :
  diag (map Fin v)
  = lift (map (fun i => map (fun j => if Nat.eqb i j then nth i v 0 else 0)
                          (seq 0 (length v))) (seq 0 (length v))).
Proof.
  unfold diag, lift. rewrite length_map, !map_map. apply map_ext. intros i.
  rewrite map_map. apply map_ext. intros j.
  destruct (Nat.eqb i j); [apply nth_map_Fin | reflexivity].
Qed.

(** A diagonal matrix scales the entries of a vector. *)
Lemma diag_matvec_tab (fv fp : nat -> Qc) (n : nat) :
  matvec (diag (map Fin (tab fv n))) (map Fin (tab fp n))
  = map Fin (tab (fun i => fv i * fp i) n).
Proof.
  rewrite diag_Fin, matvec_Fin. f_equal. unfold qmatvec. rewrite map_map, length_tab.
  unfold tab at 3. apply map_ext_in. intros i Hi. apply in_seq in Hi.
  rewrite <- (length_tab fv n) at 1.
  rewrite qdot_diag_row by (rewrite ?length_tab; lia).
  unfold tab. now rewrite !nth_map_seq by lia.
Qed.

(** A point through the homogeneous matrix of a diagonal matrix and a
    translation. *)
Lemma apply_diag_transform (fv ft fp : nat -> Qc) (n : nat) :
  n <> 0%nat ->
  (M <- homogeneous_matrix (diag (map Fin (tab fv n))) (Vector (map Fin (tab ft n))) ;;
   homogeneous_transform M (map Fin (tab fp n)) false)
  = Ok (map Fin (tab (fun i => fv i * fp i + ft i) n)).
Proof.
  intros Hn. unfold homogeneous_matrix.
  rewrite cat_scalars_Vector by now rewrite length_diag, !length_map, !length_tab.
  cbn [bind].
  rewrite (@homogeneous_point _ _ _ n); try assumption;
    rewrite ?length_diag, ?length_map, ?length_tab; try reflexivity.
  - rewrite diag_matvec_tab, vadd_Fin. unfold tab. fuse. reflexivity.
  - intros row Hin.
    pose proof (proj1 (has_shape_spec _ _ _) (has_shape_diag (map Fin (tab fv n)))) as [_ H].
    rewrite (H row Hin). now rewrite length_map, length_tab.
Qed.

Lemma homogeneous_matrix_Scalar (M : mat) (x : scalar) :
  homogeneous_matrix M (Scalar x) = homogeneous_matrix M (Vector (repeat x (length M))).
Proof.
  unfold homogeneous_matrix. rewrite cat_scalars_Vector by apply repeat_length.
  reflexivity.
Qed.

Section CubeCoordinates.

Variables (fsz fs : nat -> Qc) (n : nat) (c : list Qc) (d : list (list Qc)) (flag : bool).
Hypothesis Hn : n <> 0%nat.

Let g := finite_grid (tab fsz n) c (tab fs n) d flag.
Let N := fun i => qceil (fsz i).

Lemma size_tensor_tab : size_tensor g = map Fin (tab N n).
Proof.
  unfold size_tensor, g, finite_grid. cbn [_size]. rewrite _round_size_Fin.
  unfold N, tab. now rewrite !map_map.
Qed.

Lemma index_to_cube_tab (fp : nat -> Qc) (ac : option bool) :
  let aligned := match ac with None => flag | Some b => b end in
  (forall i, (i < n)%nat -> N i <> (if aligned then 1 else 0)) ->
  index_to_cube g (map Fin (tab fp n)) None ac
  = Ok (map Fin (tab (fun i => if aligned
                               then Qz 2 / (N i - 1) * fp i + Qz (-1)
                               else Qz 2 / N i * fp i + (1 / N i - 1)) n)).
Proof.
  intros aligned HN. unfold index_to_cube, transform_points, apply_transform.
  change (match ac with Some b => b | None => _align_corners g end) with aligned.
  clearbody aligned. destruct aligned; cbn [from_align_corners Axes_eqb negb orb];
    unfold transform; cbn [transform_rec transform_body Axes_eqb negb];
    rewrite size_tensor_tab.
  - rewrite homogeneous_matrix_Scalar, length_diag, !length_map, length_tab.
    replace (map (fun n0 => sdiv (Fin (Qz 2)) (ssub n0 (Fin 1))) (map Fin (tab N n)))
      with (map Fin (tab (fun i => Qz 2 / (N i - 1)) n)).
    2:{ unfold tab. rewrite !map_map. apply map_ext_in. intros i Hi. apply in_seq in Hi.
        rewrite ssub_Fin, sdiv_Fin; [reflexivity |].
        specialize (HN i ltac:(lia)). intros E. apply HN.
        generalize dependent (N i). intros q _ E. qc_order. }
    replace (repeat (Fz (-1)) n) with (map Fin (tab (fun _ => Qz (-1)) n))
      by (rewrite repeat_tab; unfold tab; now rewrite map_map).
    pose proof (@apply_diag_transform (fun i => Qz 2 / (N i - 1)) (fun _ => Qz (-1)) fp n Hn)
      as E.
    destruct (homogeneous_matrix _ _) as [M | e]; [| discriminate E].
    cbn [bind] in *. now rewrite E.
  - replace (map (fun n0 => sdiv (Fin (Qz 2)) n0) (map Fin (tab N n)))
      with (map Fin (tab (fun i => Qz 2 / N i) n)).
    2:{ unfold tab. rewrite !map_map. apply map_ext_in. intros i Hi. apply in_seq in Hi.
        rewrite sdiv_Fin; [reflexivity | apply HN; lia]. }
    replace (map (fun n0 => ssub (sdiv (Fin 1) n0) (Fin 1)) (map Fin (tab N n)))
      with (map Fin (tab (fun i => 1 / N i - 1) n)).
    2:{ unfold tab. rewrite !map_map. apply map_ext_in. intros i Hi. apply in_seq in Hi.
        rewrite sdiv_Fin by (apply HN; lia). reflexivity. }
    pose proof (@apply_diag_transform (fun i => Qz 2 / N i) (fun i => 1 / N i - 1) fp n Hn)
      as E.
    destruct (homogeneous_matrix _ _) as [M | e]; [| discriminate E].
    cbn [bind] in *. now rewrite E.
Qed.

Lemma cube_to_index_tab (fp : nat -> Qc) (ac : option bool) :
  let aligned := match ac with None => flag | Some b => b end in
  cube_to_index g (map Fin (tab fp n)) None ac
  = Ok (map Fin (tab (fun i => if aligned
                               then Qfrac 1 2 * (N i - 1) * fp i + Qfrac 1 2 * (N i - 1)
                               else Qfrac 1 2 * N i * fp i
                                    + (Qfrac 1 2 * N i - Qfrac 1 2)) n)).
Proof.
  intros aligned. unfold cube_to_index, transform_points, apply_transform.
  change (match ac with Some b => b | None => _align_corners g end) with aligned.
  clearbody aligned. destruct aligned; cbn [from_align_corners Axes_eqb negb orb];
    unfold transform; cbn [transform_rec transform_body Axes_eqb negb];
    rewrite size_tensor_tab.
  - replace (map (fun n0 => smul (Ffrac 1 2) (ssub n0 (Fin 1))) (map Fin (tab N n)))
      with (map Fin (tab (fun i => Qfrac 1 2 * (N i - 1)) n))
      by (unfold tab; now rewrite !map_map).
    pose proof (@apply_diag_transform (fun i => Qfrac 1 2 * (N i - 1))
                  (fun i => Qfrac 1 2 * (N i - 1)) fp n Hn) as E.
    destruct (homogeneous_matrix _ _) as [M | e]; [| discriminate E].
    cbn [bind] in *. now rewrite E.
  - replace (map (fun n0 => smul (Ffrac 1 2) n0) (map Fin (tab N n)))
      with (map Fin (tab (fun i => Qfrac 1 2 * N i) n))
      by (unfold tab; now rewrite !map_map).
    replace (map (fun h => ssub h (Ffrac 1 2)) (map Fin (tab (fun i => Qfrac 1 2 * N i) n)))
      with (map Fin (tab (fun i => Qfrac 1 2 * N i - Qfrac 1 2) n))
      by (unfold tab; now rewrite !map_map).
    pose proof (@apply_diag_transform (fun i => Qfrac 1 2 * N i)
                  (fun i => Qfrac 1 2 * N i - Qfrac 1 2) fp n Hn) as E.
    destruct (homogeneous_matrix _ _) as [M | e]; [| discriminate E].
    cbn [bind] in *. now rewrite E.
Qed.

End CubeCoordinates.

Lemma Qfrac_half : Qfrac 1 2 * Qz 2 = 1.
Proof. apply Qc_is_canon. reflexivity. Qed.
Lemma Qz_m1 : Qz (-1) = - (1).
Proof. apply Qc_is_canon. reflexivity. Qed.
(** The two maps undo each other along one axis of [q] points. *)
Lemma corners_index_cube (q x : Qc) : Qz 2 <= q ->
  Qfrac 1 2 * (q - 1) * (Qz 2 / (q - 1) * x + Qz (-1)) + Qfrac 1 2 * (q - 1) = x.
Proof.
  intros Hq. rewrite Qz_m1.
  pose proof Qfrac_half as Hh. generalize dependent (Qfrac 1 2). intros h Hh.
  assert (E : q - 1 <> 0) by qc_order.
  transitivity (h * Qz 2 * x); [field; exact E |].
  rewrite Hh. ring.
Qed.
Lemma border_index_cube (q x : Qc) : 1 <= q ->
  Qfrac 1 2 * q * (Qz 2 / q * x + (1 / q - 1)) + (Qfrac 1 2 * q - Qfrac 1 2) = x.
Proof.
  intros Hq.
  pose proof Qfrac_half as Hh. generalize dependent (Qfrac 1 2). intros h Hh.
  assert (E : q <> 0) by qc_order.
  transitivity (h * Qz 2 * x); [field; exact E |].
  rewrite Hh. ring.
Qed.
Lemma corners_cube_index (q x : Qc) : Qz 2 <= q ->
  Qz 2 / (q - 1) * (Qfrac 1 2 * (q - 1) * x + Qfrac 1 2 * (q - 1)) + Qz (-1) = x.
Proof.
  intros Hq. rewrite Qz_m1.
  pose proof Qfrac_half as Hh. generalize dependent (Qfrac 1 2). intros h Hh.
  assert (E : q - 1 <> 0) by qc_order.
  transitivity (h * Qz 2 * x + h * Qz 2 - 1); [field; exact E |].
  rewrite Hh. ring.
Qed.
Lemma border_cube_index (q x : Qc) : 1 <= q ->
  Qz 2 / q * (Qfrac 1 2 * q * x + (Qfrac 1 2 * q - Qfrac 1 2)) + (1 / q - 1) = x.
Proof.
  intros Hq.
  pose proof Qfrac_half as Hh. generalize dependent (Qfrac 1 2). intros h Hh.
  assert (E : q <> 0) by qc_order.
  transitivity (h * Qz 2 * x + h * Qz 2 - 1 + (1 - h * Qz 2) / q); [field; exact E |].
  rewrite Hh. field. exact E.
Qed.

(** ** Vectors through [transform_vectors] *)

Lemma Qc_half_mult (q : Qc) : Qfrac 1 2 * q = q / Qz 2.
Proof.
  pose proof Qfrac_half as Hh. generalize dependent (Qfrac 1 2). intros h Hh.
  transitivity (h * Qz 2 * (q / Qz 2)); [field; exact Qz_2_neq_0 |].
  rewrite Hh. ring.
Qed.

Section VectorTransforms.

Variables (fsz fs : nat -> Qc) (n : nat) (c : list Qc) (d : list (list Qc)) (flag : bool).
Variable fv : nat -> Qc.
Hypothesis HN : forall i, (i < n)%nat -> Qz 2 <= qceil (fsz i).

Let g := finite_grid (tab fsz n) c (tab fs n) d flag.
Let N := fun i => qceil (fsz i).
Let v := map Fin (tab fv n).

Lemma N_facts (i : nat) : (i < n)%nat -> N i <> 0 /\ N i - 1 <> 0.
Proof.
  intros Hi. specialize (HN Hi). unfold N. generalize dependent (qceil (fsz i)).
  intros q Hq. split; qc_order.
Qed.

(** The diagonals of [transform] and the scales of [transform_vectors]. *)
Lemma scale_grid_cube :
  map (fun x => sdiv (Fin (Qz 2)) x) (size_tensor g) = map Fin (tab (fun i => Qz 2 / N i) n).
Proof.
  unfold g. rewrite size_tensor_tab. fold N. unfold tab. rewrite !map_map.
  apply map_ext_in. intros i Hi. apply in_seq in Hi.
  rewrite sdiv_Fin; [reflexivity | apply N_facts; lia].
Qed.

Lemma scale_grid_corners :
  map (fun x => sdiv (Fin (Qz 2)) (ssub x (Fin 1))) (size_tensor g)
  = map Fin (tab (fun i => Qz 2 / (N i - 1)) n).
Proof.
  unfold g. rewrite size_tensor_tab. fold N. unfold tab. rewrite !map_map.
  apply map_ext_in. intros i Hi. apply in_seq in Hi.
  rewrite ssub_Fin, sdiv_Fin; [reflexivity | apply N_facts; lia].
Qed.

Lemma scale_cube_grid :
  map (fun x => smul (Ffrac 1 2) x) (size_tensor g)
  = map (fun x => sdiv x (Fin (Qz 2))) (size_tensor g)
  /\ map (fun x => sdiv x (Fin (Qz 2))) (size_tensor g)
     = map Fin (tab (fun i => N i / Qz 2) n).
Proof.
  unfold g. rewrite size_tensor_tab. fold N. unfold tab. rewrite !map_map.
  split; apply map_ext; intros i; rewrite sdiv_Fin by exact Qz_2_neq_0;
    [cbn [smul Ffrac]; now rewrite Qc_half_mult | reflexivity].
Qed.

Lemma scale_corners_grid :
  map (fun x => smul (Ffrac 1 2) (ssub x (Fin 1))) (size_tensor g)
  = map (fun x => sdiv (ssub x (Fin 1)) (Fin (Qz 2))) (size_tensor g)
  /\ map (fun x => sdiv (ssub x (Fin 1)) (Fin (Qz 2))) (size_tensor g)
     = map Fin (tab (fun i => (N i - 1) / Qz 2) n).
Proof.
  unfold g. rewrite size_tensor_tab. fold N. unfold tab. rewrite !map_map.
  split; apply map_ext; intros i; rewrite ssub_Fin, sdiv_Fin by exact Qz_2_neq_0;
    [cbn [smul Ffrac]; now rewrite Qc_half_mult | reflexivity].
Qed.

Lemma scale_cube_corners :
  map (fun x => sdiv x (ssub x (Fin 1))) (size_tensor g)
  = map Fin (tab (fun i => N i / (N i - 1)) n)
  /\ map (fun x => sdiv (ssub x (Fin 1)) x) (size_tensor g)
     = map Fin (tab (fun i => (N i - 1) / N i) n).
Proof.
  unfold g. rewrite size_tensor_tab. fold N. unfold tab. rewrite !map_map.
  split; apply map_ext_in; intros i Hi; apply in_seq in Hi;
    rewrite ssub_Fin, sdiv_Fin; try reflexivity; apply N_facts; lia.
Qed.

Lemma vmul_tab (fa fb : nat -> Qc) :
  vmul (map Fin (tab fa n)) (map Fin (tab fb n)) = map Fin (tab (fun i => fa i * fb i) n).
Proof. rewrite vmul_Fin. unfold tab. fuse. reflexivity. Qed.

Lemma eye_tab : eye n = diag (map Fin (tab (fun _ => 1) n)).
Proof. unfold eye. f_equal. rewrite repeat_tab. unfold tab. now rewrite map_map. Qed.

End VectorTransforms.

(** [transform_vectors] agrees with [transform(..., vectors=True)]: on a valid
    grid all of whose axes have more than one point, the vector it returns
    is the product of the matrix of [transform] with the given vector, for
    every pair of coordinate spaces other than the two cubes.  (Between
    [CUBE] and [CUBE_CORNERS] the method multiplies the two factors
    [size / 2] and [2 / (size - 1)] where [transform] divides [size] by
    [size - 1]: the same number only without rounding.) *)
Theorem transform_vectors_agrees (g : Grid) (v : list Qc) (a b : Axes) :
  valid_grid g = true -> length v = ndim g ->
  forallb (fun n => sltb (Fin 1) n) (_size g) = true ->
  cube_pair a b = false ->
  exists m, transform g (Some a) (Some b) None true = Ok m
    /\ transform_vectors g (map Fin v) a (Some b) None = Ok (matvec m (map Fin v)).
Proof.
  intros Hv Hl Hpos Hpair.
  destruct (valid_grid_presented _ Hv)
    as (n & fsz & fs & c & d & flag & Hg & Hn & Hc & Hd & Hr & Hsz & Hsp & _).
  subst g. clear Hv. rewrite ndim_finite_grid in Hl.
  unfold finite_grid in Hpos. cbn [_size] in Hpos.
  set (fv := fun i => nth i v 0).
  assert (Ev : v = tab fv n) by (rewrite <- Hl; symmetry; apply tab_nth).
  assert (HN : forall i, (i < n)%nat -> Qz 2 <= qceil (fsz i)).
  { intros i Hi.
    assert (Hi' : (i < length (map Fin (tab fsz n)))%nat)
      by now rewrite length_map, length_tab.
    pose proof (forallb_nth _ _ (Fin 0) Hpos Hi') as H.
    rewrite nth_map_Fin in H. unfold tab in H. rewrite nth_map_seq in H by assumption.
    apply sltb_Fin in H. now apply qceil_gt1. }
  rewrite Ev. clear Ev Hpos Hl.
  pose proof (@scale_grid_cube fsz fs n c d flag HN) as E1.
  pose proof (@scale_grid_corners fsz fs n c d flag HN) as E2.
  destruct (@scale_cube_grid fsz fs n c d flag) as [E3 E3'].
  destruct (@scale_corners_grid fsz fs n c d flag) as [E4 E4'].
  destruct (@scale_cube_corners fsz fs n c d flag HN) as [E5 E6].
  set (g := finite_grid (tab fsz n) c (tab fs n) d flag) in *.
  assert (Hnd : ndim g = n) by apply ndim_finite_grid.
  destruct a, b; try discriminate Hpair; unfold transform, transform_vectors;
    cbn [transform_rec transform_body Axes_eqb andb negb bind assert];
    rewrite ?Hnd; (eexists; split; [reflexivity |]).
  all: rewrite ?map_map, ?E3, ?E4; try reflexivity.
  all: rewrite ?E1, ?E2, ?E3', ?E4', ?E5, ?E6, ?eye_tab, ?vmul_tab, ?diag_matvec_tab.
  all: try (do 2 f_equal; apply tab_ext; intros i Hi; try ring).
  all: destruct (@N_facts fsz n HN i Hi) as [H0 H1];
    assert (H2 : Qz 2 <> 0) by discriminate;
    field; repeat split; assumption.
Qed.

(** [transform_vectors_agrees] on the 4 x 6 grid, from cube to world. *)
Lemma transform_vectors_agrees_witness :
  exists m, transform (plain_grid [4; 6]%Z true) (Some CUBE) (Some WORLD) None true = Ok m
    /\ transform_vectors (plain_grid [4; 6]%Z true) (map Fin [Qz 1; Qfrac 5 2])
         CUBE (Some WORLD) None
       = Ok (matvec m (map Fin [Qz 1; Qfrac 5 2])).
Proof.
  apply (@transform_vectors_agrees (plain_grid [4; 6]%Z true) [Qz 1; Qfrac 5 2] CUBE WORLD);
    vm_compute; reflexivity.
Defined.

(** ** Statements that do not depend on rounding

    The tensors of the source hold single-precision numbers, and every sum,
    product and quotient is rounded; the scalars of this development are
    exact.  The statements below are therefore about what the code copies,
    tests or counts: they say which attributes an operation hands over
    unchanged, which sizes it computes, what its run-time checks establish,
    and they are conditional on the call returning wherever a run-time
    assertion of the source compares computed numbers. *)

Lemma seqb_eq (a b : scalar) : seqb a b = true -> a = b.
Proof.
  destruct a as [x | | |], b as [y | | |]; try discriminate; try reflexivity.
  intros H. apply seqb_Fin in H. now subst.
Qed.

Lemma all_seqb_eq (v s : vec) :
  length v = length s -> all (map2 seqb v s) = true -> v = s.
Proof.
  unfold all. revert s. induction v as [| x v IH]; intros [| y s] Hl H;
    try discriminate Hl; [reflexivity |].
  cbn [map2 forallb] in H. apply andb_true_iff in H. destruct H as [H1 H2].
  apply seqb_eq in H1. subst y. f_equal. apply IH; [now inversion Hl | exact H2].
Qed.

(** What [_resize] hands over: the new grid stores the size it was given,
    and the centre, the direction and the flag of the grid it was called
    on. *)
Lemma _resize_Ok (g : Grid) (v : vec) (ac : option bool) (g' : Grid) :
  length v = ndim g -> _resize g v ac = Ok g' ->
  _size g' = v /\ _center g' = _center g /\ _direction g' = _direction g
  /\ _align_corners g' = _align_corners g.
Proof.
  intros Hl H. unfold _resize in H.
  destruct (all (map2 seqb v (_size g))) eqn:E.
  - inversion H; subst g'. repeat split. symmetry. now apply all_seqb_eq.
  - destruct (match ac with None => _align_corners g | Some b => b end);
      apply assert_Ok in H; destruct H as [_ H]; inversion H; subst g'; repeat split.
Qed.




Lemma downsample_Ok (g g1 : Grid) (levels min_size : Z) (ac : option bool) :
  downsample g levels None min_size ac = Ok g1 ->
  _size g1 = map (fun n => if sgeb (sdiv n (Fin (pow2 levels))) (Fz min_size)
                           then sdiv n (Fin (pow2 levels)) else n) (_size g)
  /\ _center g1 = _center g /\ _direction g1 = _direction g
  /\ _align_corners g1 = _align_corners g.
Proof.
  unfold downsample, dims_or_all, ndim. rewrite update_dims_all. cbn [bind].
  rewrite (vwhere_pointwise (fun n => sgeb n (Fz min_size))
             (fun n => sdiv n (Fin (pow2 levels)))
             (fun n => if sgeb (sdiv n (Fin (pow2 levels))) (Fz min_size)
                       then sdiv n (Fin (pow2 levels)) else n))
    by reflexivity.
  intros H. apply _resize_Ok in H; [exact H |].
  unfold ndim. now rewrite length_map.
Qed.

Lemma upsample_Ok (g g1 : Grid) (levels : Z) (ac : option bool) :
  upsample g levels None ac = Ok g1 ->
  _size g1 = map (fun n => smul n (Fin (pow2 levels))) (_size g)
  /\ _center g1 = _center g /\ _direction g1 = _direction g
  /\ _align_corners g1 = _align_corners g.
Proof.
  unfold upsample, dims_or_all, ndim. rewrite update_dims_all. cbn [bind].
  intros H. apply _resize_Ok in H; [exact H |].
  unfold ndim. now rewrite length_map.
Qed.

(** Halving and doubling along one axis. *)
Lemma halve_double (n : scalar) :
  seqb n (Fin 0) || sleb (Fz 2) n = true ->
  smul (if sgeb (sdiv n (Fin (Qz 2))) (Fz 1) then sdiv n (Fin (Qz 2)) else n) (Fin (Qz 2)) = n.
Proof.
  intros H. apply orb_true_iff in H. destruct H as [H | H].
  - apply seqb_eq in H. subst n. rewrite sdiv_Fin by exact Qz_2_neq_0.
    replace (0 / Qz 2) with 0 by (field; exact Qz_2_neq_0).
    destruct (sgeb (Fin 0) (Fz 1)); cbn [smul]; f_equal; ring.
  - destruct n as [q | | |]; try discriminate H.
    + apply sleb_Fin in H. rewrite sdiv_Fin by exact Qz_2_neq_0.
      assert (E : sgeb (Fin (q / Qz 2)) (Fz 1) = true).
      { unfold sgeb, Fz. apply sleb_Fin. rewrite Qz_1.
        replace 1 with (Qz 2 / Qz 2) by (field; exact Qz_2_neq_0).
        unfold Qcdiv. apply Qcmult_le_compat_r; [exact H |].
        apply Qclt_le_weak. pose proof (@Qc_inv_pos (Qz 2)) as Hp.
        unfold Qcdiv in Hp. rewrite Qcmult_1_l in Hp. apply Hp. now apply Qz_pos. }
      rewrite E. cbn [smul]. f_equal. field. exact Qz_2_neq_0.
    + vm_compute. reflexivity.
Qed.

(** C4, amended: whenever [downsample(1)] returns a grid and [upsample(1)]
    of that grid returns a grid, the result has exactly the centre, the
    direction and the flag of the original; along an axis whose stored size
    is 0 or at least 2 it has exactly the size of the original, and along an
    axis whose stored size lies strictly between 0 and 2 twice that size
    (halving would fall below [min_size = 1], so the axis is only doubled).
    Sizes need not be powers of two, nor integers.  No statement is made on
    the spacing, which both steps compute anew from the extent. *)
Theorem downsample_upsample (g g1 g2 : Grid) (ac ac' : option bool) :
  downsample g 1 None 1 ac = Ok g1 ->
  upsample g1 1 None ac' = Ok g2 ->
  _center g2 = _center g /\ _direction g2 = _direction g
  /\ _align_corners g2 = _align_corners g
  /\ (forall i n, nth_error (_size g) i = Some n -> halvable false n = true ->
        nth_error (_size g2) i = Some n)
  /\ (forall i q, nth_error (_size g) i = Some (Fin q) -> 0 < q -> q < Qz 2 ->
        nth_error (_size g2) i = Some (Fin (q * Qz 2))).
Proof.
  intros H1 H2.
  apply downsample_Ok in H1. destruct H1 as (Hs1 & Hc1 & Hd1 & Hf1).
  apply upsample_Ok in H2. destruct H2 as (Hs2 & Hc2 & Hd2 & Hf2).
  rewrite pow2_1 in *.
  split; [congruence |]. split; [congruence |]. split; [congruence |].
  rewrite Hs2, Hs1, map_map. split.
  - intros i n Hi Hh. rewrite nth_error_map, Hi. cbn [option_map]. f_equal.
    now apply halve_double.
  - intros i q Hi Hq0 Hq2. rewrite nth_error_map, Hi. cbn [option_map].
    rewrite sdiv_Fin by exact Qz_2_neq_0.
    assert (E : sgeb (Fin (q / Qz 2)) (Fz 1) = false).
    { unfold sgeb, Fz. apply sleb_Fin_false. rewrite Qz_1.
      replace 1 with (Qz 2 / Qz 2) by (field; exact Qz_2_neq_0).
      unfold Qcdiv. apply Qcmult_lt_compat_r; [| exact Hq2].
      pose proof (@Qc_inv_pos (Qz 2)) as Hp.
      unfold Qcdiv in Hp. rewrite Qcmult_1_l in Hp. apply Hp. now apply Qz_pos. }
    rewrite E. reflexivity.
Qed.

(** The statement on the 5 x 6 grid with aligned corners: halving gives the
    stored size 2.5 x 3, doubling gives 5 x 6 again. *)
Lemma downsample_upsample_witness :
  exists g1 g2,
    downsample (plain_grid [5; 6]%Z true) 1 None 1 None = Ok g1
    /\ upsample g1 1 None None = Ok g2
    /\ nth_error (_size g2) 0 = Some (Fz 5) /\ nth_error (_size g2) 1 = Some (Fz 6)
    /\ _center g2 = [Fin 0; Fin 0].
Proof.
  do 2 eexists.
  match goal with |- ?A /\ _ => assert (H1 : A) by (vm_compute; reflexivity) end.
  split; [exact H1 |].
  match goal with |- ?A /\ _ => assert (H2 : A) by (vm_compute; reflexivity) end.
  split; [exact H2 |].
  destruct (@downsample_upsample _ _ _ None None H1 H2) as (Hc & _ & _ & Hs & _).
  split; [exact (Hs 0%nat (Fz 5) eq_refl eq_refl) |].
  split; [exact (Hs 1%nat (Fz 6) eq_refl eq_refl) | exact Hc].
Defined.




Lemma same_attributes_parts (g h : Grid) :
  same_attributes g h = true ->
  _size g = _size h /\ _center g = _center h /\ _spacing g = _spacing h
  /\ _direction g = _direction h.
Proof.
  unfold same_attributes. rewrite !andb_true_iff. intros [[[H1 H2] H3] H4].
  repeat split; [apply vec_eqb_eq | apply vec_eqb_eq | apply vec_eqb_eq | apply mat_eqb_eq];
    assumption.
Qed.

Lemma whole_sizes_ints (g : Grid) (cur : list Z) :
  _size g = map Fz cur -> forallb (fun n => (0 <=? n)%Z) cur = true ->
  whole_sizes g = true.
Proof.
  intros Hs Hc. unfold whole_sizes. rewrite Hs. apply forallb_forall.
  intros n Hn. apply in_map_iff in Hn. destruct Hn as (z & <- & Hz).
  rewrite forallb_forall in Hc. specialize (Hc z Hz). apply Z.leb_le in Hc.
  apply orb_true_iff. destruct (Z.eq_dec z 0) as [-> | Hz0].
  - left. apply seqb_refl.
  - right. unfold Fz. apply sleb_Fin. rewrite <- Qz_1. apply (proj1 (Qz_le 1 z)). lia.
Qed.

Lemma forallb_andb_l {A : Type} (P Q : A -> bool) (l : list A) :
  forallb (fun x => P x && Q x) l = true -> forallb P l = true.
Proof.
  rewrite !forallb_forall. intros H x Hx. specialize (H x Hx).
  now apply andb_true_iff in H.
Qed.

(** [index_to_world] is the affine map of the grid: the point of index [p]
    lies at [affine() p + origin()], and the point of index zero is the
    origin. *)
Theorem index_to_world_affine (g : Grid) :
  valid_grid g = true ->
  (forall p : vec, all_finite p = true -> length p = ndim g ->
     index_to_world g p (Some (-1)%Z) = Ok (vadd (matvec (affine g) p) (origin g)))
  /\ index_to_world g (repeat (Fin 0) (ndim g)) (Some (-1)%Z) = Ok (origin g).
Proof.
  intros Hv. destruct (@index_to_world_affine_exact g Hv) as (H1 & H2 & _). split; assumption.
Qed.

(** [index_to_world_affine] on the 4 x 6 grid. *)
Lemma index_to_world_affine_witness :
  index_to_world (plain_grid [4; 6]%Z true) [Fz 1; Fz 2] (Some (-1)%Z)
  = Ok (vadd (matvec (affine (plain_grid [4; 6]%Z true)) [Fz 1; Fz 2])
          (origin (plain_grid [4; 6]%Z true)))
  /\ index_to_world (plain_grid [4; 6]%Z true) [Fin 0; Fin 0] (Some (-1)%Z)
     = Ok (origin (plain_grid [4; 6]%Z true)).
Proof.
  assert (Hv : valid_grid (plain_grid [4; 6]%Z true) = true) by (vm_compute; reflexivity).
  destruct (@index_to_world_affine _ Hv) as (H1 & H2).
  split; [apply H1; reflexivity | exact H2].
Defined.

(** [narrow] replaces the size along [dim] by [length] and keeps the spacing
    and the direction (sizes are at most [2^24], the whole numbers single
    precision holds exactly).  A [dim] below 0 or above [ndim] raises [IndexError];
    [dim == ndim] passes the test and changes no axis. *)
Theorem narrow_spec (g : Grid) (dim start len : Z) :
  valid_grid g = true ->
  forallb (fun n => sleb n (Fz (2 ^ 24))) (_size g) = true ->
  (0 <= len <= 2 ^ 24)%Z ->
  let ds := map Z.of_nat (seq 0 (ndim g)) in
  if ((dim <? 0) || (Z.of_nat (ndim g) <? dim))%Z
  then narrow g dim start len = Raise IndexError
  else exists g' cur,
      narrow g dim start len = Ok g'
      /\ size g = Ok cur
      /\ size g' = Ok (map2 (fun d n => if (d =? dim)%Z then len else n) ds cur)
      /\ spacing g' = spacing g /\ direction g' = direction g.
Proof.
  intros Hv _ [Hlen _] ds. pose proof (@narrow_spec_exact g dim start len Hv Hlen) as H.
  cbv zeta in H. fold ds in H.
  destruct ((dim <? 0) || (Z.of_nat (ndim g) <? dim))%Z; [exact H |].
  destruct H as (g' & cur & H1 & H2 & H3 & H4 & H5 & _).
  exists g', cur. auto.
Qed.

(** [narrow_spec] on the 4 x 6 grid: three points of the second axis. *)
Lemma narrow_spec_witness :
  exists g',
    narrow (plain_grid [4; 6]%Z true) 1 2 3 = Ok g'
    /\ size g' = Ok [4; 3]%Z
    /\ spacing g' = spacing (plain_grid [4; 6]%Z true).
Proof.
  assert (Hv : valid_grid (plain_grid [4; 6]%Z true) = true) by (vm_compute; reflexivity).
  destruct (@narrow_spec (plain_grid [4; 6]%Z true) 1 2 3 Hv eq_refl ltac:(lia))
    as (g' & cur & H1 & H2 & H3 & H4 & _).
  exists g'. split; [exact H1 |].
  vm_compute in H2. inversion H2. subst cur. split; [exact H3 | exact H4].
Defined.

(** [center_crop] returns the grid of size [min(size, requested)] with the
    spacing and direction of [g] (sizes at most [2^24]). *)
Theorem center_crop_spec (g : Grid) (req : list Z) :
  valid_grid g = true ->
  forallb (fun n => sleb n (Fz (2 ^ 24))) (_size g) = true ->
  length req = ndim g ->
  forallb (fun n => (0 <=? n) && (n <=? 2 ^ 24))%Z req = true ->
  exists g' cur,
    center_crop g (IntVector req) = Ok g'
    /\ size g = Ok cur
    /\ size g' = Ok (map2 Z.min cur req)
    /\ spacing g' = spacing g /\ direction g' = direction g.
Proof.
  intros Hv _ Hl Hreq. apply forallb_andb_l in Hreq.
  destruct (@center_crop_spec_exact g req Hv Hl Hreq) as (g' & cur & H1 & H2 & H3 & H4 & H5 & _).
  exists g', cur. auto.
Qed.

(** [center_crop_spec] on the 7 x 6 grid. *)
Lemma center_crop_spec_witness :
  exists g',
    center_crop (plain_grid [7; 6]%Z true) (IntVector [3; 9]%Z) = Ok g'
    /\ size g' = Ok [3; 6]%Z.
Proof.
  assert (Hv : valid_grid (plain_grid [7; 6]%Z true) = true) by (vm_compute; reflexivity).
  destruct (@center_crop_spec (plain_grid [7; 6]%Z true) [3; 9]%Z Hv eq_refl eq_refl eq_refl)
    as (g' & cur & H1 & H2 & H3 & _).
  exists g'. split; [exact H1 |].
  vm_compute in H2. inversion H2. subst cur. exact H3.
Defined.

(** [center_pad] returns the grid of size [max(size, requested)] with the
    spacing and direction of [g] (sizes at most [2^24]). *)
Theorem center_pad_spec (g : Grid) (req : list Z) :
  valid_grid g = true ->
  forallb (fun n => sleb n (Fz (2 ^ 24))) (_size g) = true ->
  length req = ndim g ->
  forallb (fun n => (n <=? 2 ^ 24))%Z req = true ->
  exists g' cur,
    center_pad g (IntVector req) = Ok g'
    /\ size g = Ok cur
    /\ size g' = Ok (map2 Z.max cur req)
    /\ spacing g' = spacing g /\ direction g' = direction g.
Proof.
  intros Hv _ Hl _.
  destruct (@center_pad_spec_exact g req Hv Hl) as (g' & cur & H1 & H2 & H3 & H4 & H5 & _).
  exists g', cur. auto.
Qed.

(** [center_pad_spec] on the 7 x 6 grid. *)
Lemma center_pad_spec_witness :
  exists g',
    center_pad (plain_grid [7; 6]%Z true) (IntVector [3; 10]%Z) = Ok g'
    /\ size g' = Ok [7; 10]%Z.
Proof.
  assert (Hv : valid_grid (plain_grid [7; 6]%Z true) = true) by (vm_compute; reflexivity).
  destruct (@center_pad_spec (plain_grid [7; 6]%Z true) [3; 10]%Z Hv eq_refl eq_refl eq_refl)
    as (g' & cur & H1 & H2 & H3 & _).
  exists g'. split; [exact H1 |].
  vm_compute in H2. inversion H2. subst cur. exact H3.
Defined.

(** [region_of_interest(start, size)] on a valid grid whose stored sizes are
    positive whole numbers: for sizes of at least 1 it returns a grid of the
    requested size with the spacing and direction of [g].  (Sizes and start
    indices are at most [2^22] in magnitude, so that the differences of the
    source are exact in single precision.) *)
Theorem region_of_interest_spec (g : Grid) (cur start sz : list Z) :
  valid_grid g = true ->
  _size g = map Fz cur ->
  forallb (fun n => (1 <=? n) && (n <=? 2 ^ 22))%Z cur = true ->
  length start = ndim g -> length sz = ndim g ->
  forallb (fun n => (Z.abs n <=? 2 ^ 22))%Z start = true ->
  forallb (fun n => (1 <=? n) && (n <=? 2 ^ 22))%Z sz = true ->
  exists g',
    region_of_interest g (IntVector start) (IntVector sz) = Ok g'
    /\ size g' = Ok sz
    /\ spacing g' = spacing g /\ direction g' = direction g.
Proof.
  intros Hv Hs Hcur Hl1 Hl2 _ Hsz.
  apply forallb_andb_l in Hcur. apply forallb_andb_l in Hsz.
  destruct (@region_of_interest_spec_exact g cur start sz Hv Hs Hcur Hl1 Hl2 Hsz)
    as (g' & H1 & H2 & H3 & H4 & _).
  exists g'. auto.
Qed.

(** [region_of_interest_spec] on the 6 x 8 grid. *)
Lemma region_of_interest_spec_witness :
  exists g',
    region_of_interest (plain_grid [6; 8]%Z true) (IntVector [1; 2]%Z) (IntVector [3; 4]%Z)
    = Ok g'
    /\ size g' = Ok [3; 4]%Z.
Proof.
  assert (Hv : valid_grid (plain_grid [6; 8]%Z true) = true) by (vm_compute; reflexivity).
  destruct (@region_of_interest_spec (plain_grid [6; 8]%Z true) [6; 8]%Z [1; 2]%Z
              [3; 4]%Z Hv eq_refl eq_refl eq_refl eq_refl eq_refl eq_refl)
    as (g' & H1 & H2 & _).
  exists g'. auto.
Defined.

(** Doubling and halving along one axis. *)
Lemma double_halve (n : scalar) :
  seqb n (Fin 0) || sleb (Fin 1) n = true ->
  (if sgeb (sdiv (smul n (Fin (Qz 2))) (Fin (Qz 2))) (Fz 1)
   then sdiv (smul n (Fin (Qz 2))) (Fin (Qz 2)) else smul n (Fin (Qz 2))) = n.
Proof.
  intros H. apply orb_true_iff in H. destruct H as [H | H].
  - apply seqb_eq in H. subst n. cbn [smul]. rewrite Qcmult_0_l.
    rewrite sdiv_Fin by exact Qz_2_neq_0.
    replace (0 / Qz 2) with 0 by (field; exact Qz_2_neq_0).
    now destruct (sgeb (Fin 0) (Fz 1)).
  - destruct n as [q | | |]; try discriminate H.
    + apply sleb_Fin in H. cbn [smul]. rewrite sdiv_Fin by exact Qz_2_neq_0.
      replace (q * Qz 2 / Qz 2) with q by (field; exact Qz_2_neq_0).
      assert (E : sgeb (Fin q) (Fz 1) = true).
      { unfold sgeb, Fz. apply sleb_Fin. now rewrite Qz_1. }
      now rewrite E.
    + vm_compute. reflexivity.
Qed.

Lemma qclamp_min_floor (m q : Qc) : m <= qclamp_min m q.
Proof.
  unfold qclamp_min. destruct (Qc_ltb q m) eqn:E; [apply Qcle_refl |].
  now apply Qc_ltb_ge in E.
Qed.

(** [upsample(1)] followed by [downsample(1)]: whenever both calls return,
    the result has exactly the centre, the direction and the flag of the
    original; along an axis whose stored size is 0 or at least 1 it has
    exactly the size of the original, and along an axis whose stored size
    lies strictly between 0 and 1 twice that size (halving the doubled size
    would fall below [min_size = 1]).  No statement is made on the spacing,
    which both steps compute anew from the extent. *)
Theorem upsample_downsample (g g1 g2 : Grid) (ac ac' : option bool) :
  upsample g 1 None ac = Ok g1 ->
  downsample g1 1 None 1 ac' = Ok g2 ->
  _center g2 = _center g /\ _direction g2 = _direction g
  /\ _align_corners g2 = _align_corners g
  /\ (forall i n, nth_error (_size g) i = Some n -> doublable false n = true ->
        nth_error (_size g2) i = Some n)
  /\ (forall i q, nth_error (_size g) i = Some (Fin q) -> 0 < q -> q < 1 ->
        nth_error (_size g2) i = Some (Fin (q * Qz 2))).
Proof.
  intros H1 H2.
  apply upsample_Ok in H1. destruct H1 as (Hs1 & Hc1 & Hd1 & Hf1).
  apply downsample_Ok in H2. destruct H2 as (Hs2 & Hc2 & Hd2 & Hf2).
  rewrite pow2_1 in *.
  split; [congruence |]. split; [congruence |]. split; [congruence |].
  rewrite Hs2, Hs1, map_map. split.
  - intros i n Hi Hh. rewrite nth_error_map, Hi. cbn [option_map]. f_equal.
    now apply double_halve.
  - intros i q Hi Hq0 Hq1. rewrite nth_error_map, Hi. cbn [option_map smul].
    rewrite sdiv_Fin by exact Qz_2_neq_0.
    replace (q * Qz 2 / Qz 2) with q by (field; exact Qz_2_neq_0).
    assert (E : sgeb (Fin q) (Fz 1) = false).
    { unfold sgeb, Fz. apply sleb_Fin_false. now rewrite Qz_1. }
    now rewrite E.
Qed.

(** The statement on the 5 x 2 grid with aligned corners. *)
Lemma upsample_downsample_witness :
  exists g1 g2,
    upsample (plain_grid [5; 2]%Z true) 1 None None = Ok g1
    /\ downsample g1 1 None 1 None = Ok g2
    /\ _size g1 = [Fz 10; Fz 4]
    /\ nth_error (_size g2) 0 = Some (Fz 5) /\ nth_error (_size g2) 1 = Some (Fz 2).
Proof.
  do 2 eexists.
  match goal with |- ?A /\ _ => assert (H1 : A) by (vm_compute; reflexivity) end.
  split; [exact H1 |].
  match goal with |- ?A /\ _ => assert (H2 : A) by (vm_compute; reflexivity) end.
  split; [exact H2 |].
  destruct (@upsample_downsample _ _ _ None None H1 H2) as (_ & _ & _ & Hs & _).
  split; [reflexivity |].
  split; [exact (Hs 0%nat (Fz 5) eq_refl eq_refl) | exact (Hs 1%nat (Fz 2) eq_refl eq_refl)].
Defined.

(** [resample] with a sequence of positive spacings: when the spacing is
    close to the spacing of [g] (the test of the source) the grid itself is
    returned; otherwise the new grid has the requested spacing and the
    centre and direction of [g], and on every axis of positive stored size
    its stored size is at least [min_size] (at most [2^24] in magnitude, the
    whole numbers single precision holds exactly). *)
Theorem resample_spec (g : Grid) (sp : list Qc) (min_size : Z) :
  valid_grid g = true -> length sp = ndim g ->
  forallb (fun s => Qc_ltb 0 s) sp = true ->
  (Z.abs min_size <= 2 ^ 24)%Z ->
  if allclose (map Fin sp) (_spacing g)
  then resample g (SpacingArray (Vector (map Fin sp))) min_size = Ok g
  else exists g',
      resample g (SpacingArray (Vector (map Fin sp))) min_size = Ok g'
      /\ spacing g' = map Fin sp
      /\ center g' = center g /\ direction g' = direction g
      /\ length (_size g') = ndim g
      /\ all (map2 (fun n n' => negb (sgtb n (Fin 0)) || sleb (Fz min_size) n')
                (_size g) (_size g')) = true.
Proof.
  intros Hv Hl Hpos _.
  destruct (valid_grid_presented _ Hv)
    as (n & fsz & fs & c & d & flag & Hg & Hn & Hc & Hd & Hr & Hsz & Hsp & _).
  subst g. clear Hv. rewrite ndim_finite_grid in *.
  set (fp := fun i => nth i sp 0).
  assert (Esp : sp = tab fp n) by (rewrite <- Hl; symmetry; apply tab_nth).
  assert (Hfp : forall i, (i < n)%nat -> 0 < fp i).
  { intros i Hi. apply Qc_ltb_lt. rewrite forallb_forall in Hpos. apply Hpos.
    apply nth_In. lia. }
  rewrite Esp. clear Esp Hpos Hl.
  rewrite (@resample_tab fsz fs fp n c d flag min_size Hfp).
  destruct (allclose (map Fin (tab fp n)) _); [reflexivity |].
  eexists. split; [reflexivity |].
  split; [reflexivity |]. split; [reflexivity |]. split; [reflexivity |].
  unfold finite_grid. cbn [_size].
  split; [now rewrite length_map, length_tab |].
  unfold all, tab. fuse. apply forallb_forall. intros b Hb.
  apply in_map_iff in Hb. destruct Hb as (i & <- & Hi).
  rewrite sgtb_Fin_0. destruct (Qc_ltb 0 (fsz i)); [| reflexivity].
  cbn [negb orb]. unfold Fz. apply sleb_Fin. apply qclamp_min_floor.
Qed.

(** [resample_spec] on the 5 x 4 grid of unit spacing, resampled to the
    spacing (2, 1/2). *)
Lemma resample_spec_witness :
  exists g',
    resample (plain_grid [5; 4]%Z true)
      (SpacingArray (Vector (map Fin [Qz 2; Qfrac 1 2]))) 1 = Ok g'
    /\ spacing g' = map Fin [Qz 2; Qfrac 1 2].
Proof.
  assert (Hv : valid_grid (plain_grid [5; 4]%Z true) = true) by (vm_compute; reflexivity).
  pose proof (@resample_spec (plain_grid [5; 4]%Z true) [Qz 2; Qfrac 1 2] 1 Hv
                eq_refl eq_refl ltac:(lia)) as H.
  assert (E : allclose (map Fin [Qz 2; Qfrac 1 2]) (_spacing (plain_grid [5; 4]%Z true))
              = false) by (vm_compute; reflexivity).
  rewrite E in H. destruct H as (g' & H1 & H2 & _).
  exists g'. auto.
Defined.

(** [resample("min")] and [resample("max")] on a valid grid return a grid:
    the grid itself when its spacing is close to the isotropic one (the
    test of the source), and otherwise a grid with the centre and direction
    of the first whose spacing along every axis is the smallest,
    respectively the largest, spacing of the grid. *)
Theorem resample_isotropic (g : Grid) (min_size : Z) :
  valid_grid g = true ->
  exists m M gm gM,
    resample g SpacingMin min_size = Ok gm
    /\ resample g SpacingMax min_size = Ok gM
    /\ In (Fin m) (spacing g) /\ In (Fin M) (spacing g)
    /\ (forall s, In s (spacing g) -> sleb (Fin m) s = true /\ sleb s (Fin M) = true)
    /\ (if allclose (repeat (Fin m) (ndim g)) (_spacing g) then gm = g
        else spacing gm = repeat (Fin m) (ndim g)
             /\ center gm = center g /\ direction gm = direction g)
    /\ (if allclose (repeat (Fin M) (ndim g)) (_spacing g) then gM = g
        else spacing gM = repeat (Fin M) (ndim g)
             /\ center gM = center g /\ direction gM = direction g).
Proof.
  intros Hv.
  destruct (valid_grid_presented _ Hv)
    as (n & fsz & fs & c & d & flag & Hg & Hn & Hc & Hd & Hr & Hsz & Hsp & _).
  subst g. clear Hv. rewrite ndim_finite_grid. unfold spacing, finite_grid at 3 4 5 6 7.
  cbn [_spacing].
  destruct n as [| n]; [contradiction |].
  assert (Hin : forall q, In q (tab fs (S n)) -> 0 < q).
  { intros q Hq. apply In_tab in Hq. destruct Hq as (i & Hi & ->). now apply Hsp. }
  assert (Et : tab fs (S n) = fs 0%nat :: tab (fun i => fs (S i)) n) by apply tab_S.
  destruct (fold_smin_Fin (tab (fun i => fs (S i)) n) (fs 0%nat)) as (m & Hm & Hmin & Hmle).
  destruct (fold_smax_Fin (tab (fun i => fs (S i)) n) (fs 0%nat)) as (M & HM & HMin & HMle).
  rewrite <- Et in Hmin, Hmle, HMin, HMle.
  assert (Emin : resample (finite_grid (tab fsz (S n)) c (tab fs (S n)) d flag) SpacingMin
                   min_size
                 = resample (finite_grid (tab fsz (S n)) c (tab fs (S n)) d flag)
                     (SpacingArray (Scalar (Fin m))) min_size).
  { unfold resample, finite_grid. cbn [_spacing]. rewrite Et. cbn [map vmin bind].
    now rewrite Hm. }
  assert (Emax : resample (finite_grid (tab fsz (S n)) c (tab fs (S n)) d flag) SpacingMax
                   min_size
                 = resample (finite_grid (tab fsz (S n)) c (tab fs (S n)) d flag)
                     (SpacingArray (Scalar (Fin M))) min_size).
  { unfold resample, finite_grid. cbn [_spacing]. rewrite Et. cbn [map vmax bind].
    now rewrite HM. }
  assert (Er : forall x : Qc, repeat (Fin x) (S n) = map Fin (tab (fun _ => x) (S n))).
  { intros x. rewrite repeat_tab. unfold tab. now rewrite map_map. }
  rewrite Emin, Emax, !resample_scalar.
  rewrite !resample_tab by (intros; now apply Hin).
  exists m, M. eexists. eexists. rewrite !Er.
  split; [reflexivity |]. split; [reflexivity |].
  split; [now apply in_map |]. split; [now apply in_map |]. split.
  - intros s Hs. apply in_map_iff in Hs. destruct Hs as (q & <- & Hq).
    split; apply sleb_Fin; [now apply Hmle | now apply HMle].
  - unfold finite_grid at 2 5. cbn [_spacing].
    split; destruct (allclose _ _); try reflexivity; repeat split.
Qed.

(** [resample_isotropic] on a grid of spacing (2, 1/2): the spacings
    become (1/2, 1/2) and (2, 2). *)
Lemma resample_isotropic_witness :
  exists gm gM,
    resample (mkGrid [Fz 4; Fz 4] [Fz 0; Fz 0] [Fz 2; Ffrac 1 2] (eye 2) true)
      SpacingMin 1 = Ok gm
    /\ resample (mkGrid [Fz 4; Fz 4] [Fz 0; Fz 0] [Fz 2; Ffrac 1 2] (eye 2) true)
         SpacingMax 1 = Ok gM
    /\ _spacing gm = [Ffrac 1 2; Ffrac 1 2] /\ _spacing gM = [Fz 2; Fz 2].
Proof.
  assert (Hv : valid_grid (mkGrid [Fz 4; Fz 4] [Fz 0; Fz 0] [Fz 2; Ffrac 1 2] (eye 2) true)
               = true) by (vm_compute; reflexivity).
  destruct (@resample_isotropic _ 1 Hv) as (m & M & gm & gM & H1 & H2 & _).
  exists gm, gM. split; [exact H1 |]. split; [exact H2 |].
  vm_compute in H1. vm_compute in H2. inversion H1. inversion H2.
  split; vm_compute; reflexivity.
Defined.

(** C6, amended: on a valid grid whose stored sizes are whole numbers, for
    border counts that are not negative, [pad] followed by [crop] with the
    same arguments returns a grid with exactly the size, the spacing and the
    direction of the first; and so does [crop] followed by [pad] if the crop
    leaves at least one point on every non-empty axis (the floor of 1 is not
    triggered).  (Sizes and counts are at most [2^22], so that the sums of
    the source are exact in single precision.  The centre is computed anew
    from the origin in each step; no statement is made on it.) *)
Theorem pad_crop_round_trip (g : Grid) (args : list margin_arg)
    (margin num : option margin_arg) (cnt cur : list Z) :
  valid_grid g = true ->
  _size g = map Fz cur ->
  forallb (fun n => (0 <=? n) && (n <=? 2 ^ 22))%Z cur = true ->
  border_counts g args margin num = Ok cnt ->
  forallb (fun z => (0 <=? z) && (z <=? 2 ^ 22))%Z cnt = true ->
  (length cnt <= 2 * ndim g)%nat ->
  (exists g1 g2,
     pad g args margin num = Ok g1 /\ crop g1 args margin num = Ok g2
     /\ _size g2 = _size g /\ _spacing g2 = _spacing g /\ _direction g2 = _direction g)
  /\ (crop_unclamped g cnt = true ->
      exists g1 g2,
        crop g args margin num = Ok g1 /\ pad g1 args margin num = Ok g2
        /\ _size g2 = _size g /\ _spacing g2 = _spacing g /\ _direction g2 = _direction g).
Proof.
  intros Hv Hs Hcur Hb Hcnt Hl.
  apply forallb_andb_l in Hcur. apply forallb_andb_l in Hcnt. split.
  - destruct (@pad_then_crop_exact g args margin num cnt Hv
                (@whole_sizes_ints g cur Hs Hcur) Hb Hcnt Hl)
      as (g1 & g2 & H1 & H2 & Hsame & _).
    exists g1, g2. split; [exact H1 |]. split; [exact H2 |].
    apply same_attributes_parts in Hsame. tauto.
  - intros Hu.
    destruct (@crop_then_pad_exact g args margin num cnt Hv Hb Hcnt Hl Hu)
      as (g1 & g2 & H1 & H2 & Hsame & _).
    exists g1, g2. split; [exact H1 |]. split; [exact H2 |].
    apply same_attributes_parts in Hsame. tauto.
Qed.

(** The statement on the 7 x 5 grid, two points at each border of the
    first axis, in both orders. *)
Lemma pad_crop_round_trip_witness :
  (exists g1 g2,
     pad (plain_grid [7; 5]%Z false) [MInt 2] None None = Ok g1
     /\ crop g1 [MInt 2] None None = Ok g2
     /\ _size g2 = [Fz 7; Fz 5])
  /\ (exists g1 g2,
        crop (plain_grid [7; 5]%Z false) [MInt 2] None None = Ok g1
        /\ pad g1 [MInt 2] None None = Ok g2
        /\ _size g2 = [Fz 7; Fz 5]).
Proof.
  destruct (@pad_crop_round_trip (plain_grid [7; 5]%Z false) [MInt 2] None None [2; 2]%Z
              [7; 5]%Z) as [(g1 & g2 & H1 & H2 & H3 & _) Hc];
    try (vm_compute; reflexivity).
  - cbn. lia.
  - split; [exists g1, g2; auto |].
    destruct (Hc eq_refl) as (h1 & h2 & K1 & K2 & K3 & _).
    exists h1, h2. auto.
Defined.

(** C6 as stated fails on a grid whose stored size is not a whole number:
    [Grid(size=(0.5, 0.5))] has one point per axis; [pad(1)] (one point at
    each border of the first axis) stores the size 2.5 along that axis, and
    [crop(1)] of that grid computes 0.5, which the floor of 1 raises to 1;
    along the second axis the floor applies already in [pad].  The result
    has the stored size 1 x 1 and does not compare equal to the first
    grid. *)
Lemma pad_crop_fractional_size :
  exists g g1 g2,
    Grid_init (Some (Vector [Ffrac 1 2; Ffrac 1 2])) None None None None None (PyBool false)
    = Ok g
    /\ valid_grid g = true
    /\ pad g [MInt 1] None None = Ok g1
    /\ crop g1 [MInt 1] None None = Ok g2
    /\ _size g = [Ffrac 1 2; Ffrac 1 2]
    /\ _size g1 = [Ffrac 5 2; Fz 1]
    /\ _size g2 = [Fz 1; Fz 1]
    /\ grid_eq g2 g = false.
Proof.
  do 3 eexists.
  split; [vm_compute; reflexivity |].
  split; [vm_compute; reflexivity |].
  split; [vm_compute; reflexivity |].
  split; [vm_compute; reflexivity |].
  repeat split; vm_compute; reflexivity.
Qed.





